(** * Stream workflow status dashboard: worktree reconciliation, commit
    scanning and stream retirement.

    A shallow embedding of
    - [reconcileWorktrees] (scanners/worktree-reconciliation.ts), with the
      stream queries it calls ([getAllStreams], [updateStream],
      [completeStream], [addHistoryEvent]);
    - [getWorktreeCommits] and [scanStreamCommits] (scanners/git-commits.ts)
      with [insertCommit] and the UNIQUE (stream_id, commit_hash) constraint
      of the [commits] table;
    - [retireStream] (services/retirement-service.ts).

    The environment the code reads (the file system, git, the clock, the
    failures of database statements) is a parameter of each Section. *)

From Stdlib Require Import String Ascii List Bool ZArith Lia Permutation.
Import ListNotations.
Open Scope string_scope.

(* ------------------------------------------------------------------ *)
(** ** Data model (types/stream.ts, types/commit.ts) *)

Inductive StreamStatus :=
| initializing | active | blocked | paused | completed | archived.

Definition StreamStatus_eqb (a b : StreamStatus) : bool :=
  match a, b with
  | initializing, initializing | active, active | blocked, blocked
  | paused, paused | completed, completed | archived, archived => true
  | _, _ => false
  end.

(** The text stored in the [status] column and in history events. *)
Definition status_text (s : StreamStatus) : string :=
  match s with
  | initializing => "initializing" | active => "active"
  | blocked => "blocked" | paused => "paused"
  | completed => "completed" | archived => "archived"
  end.

(** The columns of a [streams] row the reconciler reads or writes. *)
Record Stream := mkStream {
  id : string;
  title : string;
  branch : string;
  worktreePath : string;
  status : StreamStatus;
  updatedAt : string;
  completedAt : option string
}.

Record StreamHistoryEvent := mkEvent {
  h_streamId : string;
  eventType : string;
  oldValue : option string;
  newValue : option string;
  timestamp : string
}.

(** The persisted state: the [streams] table (in the order the query
    returns its rows) and the [stream_history] table. *)
Record Db := mkDb {
  streams : list Stream;
  history : list StreamHistoryEvent
}.

(* ------------------------------------------------------------------ *)
(** ** Reconciliation types (worktree-reconciliation.ts) *)

Record WorktreeInfo := mkWorktree {
  path : string;
  wt_branch : string;
  commitHash : string;
  isMain : bool
}.

Record StreamReconciliationEntry := mkEntry {
  streamId : string;
  e_title : string;
  e_branch : string;
  e_worktreePath : string;
  previousStatus : StreamStatus;
  newStatus : option StreamStatus;
  reason : string
}.

Record ReconciliationSummary := mkSummary {
  totalInDb : Z;
  totalWorktrees : Z;
  sum_active : Z;
  sum_completed : Z;
  sum_stale : Z;
  sum_orphaned : Z;
  sum_errors : Z
}.

Record ReconciliationResult := mkResult {
  res_active : list StreamReconciliationEntry;
  res_completed : list StreamReconciliationEntry;
  res_stale : list StreamReconciliationEntry;
  orphaned : list WorktreeInfo;
  errors : list (string * string);
  summary : ReconciliationSummary
}.

(** [options: ReconciliationOptions = {}]: an absent field is [None]. *)
Record ReconciliationOptions := mkOptions {
  opt_dryRun : option bool;
  opt_autoArchiveStale : option bool
}.

(** A JS [Map<string, WorktreeInfo>]: keys in insertion order, each once. *)
Definition WorktreeMap := list (string * WorktreeInfo).

Fixpoint map_get (m : WorktreeMap) (k : string) : option WorktreeInfo :=
  match m with
  | [] => None
  | (k', v) :: m' => if String.eqb k k' then Some v else map_get m' k
  end.

(** [x !== undefined] *)
Definition defined {A} (o : option A) : bool :=
  match o with Some _ => true | None => false end.

(** A JS [Set<string>]. *)
Definition set_has (s : list string) (x : string) : bool :=
  existsb (String.eqb x) s.

(** The statements of the database layer that write. *)
Inductive DbWrite :=
| WComplete (sid : string)                       (* completeStream *)
| WUpdateStatus (sid : string) (st : StreamStatus) (* updateStream {status} *)
| WHistory (ev : StreamHistoryEvent).            (* addHistoryEvent *)

Section Reconcile.

(** [existsSync] on a path. *)
Variable fs_exists : string -> bool.
(** [new Date().toISOString()]. *)
Variable now : string.
(** [Some msg] when the statement throws an error with message [msg]. *)
Variable db_fails : DbWrite -> option string.

(** [getAllStreams(db)]: every row except the one with id 'main'. *)
Definition getAllStreams (db : Db) : list Stream :=
  filter (fun s => negb (String.eqb (id s) "main")) (streams db).

(** [UPDATE streams SET ... WHERE id = ?] *)
Definition update_rows (sid : string) (f : Stream -> Stream) (rows : list Stream)
  : list Stream :=
  map (fun s => if String.eqb (id s) sid then f s else s) rows.

(** The effect of a write statement that succeeds. *)
Definition apply_write (db : Db) (w : DbWrite) : Db :=
  match w with
  | WComplete sid =>
      mkDb (update_rows sid
              (fun s => mkStream (id s) (title s) (branch s) (worktreePath s)
                          completed now (Some now)) (streams db))
           (history db)
  | WUpdateStatus sid st =>
      mkDb (update_rows sid
              (fun s => mkStream (id s) (title s) (branch s) (worktreePath s)
                          st now (completedAt s)) (streams db))
           (history db)
  | WHistory ev => mkDb (streams db) (history db ++ [ev])
  end.

(** Statements run one after the other; the first that throws ends the
    sequence, and its message is returned. *)
Fixpoint run_writes (db : Db) (ws : list DbWrite) : Db * option string :=
  match ws with
  | [] => (db, None)
  | w :: ws' =>
      match db_fails w with
      | Some msg => (db, Some msg)
      | None => run_writes (apply_write db w) ws'
      end
  end.

Definition status_changed (s : Stream) (st : StreamStatus) : StreamHistoryEvent :=
  mkEvent (id s) "status_changed" (Some (status_text (status s)))
          (Some (status_text st)) now.

Definition push_active (r : ReconciliationResult) e :=
  let sm := summary r in
  mkResult (res_active r ++ [e]) (res_completed r) (res_stale r) (orphaned r)
    (errors r)
    (mkSummary (totalInDb sm) (totalWorktrees sm) (Z.succ (sum_active sm))
       (sum_completed sm) (sum_stale sm) (sum_orphaned sm) (sum_errors sm)).

Definition push_completed (r : ReconciliationResult) e :=
  let sm := summary r in
  mkResult (res_active r) (res_completed r ++ [e]) (res_stale r) (orphaned r)
    (errors r)
    (mkSummary (totalInDb sm) (totalWorktrees sm) (sum_active sm)
       (Z.succ (sum_completed sm)) (sum_stale sm) (sum_orphaned sm) (sum_errors sm)).

Definition push_stale (r : ReconciliationResult) e :=
  let sm := summary r in
  mkResult (res_active r) (res_completed r) (res_stale r ++ [e]) (orphaned r)
    (errors r)
    (mkSummary (totalInDb sm) (totalWorktrees sm) (sum_active sm)
       (sum_completed sm) (Z.succ (sum_stale sm)) (sum_orphaned sm) (sum_errors sm)).

Definition push_orphaned (r : ReconciliationResult) w :=
  let sm := summary r in
  mkResult (res_active r) (res_completed r) (res_stale r) (orphaned r ++ [w])
    (errors r)
    (mkSummary (totalInDb sm) (totalWorktrees sm) (sum_active sm)
       (sum_completed sm) (sum_stale sm) (Z.succ (sum_orphaned sm)) (sum_errors sm)).

(** The [catch] block of the loop body. *)
Definition push_error (r : ReconciliationResult) (sid : string) (err : option string) :=
  match err with
  | None => r
  | Some msg =>
      let sm := summary r in
      mkResult (res_active r) (res_completed r) (res_stale r) (orphaned r)
        (errors r ++ [(sid, msg)])
        (mkSummary (totalInDb sm) (totalWorktrees sm) (sum_active sm)
           (sum_completed sm) (sum_stale sm) (sum_orphaned sm) (Z.succ (sum_errors sm)))
  end.

Definition mk_entry (s : Stream) (ns : option StreamStatus) (why : string) :=
  mkEntry (id s) (title s) (branch s) (worktreePath s) (status s) ns why.

Definition LoopState := (ReconciliationResult * list string * Db)%type.

(** One iteration of [for (const stream of streams)]: the entry is pushed
    before the writes, so a write that throws leaves it in its bucket and
    adds an error. *)
Definition reconcile_stream (dryRun autoArchiveStale : bool)
    (worktrees : WorktreeMap) (mergedBranches : list string)
    (st : LoopState) (s : Stream) : LoopState :=
  let '(r, matched, db) := st in
  let worktree := map_get worktrees (id s) in
  let hasWorktree := defined worktree || fs_exists (worktreePath s) in
  let isMerged := set_has mergedBranches (branch s) in
  let matched' := if defined worktree then id s :: matched else matched in
  if isMerged then
    let r1 := push_completed r (mk_entry s (Some completed) "Branch merged to main") in
    let '(db', err) :=
      if negb dryRun && negb (StreamStatus_eqb (status s) completed)
      then run_writes db [WComplete (id s); WHistory (status_changed s completed)]
      else (db, None) in
    (push_error r1 (id s) err, matched', db')
  else if negb hasWorktree then
    let r1 := push_stale r (mk_entry s (if autoArchiveStale then Some archived else None)
                             "Worktree does not exist") in
    let '(db', err) :=
      if negb dryRun && autoArchiveStale && negb (StreamStatus_eqb (status s) archived)
      then run_writes db [WUpdateStatus (id s) archived;
                          WHistory (status_changed s archived)]
      else (db, None) in
    (push_error r1 (id s) err, matched', db')
  else
    let r1 := push_active r (mk_entry s None "Worktree exists and branch not merged") in
    let '(db', err) :=
      if negb dryRun && negb (StreamStatus_eqb (status s) active)
         && negb (StreamStatus_eqb (status s) blocked)
         && negb (StreamStatus_eqb (status s) paused)
      then run_writes db [WUpdateStatus (id s) active;
                          WHistory (status_changed s active)]
      else (db, None) in
    (push_error r1 (id s) err, matched', db').

(** [for (const [streamId, worktree] of worktrees)] *)
Definition collect_orphans (matched : list string) (worktrees : WorktreeMap)
    (r : ReconciliationResult) : ReconciliationResult :=
  fold_left (fun r '(k, w) =>
               if negb (set_has matched k) && negb (isMain w)
               then push_orphaned r w else r) worktrees r.

(** [reconcileWorktrees(db, projectRoot, options)], with the worktree map
    and the merged-branch set that [getWorktreeList] and
    [getMergedBranches] return for [projectRoot]. *)
Definition reconcileWorktrees (db : Db) (worktrees : WorktreeMap)
    (mergedBranches : list string) (options : ReconciliationOptions)
  : ReconciliationResult * Db :=
  let dryRun := match opt_dryRun options with Some b => b | None => true end in
  let autoArchiveStale :=
    match opt_autoArchiveStale options with Some b => b | None => false end in
  let strs := getAllStreams db in
  let result :=
    mkResult [] [] [] [] []
      (mkSummary (Z.of_nat (length strs)) (Z.of_nat (length worktrees) - 1)
         0 0 0 0 0) in
  let '(r, matched, db') :=
    fold_left (reconcile_stream dryRun autoArchiveStale worktrees mergedBranches)
      strs (result, ["main"], db) in
  (collect_orphans matched worktrees r, db').

(** The bucket the loop body chooses for a stream (its [if] / [else if] /
    [else] conditions). *)
Inductive Bucket := BCompleted | BStale | BActive.

Definition classify (worktrees : WorktreeMap) (mergedBranches : list string)
    (s : Stream) : Bucket :=
  if set_has mergedBranches (branch s) then BCompleted
  else if negb (defined (map_get worktrees (id s)) || fs_exists (worktreePath s))
  then BStale else BActive.

(** The statements the loop body issues for a stream. *)
Definition stream_writes (dryRun autoArchiveStale : bool) (worktrees : WorktreeMap)
    (mergedBranches : list string) (s : Stream) : list DbWrite :=
  match classify worktrees mergedBranches s with
  | BCompleted =>
      if negb dryRun && negb (StreamStatus_eqb (status s) completed)
      then [WComplete (id s); WHistory (status_changed s completed)] else []
  | BStale =>
      if negb dryRun && autoArchiveStale && negb (StreamStatus_eqb (status s) archived)
      then [WUpdateStatus (id s) archived; WHistory (status_changed s archived)]
      else []
  | BActive =>
      if negb dryRun && negb (StreamStatus_eqb (status s) active)
         && negb (StreamStatus_eqb (status s) blocked)
         && negb (StreamStatus_eqb (status s) paused)
      then [WUpdateStatus (id s) active; WHistory (status_changed s active)]
      else []
  end.

End Reconcile.

(* ------------------------------------------------------------------ *)
(** ** Strings as JS sees them (8-bit characters) *)

(** The characters [String.prototype.trim] removes and regex [\s]
    matches: TAB, LF, VT, FF, CR, SPACE and NO-BREAK SPACE. *)
Definition is_ws (c : ascii) : bool :=
  let n := nat_of_ascii c in
  (Nat.leb 9 n && Nat.leb n 13) || Nat.eqb n 32 || Nat.eqb n 160.

(** Regex [\d]. *)
Definition is_digit (c : ascii) : bool :=
  let n := nat_of_ascii c in Nat.leb 48 n && Nat.leb n 57.

Fixpoint trim_start (s : string) : string :=
  match s with
  | EmptyString => EmptyString
  | String c s' => if is_ws c then trim_start s' else s
  end.

Definition string_rev (s : string) : string :=
  string_of_list_ascii (rev (list_ascii_of_string s)).

(** [s.trim()] *)
Definition trim (s : string) : string :=
  string_rev (trim_start (string_rev (trim_start s))).

(** [s.split(c)] for a one-character separator: [''.split(c)] is [['']]. *)
Fixpoint split_on (c : ascii) (s : string) : list string :=
  match s with
  | EmptyString => [""]
  | String a s' =>
      if Ascii.eqb a c then "" :: split_on c s'
      else match split_on c s' with
           | [] => [String a ""]
           | x :: xs => String a x :: xs
           end
  end.

(** [s.includes(c)] for one character. *)
Fixpoint has_char (c : ascii) (s : string) : bool :=
  match s with
  | EmptyString => false
  | String a s' => Ascii.eqb a c || has_char c s'
  end.

(** [s.includes(t)] *)
Fixpoint includes (s t : string) : bool :=
  String.prefix t s ||
  match s with
  | EmptyString => false
  | String _ s' => includes s' t
  end.

(** Skips the longest run of characters satisfying [p]; [None] when the run
    is empty (a regex [p+] that does not match). Since [\d] and [\s] are
    disjoint, the greedy run is the only way the patterns below can match. *)
Fixpoint skip_run (p : ascii -> bool) (s : string) : string :=
  match s with
  | EmptyString => EmptyString
  | String c s' => if p c then skip_run p s' else s
  end.

Definition skip_run1 (p : ascii -> bool) (s : string) : option string :=
  match s with
  | String c s' => if p c then Some (skip_run p s') else None
  | EmptyString => None
  end.

(** [line.match(/^\d+\s+\d+\s+/)] *)
Definition numstat_line (l : string) : bool :=
  match skip_run1 is_digit l with
  | None => false
  | Some r1 =>
      match skip_run1 is_ws r1 with
      | None => false
      | Some r2 =>
          match skip_run1 is_digit r2 with
          | None => false
          | Some r3 => defined (skip_run1 is_ws r3)
          end
      end
  end.

(** [line.match(/^-\s+-\s+/)] *)
Definition binary_line (l : string) : bool :=
  match l with
  | String "-" r1 =>
      match skip_run1 is_ws r1 with
      | Some (String "-" r2) => defined (skip_run1 is_ws r2)
      | _ => false
      end
  | _ => false
  end.

(* ------------------------------------------------------------------ *)
(** ** Commits (scanners/git-commits.ts, database/queries/commits.ts) *)

Record Commit := mkCommit {
  c_streamId : string;
  c_commitHash : string;
  c_message : string;
  c_author : string;
  c_filesChanged : nat;
  c_timestamp : string
}.

Definition set_filesChanged (c : Commit) (n : nat) : Commit :=
  mkCommit (c_streamId c) (c_commitHash c) (c_message c) (c_author c) n
    (c_timestamp c).

Fixpoint update_nth {A} (f : A -> A) (i : nat) (l : list A) : list A :=
  match l, i with
  | [], _ => []
  | x :: l', 0 => f x :: l'
  | x :: l', S i' => x :: update_nth f i' l'
  end.

Definition dummy_commit : Commit := mkCommit "" "" "" "" 0 "".

(** The parser's local state. [currentCommit] is a JS object: [commits]
    holds references into the object store [heap], so that pushing the same
    object twice and assigning [filesChanged] later is seen through both
    entries. *)
Record ParseState := mkParse {
  p_commits : list nat;
  p_heap : list Commit;
  p_current : option nat;
  p_filesChanged : nat
}.

(** [currentCommit.filesChanged = filesChanged; commits.push(currentCommit)] *)
Definition flush (st : ParseState) : ParseState :=
  match p_current st with
  | Some ref =>
      mkParse (p_commits st ++ [ref])
        (update_nth (fun c => set_filesChanged c (p_filesChanged st)) ref (p_heap st))
        (p_current st) (p_filesChanged st)
  | None => st
  end.

Definition resolve (st : ParseState) : list Commit :=
  map (fun ref => nth ref (p_heap st) dummy_commit) (p_commits st).

(** A JS call that returns a value or throws an [Error] with a message. *)
Inductive Outcome (A : Type) :=
| Ok (a : A)
| Throw (msg : string).
Arguments Ok {A}.
Arguments Throw {A}.

Section Parse.

(** [new Date(s).toISOString()]: [None] when it throws (invalid date). *)
Variable to_iso : string -> option string.

(** One iteration of [for (const line of lines)] in [getWorktreeCommits];
    [None] when the iteration throws. *)
Definition parse_line (sid : string) (st : ParseState) (line : string)
  : option ParseState :=
  if has_char "|" line then
    let st1 := flush st in
    let parts := split_on "|" line in
    if Nat.leb 4 (length parts) then
      match to_iso (trim (nth 2 parts "")) with
      | None => None
      | Some ts =>
          let c := mkCommit sid (trim (nth 0 parts "")) (trim (nth 3 parts ""))
                     (trim (nth 1 parts "")) 0 ts in
          Some (mkParse (p_commits st1) (p_heap st1 ++ [c])
                  (Some (length (p_heap st1))) 0)
      end
    else Some st1
  else if numstat_line line || binary_line line then
    Some (mkParse (p_commits st) (p_heap st) (p_current st) (S (p_filesChanged st)))
  else Some st.

Fixpoint parse_lines (sid : string) (st : ParseState) (lines : list string)
  : option ParseState :=
  match lines with
  | [] => Some st
  | l :: ls =>
      match parse_line sid st l with
      | None => None
      | Some st' => parse_lines sid st' ls
      end
  end.

(** The body of [getWorktreeCommits] after [execSync] returned [output];
    [None] when it throws. *)
Definition parse_log (sid : string) (output : string) : option (list Commit) :=
  match parse_lines sid (mkParse [] [] None 0) (split_on "010"%char (trim output)) with
  | None => None
  | Some st => Some (resolve (flush st))
  end.

Variable fs_exists : string -> bool.
(** [execSync(git log ..., { cwd })]: [None] when git fails. *)
Variable git_log : string -> option string.

(** [getWorktreeCommits(stream)]: every exception yields [[]]. *)
Definition getWorktreeCommits (s : Stream) : list Commit :=
  if negb (fs_exists (worktreePath s)) then []
  else match git_log (worktreePath s) with
       | None => []
       | Some output =>
           match parse_log (id s) output with
           | None => []
           | Some cs => cs
           end
       end.

(** The UNIQUE (stream_id, commit_hash) key of a commit row. *)
Definition same_key (r c : Commit) : bool :=
  String.eqb (c_streamId r) (c_streamId c) && String.eqb (c_commitHash r) (c_commitHash c).

(** [insertCommit(db, commit)] on the [commits] table, whose only
    constraint a scanned commit can break is UNIQUE (stream_id, commit_hash);
    the table is a list of rows (the AUTOINCREMENT [id] left out). *)
Definition insertCommit (tbl : list Commit) (c : Commit) : Outcome (list Commit) :=
  if existsb (fun r => same_key r c) tbl
  then Throw "UNIQUE constraint failed: commits.stream_id, commits.commit_hash"
  else Ok (tbl ++ [c])%list.

(** The [for (const commit of commits)] loop with its [try]/[catch]. *)
Fixpoint insert_all (tbl : list Commit) (added : nat) (cs : list Commit)
  : Outcome nat * list Commit :=
  match cs with
  | [] => (Ok added, tbl)
  | c :: cs' =>
      match insertCommit tbl c with
      | Ok tbl' => insert_all tbl' (S added) cs'
      | Throw msg =>
          if negb (includes msg "UNIQUE") then (Throw msg, tbl)
          else insert_all tbl added cs'
      end
  end.

(** [scanStreamCommits(db, streamId)]: the returned count (or the error it
    throws) and the [commits] table afterwards. *)
Definition scanStreamCommits (db : Db) (tbl : list Commit) (sid : string)
  : Outcome nat * list Commit :=
  match find (fun s => String.eqb (id s) sid) (getAllStreams db) with
  | None => (Throw ("Stream not found: " ++ sid), tbl)
  | Some s => insert_all tbl 0 (getWorktreeCommits s)
  end.

End Parse.

(* ------------------------------------------------------------------ *)
(** ** Retirement (services/retirement-service.ts) *)

Record RetirementOptions := mkRetireOptions {
  ro_deleteWorktree : option bool;
  ro_cleanupPlanFiles : option bool;
  ro_writeArchive : option bool;
  ro_queueIntelligentSummary : option bool;
  ro_db : bool;                 (* [db] given *)
  ro_projectRoot : string;      (* [projectRoot], after its default *)
  ro_worktreeRoot : string      (* [worktreeRoot], after its default *)
}.

Record RetirementResult := mkRetireResult {
  success : bool;
  rr_streamId : string;
  worktreeDeleted : bool;
  archiveWritten : bool;
  planFilesCleanedUp : bool;
  summaryJobQueued : bool;
  rr_errors : list string
}.

(** The git commands [retireStream] awaits through simple-git. *)
Inductive GitOp :=
| GWorktreeRemove (p : string)
| GWorktreePrune
| GBranchDelete (b : string)
| GRmRecursive (p : string)
| GRm (p : string)
| GCommit (msg : string)
| GPush (remote br : string).

(** [path.join] on the segments the service uses. *)
Definition join (a b : string) : string := a ++ "/" ++ b.

Definition opt_default (o : option bool) (d : bool) : bool :=
  match o with Some b => b | None => d end.

Section Retire.

Variable fs_exists : string -> bool.
(** [Some msg] when the git command rejects with [msg]. *)
Variable git : GitOp -> option string.
(** [rmSync(p, { recursive: true, force: true })]: [Some msg] when it throws. *)
Variable rm_fails : string -> option string.
(** [writeArchiveReport(...)]: the archive path, or the message it rejects with. *)
Variable archive : Outcome string.
(** [queueSummaryJob(...)]: the job id, or the message it throws. *)
Variable queue_job : Outcome nat.

(** Awaits the commands in turn; the first rejection ends the block. *)
Fixpoint run_git (ops : list GitOp) : option string :=
  match ops with
  | [] => None
  | o :: os => match git o with Some m => Some m | None => run_git os end
  end.

(** Step 3: [Ok deleted], or the message of the error caught. *)
Definition delete_step (deleteWorktree : bool) (worktreePath br : string)
  : Outcome bool :=
  if deleteWorktree && fs_exists worktreePath then
    match git (GWorktreeRemove worktreePath) with
    | None => Ok true
    | Some _ =>
        match rm_fails worktreePath with
        | Some m => Throw m
        | None => match git GWorktreePrune with
                  | Some m => Throw m
                  | None => Ok true
                  end
        end
    end
    (* then [git.branch(['-d', br])], whose rejection is swallowed *)
  else if negb (fs_exists worktreePath) then Ok true
  else Ok false.

(** Step 4: the commands the plan-file cleanup awaits, in order. *)
Definition plan_ops (projectRoot sid : string) : list GitOp :=
  let planDir := join (join projectRoot ".project/plan/streams") sid in
  let planFile := join (join projectRoot ".project/plan/streams") (sid ++ ".md") in
  let cleaned := fs_exists planDir || fs_exists planFile in
  (if fs_exists planDir then [GRmRecursive planDir] else []) ++
  (if fs_exists planFile then [GRm planFile] else []) ++
  (if cleaned then [GCommit ("chore: Clean up " ++ sid ++ " planning files");
                    GPush "origin" "main"] else []).

(** The [try] block of [retireStream(stream, summary, options)], run once
    [simpleGit(projectRoot)] has returned. Every call in it that can throw
    sits in a [try] of its own, so the outer [catch] is not reached. *)
Definition retire_steps (s : Stream) (options : RetirementOptions)
  : RetirementResult :=
  let deleteWorktree := opt_default (ro_deleteWorktree options) true in
  let cleanupPlanFiles := opt_default (ro_cleanupPlanFiles options) true in
  let writeArchive := opt_default (ro_writeArchive options) true in
  let queueIntelligentSummary := opt_default (ro_queueIntelligentSummary options) true in
  let worktreePath := join (ro_worktreeRoot options) (id s) in
  (* step 1: archive report *)
  let '(archivePath, archiveWritten, errs1) :=
    if writeArchive then
      match archive with
      | Ok p => (Some p, true, [])
      | Throw m => (None, false, ["Archive write failed: " ++ m])
      end
    else (None, false, []) in
  (* step 2: summary job *)
  let '(summaryJobQueued, errs2) :=
    if queueIntelligentSummary && ro_db options && defined archivePath then
      match queue_job with
      | Ok _ => (true, errs1)
      | Throw m => (false, (app errs1 ["Failed to queue summary job: " ++ m]))
      end
    else (false, errs1) in
  (* step 3: worktree *)
  let '(worktreeDeleted, errs3) :=
    match delete_step deleteWorktree worktreePath (branch s) with
    | Ok d => (d, errs2)
    | Throw m => (false, (app errs2 ["Worktree deletion failed: " ++ m]))
    end in
  (* step 4: planning files *)
  let '(planFilesCleanedUp, errs4) :=
    if cleanupPlanFiles then
      match run_git (plan_ops (ro_projectRoot options) (id s)) with
      | None => (true, errs3)
      | Some m => (false, (app errs3 ["Plan files cleanup failed: " ++ m]))
      end
    else (false, errs3) in
  mkRetireResult (Nat.eqb (length errs4) 0) (id s) worktreeDeleted archiveWritten
    planFilesCleanedUp summaryJobQueued errs4.

(** [simpleGit(projectRoot)]: [Some msg] when it throws, as it does with
    a [GitConstructError] for a directory that does not exist. *)
Variable simpleGit_fails : string -> option string.

(** [retireStream(stream, summary, options)]. [const git = simpleGit(projectRoot)]
    comes before the [try], so its error rejects the returned promise. *)
Definition retireStream (s : Stream) (options : RetirementOptions)
  : Outcome RetirementResult :=
  match simpleGit_fails (ro_projectRoot options) with
  | Some m => Throw m
  | None => Ok (retire_steps s options)
  end.

End Retire.

(* ------------------------------------------------------------------ *)
(** ** Views used by the proofs *)

(** The buckets and counters of a result, without the [errors] list and
    its counter. *)
Definition classification (r : ReconciliationResult) :=
  (res_active r, res_completed r, res_stale r, orphaned r,
   (totalInDb (summary r), totalWorktrees (summary r), sum_active (summary r),
    sum_completed (summary r), sum_stale (summary r), sum_orphaned (summary r))).

(** The rows and history events of one stream id. *)
Definition rows_of (k : string) (db : Db) : list Stream :=
  filter (fun s => String.eqb (id s) k) (streams db).

Definition hist_of (k : string) (db : Db) : list StreamHistoryEvent :=
  filter (fun e => String.eqb (h_streamId e) k) (history db).

Definition restrict (k : string) (db : Db) : Db := mkDb (rows_of k db) (hist_of k db).

(** The stream id a write statement touches. *)
Definition write_key (w : DbWrite) : string :=
  match w with
  | WComplete sid => sid
  | WUpdateStatus sid _ => sid
  | WHistory ev => h_streamId ev
  end.

Definition WorktreeInfo_eq_dec (a b : WorktreeInfo) : {a = b} + {a <> b}.
Proof. decide equality; first [apply bool_dec | apply string_dec]. Defined.

(** Case analysis on the conditions and outcomes of a straight-line body. *)
Ltac split_branches :=
  repeat match goal with
  | |- context [if ?b then _ else _] => destruct b eqn:?
  | |- context [match ?x with Ok _ => _ | Throw _ => _ end] => destruct x eqn:?
  | |- context [match ?x with Some _ => _ | None => _ end] => destruct x eqn:?
  end.

(** Sample inputs of the witnesses and counterexamples. *)
Definition retire_sample_stream : Stream :=
  mkStream "s7" "Retire me" "feature/s7" "/repo/../.worktrees/s7" completed
    "2024-01-01" None.

Definition retire_sample_options : RetirementOptions :=
  mkRetireOptions (Some false) None None None false "/repo" "/repo/../.worktrees".

Definition tab : string := String "009"%char "".
Definition nl : string := String "010"%char "".

Definition log_pipe_in_path : string :=
  "abc123|Ann|2024-01-01T00:00:00Z|Add files|" ++ nl ++ nl ++
  "1" ++ tab ++ "0" ++ tab ++ "docs/a|b.md" ++ nl ++
  "2" ++ tab ++ "1" ++ tab ++ "src/c.ts".

Definition scan_sample_db : Db :=
  mkDb [mkStream "s1" "Scanner" "feature/s1" "/wt/s1" active "2024-01-01" None] [].

(** Destructs the write blocks of a loop body and the [catch] outcomes. *)
Ltac split_writes :=
  repeat match goal with
  | |- context [let '(_, _) := ?x in _] => destruct x
  | |- context [push_error _ _ ?e] => is_var e; destruct e
  end.

Ltac same_classification :=
  match goal with
  | H : classification ?r1 = classification ?r2 |- _ =>
      destruct r1 as [? ? ? ? ? [? ? ? ? ? ? ?]];
      destruct r2 as [? ? ? ? ? [? ? ? ? ? ? ?]];
      unfold classification in H; simpl in H; injection H as <- <- <- <- <- <- <- <- <- <-
  end.

Definition err_view (r : ReconciliationResult) := (errors r, sum_errors (summary r)).

Definition rec_sample_db : Db :=
  mkDb [mkStream "s1" "Merged work" "feature/s1" "/wt/s1" active "t0" None;
        mkStream "s2" "Lost work" "feature/s2" "/wt/s2" paused "t0" None;
        mkStream "s3" "Live work" "feature/s3" "/wt/s3" initializing "t0" None] [].

Definition rec_sample_worktrees : WorktreeMap :=
  [("main", mkWorktree "/repo" "main" "h0" true);
   ("s1", mkWorktree "/wt/s1" "feature/s1" "h1" false);
   ("s3", mkWorktree "/wt/s3" "feature/s3" "h3" false);
   ("spike", mkWorktree "/wt/spike" "spike" "h4" false)].

(** The claim's condition on a worktree entry: its key is not the 'main'
    sentinel nor the id of a stream [getAllStreams] returns, and it is not
    tagged [isMain]. *)
Definition orphan_entry (strs : list Stream) (kw : string * WorktreeInfo) : bool :=
  let '(k, w) := kw in
  negb (String.eqb k "main") && negb (existsb (fun s => String.eqb (id s) k) strs)
  && negb (isMain w).

(** The bucket list of a result, and the entry the loop body pushes there. *)
Definition bucket (b : Bucket) (r : ReconciliationResult) :=
  match b with
  | BCompleted => res_completed r
  | BStale => res_stale r
  | BActive => res_active r
  end.

Definition entry_for (autoArchiveStale : bool) (b : Bucket) (s : Stream) :=
  match b with
  | BCompleted => mk_entry s (Some completed) "Branch merged to main"
  | BStale => mk_entry s (if autoArchiveStale then Some archived else None)
                "Worktree does not exist"
  | BActive => mk_entry s None "Worktree exists and branch not merged"
  end.

Definition stale_sample_db : Db :=
  mkDb [mkStream "s2" "Lost work" "feature/s2" "/wt/s2" paused "t0" None]
       [mkEvent "s2" "created" None (Some "initializing") "t0"].

Definition merged_sample_stream : Stream :=
  mkStream "s1" "Merged work" "feature/s1" "/wt/s1" active "t0" None.

Definition merged_sample_db : Db := mkDb [merged_sample_stream] [].

(** The worktree of the merged stream is still in the map and on disk. *)
Definition merged_sample_worktrees : WorktreeMap :=
  [("main", mkWorktree "/repo" "main" "h0" true);
   ("s1", mkWorktree "/wt/s1" "feature/s1" "h1" false)].

Definition archived_sample_db : Db :=
  mkDb [mkStream "s4" "Old work" "feature/s4" "/wt/s4" archived "t0" None] [].


(* ------------------------------------------------------------------ *)
(** ** Reconciliation: buckets, rows and history (reconcileWorktrees) *)

(** The stream ids of the three buckets of a result. *)
Definition bucket_ids (r : ReconciliationResult) : list string :=
  map streamId (res_completed r ++ res_stale r ++ res_active r).

(** Each counter of the summary is the length of its list. *)
Definition counters_ok (r : ReconciliationResult) : Prop :=
  sum_active (summary r) = Z.of_nat (length (res_active r)) /\
  sum_completed (summary r) = Z.of_nat (length (res_completed r)) /\
  sum_stale (summary r) = Z.of_nat (length (res_stale r)) /\
  sum_orphaned (summary r) = Z.of_nat (length (orphaned r)) /\
  sum_errors (summary r) = Z.of_nat (length (errors r)).

(** The columns a reconciliation never writes, row by row. *)
Definition row_keys (db : Db) : list (string * string * string * string) :=
  map (fun s => (id s, title s, branch s, worktreePath s)) (streams db).

(** The events a reconciliation may append for the streams [l]. *)
Definition reconcile_event (now : string) (l : list Stream) (ev : StreamHistoryEvent) : Prop :=
  eventType ev = "status_changed" /\ oldValue ev <> newValue ev /\
  In (newValue ev) [Some "completed"; Some "active"; Some "archived"] /\
  In (h_streamId ev) (map id l) /\ timestamp ev = now.

(* ------------------------------------------------------------------ *)
(** ** Merged branches (getMergedBranches) *)

(** [s] ends with a character that [trim] keeps. *)
Definition ends_nonws (s : string) : bool :=
  match string_rev s with String c _ => negb (is_ws c) | EmptyString => false end.

(** [s] holds a character that [trim] keeps. *)
Fixpoint has_nonws (s : string) : bool :=
  match s with EmptyString => false | String c s' => negb (is_ws c) || has_nonws s' end.

(* definitions: getMergedBranches *)

(** [line.trim().replace(/^\*\s*/, '')]: the regex is anchored, so only a
    leading '*' and the blanks after it go. *)
Definition strip_star (s : string) : string :=
  match s with
  | String "*" s' => skip_run is_ws s'
  | _ => s
  end.

(** [set.add(x)] on a JS [Set]: kept in insertion order, each value once. *)
Definition set_add (s : list string) (x : string) : list string :=
  if set_has s x then s else (s ++ [x])%list.

(** One iteration of [for (const line of lines)] in [getMergedBranches]. *)
Definition merged_line (merged : list string) (line : string) : list string :=
  let b := strip_star (trim line) in
  if negb (String.eqb b "") && negb (String.eqb b "main") && negb (String.eqb b "master")
  then set_add merged b else merged.

(** [getMergedBranches(projectRoot)], given what [execSync('git branch
    --merged main')] returns ([None] when it throws). *)
Definition getMergedBranches (git_out : option string) : list string :=
  match git_out with
  | None => []
  | Some output => fold_left merged_line (split_on "010" (trim output)) []
  end.

Definition merged_name_ok (b : string) : Prop := b <> "" /\ b <> "main" /\ b <> "master".

(** The way [git branch] prints a branch: two blanks, or '* ' for the
    checked-out branch, or '+ ' for a branch checked out in another
    worktree. *)
Inductive BranchMark := MPlain | MCurrent | MWorktree.

Definition mark_text (m : BranchMark) : string :=
  match m with MPlain => "  " | MCurrent => "* " | MWorktree => "+ " end.

Definition branch_line (mb : BranchMark * string) : string := mark_text (fst mb) ++ snd mb.

Fixpoint no_ws (s : string) : bool :=
  match s with EmptyString => true | String c s' => negb (is_ws c) && no_ws s' end.

(** A branch name as git allows it: not empty, no blank, no '*'. *)
Definition branch_name_ok (b : string) : Prop :=
  b <> "" /\ no_ws b = true /\ has_char "*" b = false.

(** The name [getMergedBranches] keeps for a printed branch. *)
Definition listed_name (mb : BranchMark * string) : string :=
  match fst mb with MWorktree => "+ " ++ snd mb | _ => snd mb end.

(* ------------------------------------------------------------------ *)
(** ** Worktree list (getWorktreeList) *)

(* definitions: getWorktreeList *)

(** [s.substring(n)] *)
Definition substr_from (n : nat) (s : string) : string := substring n (String.length s) s.

(** [s.replace(pat, rep)] with a string pattern: the first occurrence only. *)
Fixpoint replace_first (pat rep s : string) : string :=
  if String.prefix pat s then rep ++ substr_from (String.length pat) s
  else match s with
       | EmptyString => EmptyString
       | String c s' => String c (replace_first pat rep s')
       end.

Definition cons_head (c : ascii) (l : list string) : list string :=
  match l with [] => [String c ""] | x :: xs => String c x :: xs end.

(** [s.split('\n\n')]: occurrences are taken left to right, without
    overlap. *)
Fixpoint split_nn (s : string) : list string :=
  match s with
  | EmptyString => [""]
  | String a s' =>
      match s' with
      | String b s'' =>
          if Ascii.eqb a "010" && Ascii.eqb b "010" then "" :: split_nn s''
          else cons_head a (split_nn s')
      | EmptyString => [String a ""]
      end
  end.

(** [path.basename(p)] (POSIX): trailing slashes are ignored, then the
    text after the last slash. *)
Definition basename (p : string) : string :=
  last (split_on "/" (string_rev (skip_run (fun c => Ascii.eqb c "/") (string_rev p)))) "".

(** [map.set(k, v)] on a JS [Map]: an existing key keeps its position. *)
Fixpoint map_set (m : WorktreeMap) (k : string) (v : WorktreeInfo) : WorktreeMap :=
  match m with
  | [] => [(k, v)]
  | (k', v') :: m' => if String.eqb k k' then (k', v) :: m' else (k', v') :: map_set m' k v
  end.

(** One iteration of [for (const line of lines)]: the [path], [commitHash]
    and [branch] variables. *)
Definition wt_line (acc : string * string * string) (line : string) :=
  let '(p, h, b) := acc in
  if String.prefix "worktree " line then (substr_from 9 line, h, b)
  else if String.prefix "HEAD " line then (p, substr_from 5 line, b)
  else if String.prefix "branch " line
  then (p, h, replace_first "refs/heads/" "" (substr_from 7 line))
  else acc.

(** The key and value an entry of the porcelain output sets, if any. *)
Definition entry_info (entry : string) : option (string * WorktreeInfo) :=
  let '(p, h, b) := fold_left wt_line (split_on "010" (trim entry)) ("", "", "") in
  if negb (String.eqb p "") && negb (String.eqb b "") then
    let isMain := String.eqb b "main" || String.eqb b "master" in
    Some (if isMain then "main" else basename p, mkWorktree p b h isMain)
  else None.

(** One iteration of [for (const entry of entries)]. *)
Definition wt_set (m : WorktreeMap) (entry : string) : WorktreeMap :=
  match entry_info entry with
  | Some (k, v) => map_set m k v
  | None => m
  end.

(** [getWorktreeList(projectRoot)], given what [execSync('git worktree
    list --porcelain')] returns ([None] when it throws). *)
Definition getWorktreeList (git_out : option string) : WorktreeMap :=
  match git_out with
  | None => []
  | Some output => fold_left wt_set (split_nn (trim output)) []
  end.

(** The value [getWorktreeList] keeps for a worktree. *)
Definition worktree_entry_ok (kw : string * WorktreeInfo) : Prop :=
  let '(k, w) := kw in
  path w <> "" /\ wt_branch w <> "" /\
  isMain w = (String.eqb (wt_branch w) "main" || String.eqb (wt_branch w) "master") /\
  k = (if isMain w then "main" else basename (path w)).

(** The (key, value) pairs the entries of the output set, in order. *)
Definition entry_sets (e : string) : list (string * WorktreeInfo) :=
  match entry_info e with Some kv => [kv] | None => [] end.

(* ------------------------------------------------------------------ *)
(** ** Commit logs as git prints them (getWorktreeCommits) *)

(** One commit as [git log --pretty=format:"%H|%an|%aI|%s|" --numstat]
    prints it: the header line, then the lines after it (a blank line and
    the numstat lines). *)
Record LogEntry := mkLogEntry {
  le_hash : string;
  le_author : string;
  le_date : string;
  le_subject : string;
  le_lines : list string
}.

Definition log_header (e : LogEntry) : string :=
  le_hash e ++ "|" ++ le_author e ++ "|" ++ le_date e ++ "|" ++ le_subject e ++ "|".

Definition log_block (e : LogEntry) : list string := log_header e :: le_lines e.

Definition render_log (es : list LogEntry) : string :=
  String.concat nl (flat_map log_block es).

(** The lines [getWorktreeCommits] counts as changed files. *)
Definition numstat_count (ls : list string) : nat :=
  length (filter (fun l => numstat_line l || binary_line l) ls).

Definition expected_commit (to_iso : string -> option string) (sid : string) (e : LogEntry)
  : Commit :=
  mkCommit sid (trim (le_hash e)) (trim (le_subject e)) (trim (le_author e))
    (numstat_count (le_lines e))
    (match to_iso (trim (le_date e)) with Some ts => ts | None => "" end).

Definition field_ok (f : string) : Prop := has_char "|" f = false /\ has_char "010" f = false.

(** No field of the header and no following line holds a '|' or a
    newline, and the date parses. *)
Definition log_entry_ok (to_iso : string -> option string) (e : LogEntry) : Prop :=
  Forall field_ok [le_hash e; le_author e; le_date e; le_subject e] /\
  Forall field_ok (le_lines e) /\
  to_iso (trim (le_date e)) <> None.

Fixpoint all_ws (s : string) : bool :=
  match s with EmptyString => true | String c s' => is_ws c && all_ws s' end.

Section LogRoundTripDefs.

Variable to_iso : string -> option string.
Variable sid : string.

Definition exp0 (e : LogEntry) : Commit := set_filesChanged (expected_commit to_iso sid e) 0.

(** The parser state after the header of [cur] and its lines, the commits
    [done] before it being pushed. *)
Definition inv_state (done : list LogEntry) (cur : LogEntry) : ParseState :=
  mkParse (seq 0 (length done)) (map (expected_commit to_iso sid) done ++ [exp0 cur])
    (Some (length done)) (numstat_count (le_lines cur)).

End LogRoundTripDefs.

Definition set_hash (e : LogEntry) (h : string) : LogEntry :=
  mkLogEntry h (le_author e) (le_date e) (le_subject e) (le_lines e).

Definition sample_log : list LogEntry :=
  [mkLogEntry "abc123" "Ann" "2024-01-01T00:00:00Z" "Fix parser"
     [""; "3" ++ tab ++ "1" ++ tab ++ "src/a.ts"; "-" ++ tab ++ "-" ++ tab ++ "logo.png"];
   mkLogEntry "def456" "Bob" "2024-01-02T00:00:00Z" "Add docs"
     [""; "10" ++ tab ++ "0" ++ tab ++ "README.md"]].

Definition sample_stream : Stream :=
  mkStream "s1" "Parser" "feature/parser" "/w/s1" active "2024-01-02T00:00:00Z" None.

(* ------------------------------------------------------------------ *)
(** ** Commit scan (getMainBranchCommits, insertCommit, scanAllWorktreeCommits) *)

(** [getMainBranchCommits(projectRoot)]: the same loop as
    [getWorktreeCommits], run on [git log main] with stream id 'main';
    every exception yields [[]]. *)
Definition getMainBranchCommits (to_iso : string -> option string)
    (git_main : string -> option string) (projectRoot : string) : list Commit :=
  match git_main projectRoot with
  | None => []
  | Some output =>
      match parse_log to_iso "main" output with
      | None => []
      | Some cs => cs
      end
  end.

(** [insertCommit] with both constraints of the [commits] table: the
    UNIQUE (stream_id, commit_hash) key is checked while the row is
    inserted, the foreign key to [streams(id)] at the end of the statement. *)
Definition insertCommit_fk (rows : list Stream) (tbl : list Commit) (c : Commit)
  : Outcome (list Commit) :=
  match insertCommit tbl c with
  | Ok tbl' =>
      if existsb (fun s => String.eqb (id s) (c_streamId c)) rows then Ok tbl'
      else Throw "FOREIGN KEY constraint failed"
  | Throw msg => Throw msg
  end.

(** The [for (const commit of ...)] loops of [scanAllWorktreeCommits]:
    [commitsAdded++] after an insert, [errors++] on an error that is not
    a UNIQUE violation. *)
Fixpoint scan_inserts (rows : list Stream) (tbl : list Commit) (added errs : nat)
    (cs : list Commit) : nat * nat * list Commit :=
  match cs with
  | [] => (added, errs, tbl)
  | c :: cs' =>
      match insertCommit_fk rows tbl c with
      | Ok tbl' => scan_inserts rows tbl' (S added) errs cs'
      | Throw msg =>
          scan_inserts rows tbl added
            (if negb (includes msg "UNIQUE") then S errs else errs) cs'
      end
  end.

(** The row [scanAllWorktreeCommits] inserts for the main branch. *)
Definition main_row (projectRoot now : string) : Stream :=
  mkStream "main" "Main Branch" "main" projectRoot active now None.

Record ScanResult := mkScan {
  scanned : nat;
  commitsAdded : nat;
  scan_errors : nat
}.

(** The state [scanAllWorktreeCommits] changes: the streams and history
    tables, the commits table, and the [updateLastFileChange(db, id, time)]
    calls it makes, in order (that query is not part of the sources). *)
Record ScanState := mkScanState {
  ss_db : Db;
  ss_commits : list Commit;
  ss_lastChange : list (string * string)
}.

Section ScanAll.

Variable to_iso : string -> option string.
Variable fs_exists : string -> bool.
(** [git log main..HEAD] in a worktree, [git log main] in the project root. *)
Variable git_log : string -> option string.
Variable git_main : string -> option string.
(** [getLastFileModificationTime(path)], as the ISO string of its result. *)
Variable last_mod : string -> option string.
Variable now : string.
(** Whether the INSERT of the 'main' row throws. *)
Variable main_fails : bool.

Definition ensure_main (db : Db) (projectRoot : string) : Db :=
  if existsb (fun s => String.eqb (id s) "main") (streams db) then db
  else if main_fails then db
  else mkDb (streams db ++ [main_row projectRoot now])%list (history db).

(** One iteration of [for (const stream of streams)]. *)
Definition scan_stream (rows : list Stream)
    (acc : ScanResult * list Commit * list (string * string)) (s : Stream)
  : ScanResult * list Commit * list (string * string) :=
  let '(r, tbl, lc) := acc in
  let '(added, errs, tbl') :=
    scan_inserts rows tbl (commitsAdded r) (scan_errors r)
      (getWorktreeCommits to_iso fs_exists git_log s) in
  (mkScan (S (scanned r)) added errs, tbl',
   match last_mod (worktreePath s) with
   | Some t => (lc ++ [(id s, t)])%list
   | None => lc
   end).

Definition scanAllWorktreeCommits (st : ScanState) (projectRoot : string)
  : ScanResult * ScanState :=
  let strs := getAllStreams (ss_db st) in
  let db1 := ensure_main (ss_db st) projectRoot in
  let '(added, errs, tbl1) :=
    scan_inserts (streams db1) (ss_commits st) 0 0
      (getMainBranchCommits to_iso git_main projectRoot) in
  let '(r, tbl2, lc) :=
    fold_left (scan_stream (streams db1)) strs
      (mkScan 0 added errs, tbl1, ss_lastChange st) in
  (r, mkScanState db1 tbl2 lc).

End ScanAll.

(** The parser's references all point into its object store, and every
    object there carries the stream id. *)
Definition parse_inv (sid : string) (st : ParseState) : Prop :=
  Forall (fun c => c_streamId c = sid) (p_heap st) /\
  Forall (fun r => r < length (p_heap st)) (p_commits st) /\
  (forall r, p_current st = Some r -> r < length (p_heap st)).

Definition commit_key (c : Commit) : string * string := (c_streamId c, c_commitHash c).

(** No two rows of the commits table share the UNIQUE key. *)
Definition keys_unique (tbl : list Commit) : Prop := NoDup (map commit_key tbl).

Definition fk_ok (rows : list Stream) (c : Commit) : bool :=
  existsb (fun s => String.eqb (id s) (c_streamId c)) rows.

(** A commit the table already holds, or one whose stream row is missing:
    inserting it again changes nothing. *)
Definition covered (rows : list Stream) (tbl : list Commit) (c : Commit) : Prop :=
  existsb (fun r => same_key r c) tbl = true \/ fk_ok rows c = false.

(* ------------------------------------------------------------------ *)
(** ** Reconciliation routes (GET /status, POST /run) *)

(** A value of a parsed JSON request body. *)
Inductive JsonValue :=
| JNull
| JBool (b : bool)
| JNum (n : Z)
| JStr (s : string)
| JArr     (* an array; its elements are not read *)
| JObj.    (* an object; its fields are not read *)

(** JavaScript truthiness of a JSON value. *)
Definition truthy (v : JsonValue) : bool :=
  match v with
  | JNull => false
  | JBool b => b
  | JNum n => negb (Z.eqb n 0)
  | JStr s => negb (String.eqb s "")
  | JArr | JObj => true
  end.

(** A destructuring default [{ x = d } = obj]: [d] only when [x] is absent. *)
Definition js_default (o : option JsonValue) (d : JsonValue) : JsonValue :=
  match o with Some v => v | None => d end.

(** The fields of [req.body] the reconciliation routes read; an absent
    field is [None]. *)
Record RunBody := mkRunBody {
  rb_dryRun : option JsonValue;
  rb_autoArchiveStale : option JsonValue
}.

Inductive RouteResponse (A : Type) :=
| Json200 (a : A)
| Json500 (error details : string).

Arguments Json200 {A}.

Arguments Json500 {A}.

Section ReconciliationRoutes.

Variable fs_exists : string -> bool.
Variable now : string.
Variable db_fails : DbWrite -> option string.
(** [git worktree list --porcelain] and [git branch --merged main] in
    [config.projectRoot]: [None] when the command throws. *)
Variable git_worktrees git_merged : option string.
(** [new Date().toISOString()] of the response. *)
Variable ts : string.

(** [reconcileWorktrees(db, projectRoot, options)]: the worktree map and
    the merged set it reads, then the reconciliation. *)
Definition reconcileWorktrees_at (db : Db) (options : ReconciliationOptions)
  : ReconciliationResult * Db :=
  reconcileWorktrees fs_exists now db_fails db (getWorktreeList git_worktrees)
    (getMergedBranches git_merged) options.

(** [GET /status]: the response's [timestamp], [dryRun] and the result. *)
Definition route_status (db : Db)
  : RouteResponse (string * bool * ReconciliationResult) * Db :=
  let '(r, db') := reconcileWorktrees_at db (mkOptions (Some true) None) in
  (Json200 (ts, true, r), db').

(** [POST /run]; [None] for an undefined [req.body], whose destructuring
    throws. *)
Definition route_run (body : option RunBody)
    (db : Db) : RouteResponse (string * JsonValue * JsonValue * ReconciliationResult) * Db :=
  match body with
  | None =>
      (Json500 "Failed to run reconciliation"
         "Cannot destructure property 'dryRun' of 'req.body' as it is undefined.", db)
  | Some b =>
      let dryRun := js_default (rb_dryRun b) (JBool true) in
      let autoArchiveStale := js_default (rb_autoArchiveStale b) (JBool false) in
      let '(r, db') :=
        reconcileWorktrees_at db
          (mkOptions (Some (truthy dryRun)) (Some (truthy autoArchiveStale))) in
      (Json200 (ts, dryRun, autoArchiveStale, r), db')
  end.

End ReconciliationRoutes.

(** Whether [POST /run] runs with writes: [dryRun] given and falsy. *)
Definition run_writes_enabled (body : option RunBody) : bool :=
  match body with
  | Some b => match rb_dryRun b with Some v => negb (truthy v) | None => false end
  | None => false
  end.

(* ------------------------------------------------------------------ *)
(** ** Archive routes (POST /:id/archive, POST /archive-bulk) *)

(** The statements the archive routes run: [addHistoryEvent] and the three
    DELETEs of [deleteStream]. *)
Inductive ArchiveWrite :=
| AWHistory (ev : StreamHistoryEvent)
| AWDeleteCommits (sid : string)
| AWDeleteHistory (sid : string)
| AWDeleteStream (sid : string).

(** The streams and history tables with the commits table. *)
Record Store := mkStore {
  st_db : Db;
  st_commits : list Commit
}.

(** The effect of a statement that succeeds. *)
Definition apply_archive_write (st : Store) (w : ArchiveWrite) : Store :=
  let db := st_db st in
  match w with
  | AWHistory ev => mkStore (mkDb (streams db) (history db ++ [ev])%list) (st_commits st)
  | AWDeleteCommits sid =>
      mkStore db (filter (fun c => negb (String.eqb (c_streamId c) sid)) (st_commits st))
  | AWDeleteHistory sid =>
      mkStore (mkDb (streams db)
                 (filter (fun e => negb (String.eqb (h_streamId e) sid)) (history db)))
              (st_commits st)
  | AWDeleteStream sid =>
      mkStore (mkDb (filter (fun s => negb (String.eqb (id s) sid)) (streams db)) (history db))
              (st_commits st)
  end.

Section ArchiveRoutes.

(** [Some msg] when the statement throws an error with message [msg]. *)
Variable aw_fails : ArchiveWrite -> option string.

Fixpoint run_archive_writes (st : Store) (ws : list ArchiveWrite) : Store * option string :=
  match ws with
  | [] => (st, None)
  | w :: ws' =>
      match aw_fails w with
      | Some msg => (st, Some msg)
      | None => run_archive_writes (apply_archive_write st w) ws'
      end
  end.

(** [getStream(db, id)]: [SELECT * FROM streams WHERE id = ?]. *)
Definition getStream (db : Db) (sid : string) : option Stream :=
  find (fun s => String.eqb (id s) sid) (streams db).

(** The [addHistoryEvent] and [deleteStream] calls after a retirement. *)
Definition retire_writes (sid : string) (ts : string) : list ArchiveWrite :=
  [AWHistory (mkEvent sid "completed" (Some (status_text completed))
                (Some "retired and deleted from database") ts);
   AWDeleteCommits sid; AWDeleteHistory sid; AWDeleteStream sid].

Variable fs_exists : string -> bool.
Variable git : GitOp -> option string.
Variable rm_fails : string -> option string.
Variable archive : Outcome string.
Variable queue_job : Outcome nat.
Variable simpleGit_fails : string -> option string.
(** [config.projectRoot] and [config.worktreeRoot] (after its default). *)
Variable projectRoot worktreeRoot : string.
(** [new Date().toISOString()] of the history event. *)
Variable ts : string.

(** The fields of [req.body || {}] the archive routes read; [summary] only
    reaches the archive report and the summary job. *)
Record ArchiveBody := mkArchiveBody {
  ab_deleteWorktree : option JsonValue;
  ab_cleanupPlanFiles : option JsonValue
}.

Definition retire_options (b : ArchiveBody) : RetirementOptions :=
  mkRetireOptions (Some (truthy (js_default (ab_deleteWorktree b) (JBool true))))
    (Some (truthy (js_default (ab_cleanupPlanFiles b) (JBool true))))
    None (Some true) true projectRoot worktreeRoot.

Inductive ArchiveResponse :=
| A404                                  (* 'Stream not found' *)
| A400 (current : StreamStatus)         (* 'Cannot retire stream' *)
| A200 (rr : RetirementResult)          (* deleted: true, with the retirement fields *)
| A500 (details : string).              (* 'Failed to retire stream' *)

(** [POST /:id/archive]. *)
Definition archive_route (st : Store) (sid : string) (body : ArchiveBody)
  : ArchiveResponse * Store :=
  match getStream (st_db st) sid with
  | None => (A404, st)
  | Some s =>
      if negb (StreamStatus_eqb (status s) completed) then (A400 (status s), st)
      else
        match retireStream fs_exists git rm_fails archive queue_job simpleGit_fails s
                (retire_options body) with
        | Throw msg => (A500 msg, st)
        | Ok rr =>
            match run_archive_writes st (retire_writes sid ts) with
            | (st', None) => (A200 rr, st')
            | (st', Some msg) => (A500 msg, st')
            end
        end
  end.

(** One entry of [results] in [POST /archive-bulk]. *)
Record BulkResult := mkBulkResult {
  br_streamId : string;
  br_success : bool;
  br_deleted : bool;
  br_error : option string;
  br_retirement : option (bool * bool * bool)
}.

(** [retirementResult.errors.join('; ')] *)
Definition join_errors (es : list string) : string := String.concat "; " es.

(** One iteration of [for (const streamId of streamIds)]. *)
Definition bulk_step (b : ArchiveBody) (acc : list BulkResult * Store) (sid : string)
  : list BulkResult * Store :=
  let '(results, st) := acc in
  match getStream (st_db st) sid with
  | None => (app results [mkBulkResult sid false false (Some "Not found") None], st)
  | Some s =>
      if StreamStatus_eqb (status s) archived then
        (app results [mkBulkResult sid true false (Some "Already retired") None], st)
      else if negb (StreamStatus_eqb (status s) completed) then
        (app results [mkBulkResult sid false false
                        (Some ("Cannot retire: status is '" ++ status_text (status s)
                               ++ "', must be 'completed'")) None], st)
      else
        match retireStream fs_exists git rm_fails archive queue_job simpleGit_fails s
                (retire_options b) with
        | Throw msg => (app results [mkBulkResult sid false false (Some msg) None], st)
        | Ok rr =>
            match run_archive_writes st (retire_writes sid ts) with
            | (st', None) =>
                (app results [mkBulkResult sid (success rr) true
                                (if Nat.ltb 0 (length (rr_errors rr))
                                 then Some (join_errors (rr_errors rr)) else None)
                                (Some (worktreeDeleted rr, archiveWritten rr,
                                       planFilesCleanedUp rr))], st')
            | (st', Some msg) =>
                (app results [mkBulkResult sid false false (Some msg) None], st')
            end
        end
  end.

(** The body of [POST /archive-bulk]: [streamIds] is [None] when it is not
    an array (its elements taken as strings). *)
Record BulkBody := mkBulkBody {
  bb_streamIds : option (list string);
  bb_options : ArchiveBody
}.

Inductive BulkResponse :=
| B400                                  (* 'streamIds must be a non-empty array' *)
| B200 (ok : bool) (successCount failCount : nat) (results : list BulkResult)
| B500 (details : string).

(** [POST /archive-bulk]; the message is
    [`Retired ${successCount} streams, ${failCount} failed`]. A [None] body
    is an undefined [req.body], whose destructuring throws. *)
Definition archive_bulk (st : Store) (body : option BulkBody) : BulkResponse * Store :=
  match body with
  | None => (B500 "Cannot destructure property 'streamIds' of 'req.body' as it is undefined.", st)
  | Some b =>
      match bb_streamIds b with
      | None | Some [] => (B400, st)
      | Some ids =>
          let '(results, st') := fold_left (bulk_step (bb_options b)) ids ([], st) in
          let successCount := length (filter br_success results) in
          let failCount := length (filter (fun r => negb (br_success r)) results) in
          (B200 (Nat.eqb failCount 0) successCount failCount results, st')
      end
  end.

End ArchiveRoutes.

(** The store after [deleteStream(db, sid)] following the history event. *)
Definition without (sid : string) (st : Store) : Store :=
  mkStore (mkDb (filter (fun s => negb (String.eqb (id s) sid)) (streams (st_db st)))
                (filter (fun e => negb (String.eqb (h_streamId e) sid)) (history (st_db st))))
          (filter (fun c => negb (String.eqb (c_streamId c) sid)) (st_commits st)).

Definition hist_k (k : string) (st : Store) : list StreamHistoryEvent :=
  filter (fun e => String.eqb (h_streamId e) k) (history (st_db st)).

Definition commits_k (k : string) (st : Store) : list Commit :=
  filter (fun c => String.eqb (c_streamId c) k) (st_commits st).

Definition write_about (w : ArchiveWrite) : string :=
  match w with
  | AWHistory ev => h_streamId ev
  | AWDeleteCommits sid | AWDeleteHistory sid | AWDeleteStream sid => sid
  end.

Definition not_found (sid : string) : BulkResult :=
  mkBulkResult sid false false (Some "Not found") None.

Definition no_result : BulkResult := mkBulkResult "" false false None None.

(* ------------------------------------------------------------------ *)
(** ** Last file modification time (getLastFileModificationTime) *)

(** What [entry.isFile()] and [entry.isDirectory()] say of a directory
    entry. *)
Inductive EntryKind := KFile | KDir | KOther.

(** A directory entry as [walkDir] sees it: its name, its kind, the
    [mtime] (in ms) of [statSync] ([None] when it throws) and, for a
    directory, what [readdirSync] lists ([None] when it throws). *)
#[warnings="-register-all"]
Inductive FsNode :=
| mkNode (name : string) (kind : EntryKind) (mtime : option Z) (children : option (list FsNode)).

Definition n_name (n : FsNode) : string := let '(mkNode x _ _ _) := n in x.

Definition n_kind (n : FsNode) : EntryKind := let '(mkNode _ k _ _) := n in k.

Definition is_dir (k : EntryKind) : bool := match k with KDir => true | _ => false end.

Definition is_file (k : EntryKind) : bool := match k with KFile => true | _ => false end.

(** [s.endsWith(suf)] *)
Definition ends_with (suf s : string) : bool :=
  let n := String.length s in
  let k := String.length suf in
  Nat.leb k n && String.eqb (substring (n - k) k s) suf.

Definition skipped_dirs : list string :=
  ["node_modules"; ".git"; "dist"; "build"; ".next"; ".cache"; "coverage";
   "__pycache__"; ".pytest_cache"; ".mypy_cache"; ".turbo"; ".vite"; "out"].

Definition skipped_exts : list string :=
  [".pyc"; ".pyo"; ".class"; ".o"; ".so"; ".dylib"; ".dll"].

(** The two [continue]s of the loop. *)
Definition skipped (name : string) (kind : EntryKind) : bool :=
  (is_dir kind && existsb (String.eqb name) skipped_dirs) ||
  (is_file kind && existsb (fun ext => ends_with ext name) skipped_exts).

(** [if (!latestMtime || stats.mtime > latestMtime) latestMtime = stats.mtime] *)
Definition newer (latest : option Z) (m : Z) : option Z :=
  match latest with
  | None => Some m
  | Some l => if Z.gtb m l then Some m else Some l
  end.

(** The value [newer] always returns. *)
Definition newer_val (latest : option Z) (m : Z) : Z :=
  match latest with
  | None => m
  | Some l => if Z.gtb m l then m else l
  end.

(** [walkDir(path)] of the directory [n], from the current [latestMtime]. *)
Fixpoint walkDir (latest : option Z) (n : FsNode) {struct n} : option Z :=
  let '(mkNode _ _ _ children) := n in
  match children with
  | None => latest
  | Some es =>
      (fix go (latest : option Z) (es : list FsNode) {struct es} : option Z :=
         match es with
         | [] => latest
         | e :: es' =>
             let '(mkNode name kind mtime _) := e in
             let latest' :=
               if skipped name kind then latest
               else match mtime with
                    | None => latest
                    | Some m =>
                        match kind with
                        | KFile => newer latest m
                        | KDir => walkDir latest e
                        | KOther => latest
                        end
                    end in
             go latest' es'
         end) latest es
  end.

(** [getLastFileModificationTime(dirPath)]: [exists] is [existsSync(dirPath)]. *)
Definition getLastFileModificationTime (exists_ : bool) (root : FsNode) : option Z :=
  if negb exists_ then None else walkDir None root.

(** The modification times of the files [walkDir] takes into account. *)
Fixpoint counted_mtimes (n : FsNode) {struct n} : list Z :=
  let '(mkNode _ _ _ children) := n in
  match children with
  | None => []
  | Some es =>
      (fix go (es : list FsNode) {struct es} : list Z :=
         match es with
         | [] => []
         | e :: es' =>
             let '(mkNode name kind mtime _) := e in
             app (if skipped name kind then []
              else match mtime with
                   | None => []
                   | Some m =>
                       match kind with
                       | KFile => [m]
                       | KDir => counted_mtimes e
                       | KOther => []
                       end
                   end) (go es')
         end) es
  end.

(** Induction on directory trees, with the hypothesis on every child. *)
Section FsNodeInd.
Variable P : FsNode -> Prop.
Hypothesis Hnode : forall name kind mt ch,
  match ch with Some es => Forall P es | None => True end -> P (mkNode name kind mt ch).

Fixpoint FsNode_ind' (n : FsNode) : P n :=
  match n with
  | mkNode name kind mt ch =>
      Hnode name kind mt ch
        (match ch as c return match c with Some es => Forall P es | None => True end with
         | Some es =>
             (fix go (es : list FsNode) : Forall P es :=
                match es with
                | [] => Forall_nil P
                | e :: es' => Forall_cons e (FsNode_ind' e) (go es')
                end) es
         | None => I
         end)
  end.
End FsNodeInd.

(* ------------------------------------------------------------------ *)
(** ** Stream update route (PATCH /:id, updateStream, completeStream) *)

(** The columns of a [streams] row that [PATCH /:id], [updateStream] and
    [completeStream] read or write. [status] and [blocked_by] are TEXT
    columns, [progress] and [current_phase] INTEGER ones. *)
Record StreamRow := mkRow {
  r_id : string;
  r_status : string;
  r_progress : Z;
  r_currentPhase : option Z;
  r_blockedBy : option string;
  r_updatedAt : string;
  r_completedAt : option string
}.

(** The [streams] rows and the [stream_history] table. *)
Record PatchStore := mkPatchStore {
  ps_rows : list StreamRow;
  ps_history : list StreamHistoryEvent
}.

(** [String(n)] of an integer: its decimal digits. *)
Fixpoint pos_digits (fuel : nat) (n : Z) (acc : string) : string :=
  match fuel with
  | O => acc
  | S f =>
      let acc' := String (ascii_of_nat (48 + Z.to_nat (Z.modulo n 10))) acc in
      if Z.eqb (Z.div n 10) 0 then acc' else pos_digits f (Z.div n 10) acc'
  end.

Definition z_text (n : Z) : string :=
  if Z.ltb n 0 then "-" ++ pos_digits (S (Z.to_nat (- n))) (- n) ""
  else pos_digits (S (Z.to_nat n)) n "".

Section PatchRoute.

(** The message better-sqlite3 throws for a parameter it cannot bind (a
    boolean, an array or an object). *)
Variable bind_error : JsonValue -> string.

(** A parameter bound to a TEXT column: a number is stored as its text
    (column affinity), [null] as NULL. *)
Definition text_param (v : JsonValue) : Outcome (option string) :=
  match v with
  | JNull => Ok None
  | JNum n => Ok (Some (z_text n))
  | JStr s => Ok (Some s)
  | JBool _ | JArr | JObj => Throw (bind_error v)
  end.

(** The [updates] argument of [updateStream]; an absent field is [None]. *)
Record StreamUpdates := mkUpdates {
  u_status : option JsonValue;
  u_progress : option Z;
  u_currentPhase : option Z;
  u_blockedBy : option JsonValue
}.

(** [SELECT * FROM streams WHERE id = ?] *)
Definition getRow (rows : list StreamRow) (sid : string) : option StreamRow :=
  find (fun r => String.eqb (r_id r) sid) rows.

Definition update_row (sid : string) (f : StreamRow -> StreamRow) (rows : list StreamRow)
  : list StreamRow :=
  map (fun r => if String.eqb (r_id r) sid then f r else r) rows.

Definition opt_or {A} (o : option A) (d : A) : A :=
  match o with Some a => a | None => d end.

(** [updateStream(db, streamId, updates)] with [now] its
    [new Date().toISOString()]: no statement when no field is given;
    otherwise one UPDATE, which throws on a parameter it cannot bind, on
    a NULL status (NOT NULL) and on a [blocked_by] naming no stream
    (FOREIGN KEY, enforced by [foreign_keys = ON]). *)
Definition updateStream (now : string) (rows : list StreamRow) (sid : string)
    (u : StreamUpdates) : Outcome (list StreamRow) :=
  if negb (defined (u_status u)) && negb (defined (u_progress u)) &&
     negb (defined (u_currentPhase u)) && negb (defined (u_blockedBy u))
  then Ok rows
  else
    let status_p :=
      match u_status u with
      | None => Ok None
      | Some v => match text_param v with Ok t => Ok (Some t) | Throw m => Throw m end
      end in
    (* [values.push(updates.blockedBy || null)] *)
    let blocked_p :=
      match u_blockedBy u with
      | None => Ok None
      | Some v =>
          match text_param (if truthy v then v else JNull) with
          | Ok t => Ok (Some t)
          | Throw m => Throw m
          end
      end in
    match status_p, blocked_p with
    | Throw m, _ => Throw m
    | _, Throw m => Throw m
    | Ok st, Ok bl =>
        let rows' :=
          update_row sid (fun r =>
            mkRow (r_id r)
              (match st with Some (Some s) => s | _ => r_status r end)
              (opt_or (u_progress u) (r_progress r))
              (match u_currentPhase u with Some p => Some p | None => r_currentPhase r end)
              (match bl with Some b => b | None => r_blockedBy r end)
              now (r_completedAt r)) rows in
        match getRow rows sid, st, bl with
        | None, _, _ => Ok rows
        | Some _, Some None, _ => Throw "NOT NULL constraint failed: streams.status"
        | Some _, _, Some (Some b) =>
            if defined (getRow rows' b) then Ok rows'
            else Throw "FOREIGN KEY constraint failed"
        | Some _, _, _ => Ok rows'
        end
    end.

(** [completeStream(db, streamId)]. *)
Definition completeStream (now : string) (rows : list StreamRow) (sid : string)
  : list StreamRow :=
  update_row sid (fun r =>
    mkRow (r_id r) "completed" (r_progress r) (r_currentPhase r) (r_blockedBy r)
      now (Some now)) rows.

Definition valid_statuses : list string :=
  ["initializing"; "active"; "blocked"; "paused"; "completed"; "archived"].

(** [status && !validStatuses.includes(status)] *)
Definition status_invalid (o : option JsonValue) : bool :=
  match o with
  | None => false
  | Some v =>
      truthy v &&
      negb (match v with JStr s => existsb (String.eqb s) valid_statuses | _ => false end)
  end.

(** [progress !== undefined && (typeof progress !== 'number' || progress < 0 || progress > 100)] *)
Definition progress_invalid (o : option JsonValue) : bool :=
  match o with
  | None => false
  | Some (JNum n) => Z.ltb n 0 || Z.ltb 100 n
  | Some _ => true
  end.

Definition progress_value (o : option JsonValue) : option Z :=
  match o with Some (JNum n) => Some n | _ => None end.

(** [v === s] for a string [s]; [undefined] equals no string. *)
Definition strict_eq_str (o : option JsonValue) (s : string) : bool :=
  match o with Some (JStr t) => String.eqb t s | _ => false end.

(** The fields of [req.body] the route reads; an absent field is [None]. *)
Record PatchBody := mkPatchBody {
  pb_status : option JsonValue;
  pb_progress : option JsonValue;
  pb_blockedBy : option JsonValue
}.

Inductive PatchResponse :=
| P404                                   (* 'Stream not found' *)
| P400 (error : string)
| P200 (stream : option StreamRow)
       (status_change : option (string * option JsonValue))  (* changes.status: from, to *)
       (progress : option Z)                                  (* changes.progress *)
| P500 (details : string).               (* 'Failed to update stream' *)

(** [now] is the time [updateStream] or [completeStream] stamps, [ts] the
    [timestamp] of the history event. *)
Variable now ts : string.

(** [PATCH /:id]; a [None] body is an undefined [req.body], whose
    destructuring throws. *)
Definition patch_route (st : PatchStore) (sid : string) (body : option PatchBody)
  : PatchResponse * PatchStore :=
  match getRow (ps_rows st) sid with
  | None => (P404, st)
  | Some row =>
      match body with
      | None =>
          (P500 "Cannot destructure property 'status' of 'req.body' as it is undefined.", st)
      | Some b =>
          let status := pb_status b in
          if status_invalid status then
            (P400 "Invalid status. Must be one of: initializing, active, blocked, paused, completed, archived", st)
          else if progress_invalid (pb_progress b) then
            (P400 "Progress must be a number between 0 and 100", st)
          else
            let previousStatus := r_status row in
            let written :=
              if strict_eq_str status "completed" &&
                 negb (String.eqb previousStatus "completed")
              then Ok (completeStream now (ps_rows st) sid)
              else updateStream now (ps_rows st) sid
                     (mkUpdates status (progress_value (pb_progress b)) None (pb_blockedBy b)) in
            match written with
            | Throw m => (P500 m, st)
            | Ok rows' =>
                let hist' :=
                  match status with
                  | Some v =>
                      if truthy v && negb (strict_eq_str status previousStatus) then
                        match text_param v with
                        | Ok nv =>
                            Ok (app (ps_history st)
                                  [mkEvent sid "status_changed" (Some previousStatus) nv ts])
                        | Throw m =>
                            Throw ("Failed to add history event for stream " ++ sid)
                        end
                      else Ok (ps_history st)
                  | None => Ok (ps_history st)
                  end in
                match hist' with
                | Throw m => (P500 m, mkPatchStore rows' (ps_history st))
                | Ok h =>
                    (P200 (getRow rows' sid)
                       (if strict_eq_str status previousStatus then None
                        else Some (previousStatus, status))
                       (progress_value (pb_progress b)),
                     mkPatchStore rows' h)
                end
            end
      end
  end.

End PatchRoute.

(* ------------------------------------------------------------------ *)
(** ** Retirement errors and relative times (retireStream, formatRelativeTime) *)

(** An error list a step of [retireStream] adds: nothing, or one message
    with the step's prefix. *)
Definition step_error (prefix : string) (e : list string) : Prop :=
  e = [] \/ exists m, e = [prefix ++ m].

(** [formatRelativeTime(isoTimestamp)]: [now] is [new Date().getTime()],
    [parse] gives [new Date(s).getTime()] ([None] for an invalid date,
    whose [NaN] fails every comparison). [Math.floor] on integers is
    [Z.div]. *)
Definition formatRelativeTime (now : Z) (parse : string -> option Z) (isoTimestamp : string)
  : string :=
  if String.eqb isoTimestamp "" then "" else
  match parse isoTimestamp with
  | None => "just now"
  | Some t =>
      let diffMs := (now - t)%Z in
      let diffSecs := Z.div diffMs 1000 in
      let diffMins := Z.div diffSecs 60 in
      let diffHours := Z.div diffMins 60 in
      let diffDays := Z.div diffHours 24 in
      if Z.ltb 0 diffDays then
        z_text diffDays ++ " day" ++ (if Z.ltb 1 diffDays then "s" else "") ++ " ago"
      else if Z.ltb 0 diffHours then
        z_text diffHours ++ " hour" ++ (if Z.ltb 1 diffHours then "s" else "") ++ " ago"
      else if Z.ltb 0 diffMins then
        z_text diffMins ++ " minute" ++ (if Z.ltb 1 diffMins then "s" else "") ++ " ago"
      else "just now"
  end.

Definition sample_parse (s : string) : option Z :=
  if String.eqb s "2024-01-01T00:00:00.000Z" then Some 1704067200000%Z else None.

(* ------------------------------------------------------------------ *)
(** ** Sample stores of the archive routes *)

(** A completed stream and a store holding it beside an active one. *)
Definition done_stream : Stream :=
  mkStream "a" "Lexer" "feature/lexer" "/w/a" completed "2024-01-03T00:00:00Z"
    (Some "2024-01-03T00:00:00Z").

Definition busy_stream : Stream :=
  mkStream "b" "Parser" "feature/parser" "/w/b" active "2024-01-02T00:00:00Z" None.

Definition sample_store : Store :=
  mkStore (mkDb [done_stream; busy_stream]
             [mkEvent "a" "status_changed" (Some "active") (Some "completed") "2024-01-03T00:00:00Z";
              mkEvent "b" "created" None None "2024-01-01T00:00:00Z"])
    [mkCommit "a" "h1" "add lexer" "ann" 2 "2024-01-02T00:00:00Z";
     mkCommit "b" "h2" "add parser" "bob" 1 "2024-01-02T00:00:00Z"].

Definition sample_body : ArchiveBody := mkArchiveBody None None.

(* ------------------------------------------------------------------ *)
(** ** Sample store of the stream update route *)

Definition patch_sample_store : PatchStore :=
  mkPatchStore
    [mkRow "s1" "active" 40%Z (Some 2%Z) None "2024-01-01T00:00:00Z" None;
     mkRow "s2" "blocked" 10%Z None (Some "s1") "2024-01-01T00:00:00Z" None]
    [mkEvent "s1" "created" None None "2024-01-01T00:00:00Z"].

Definition sample_bind_error (v : JsonValue) : string :=
  "SQLite3 can only bind numbers, strings, bigints, buffers, and null".

(* ================================================================== *)
(** * Properties *)

(** C5 (code defect). [summary.totalWorktrees] is [worktrees.size - 1]
    whatever the map holds: on the empty map that [getWorktreeList] returns
    when git fails it is -1, not 0. *)
Theorem totalWorktrees_size_minus_one fs now fails db wts merged o :
  totalWorktrees (summary (fst (reconcileWorktrees fs now fails db wts merged o)))
  = (Z.of_nat (length wts) - 1)%Z.
Proof.
  unfold reconcileWorktrees.
  set (f := reconcile_stream _ _ _ _ _ _ _).
  assert (Hfold : forall l st,
    totalWorktrees (summary (fst (fst (fold_left f l st))))
    = totalWorktrees (summary (fst (fst st)))).
  { induction l as [|s l IH]; intros [[r m] d]; [reflexivity|].
    simpl. rewrite IH. unfold f, reconcile_stream.
    destruct (set_has merged (branch s)); [|destruct (negb _)];
      match goal with |- context [let '(_, _) := ?x in _] => destruct x as [d' [e|]] end;
      reflexivity. }
  match goal with |- context [fold_left f ?l ?st] =>
    pose proof (Hfold l st) as H; destruct (fold_left f l st) as [[r m] d] end.
  simpl in H |- *.
  assert (Hc : forall r0, totalWorktrees (summary (collect_orphans m wts r0))
                          = totalWorktrees (summary r0)).
  { unfold collect_orphans. generalize wts at 1. intros l.
    induction l as [|[k w] l IH]; intro r0; [reflexivity|].
    simpl. rewrite IH. destruct (_ && _); reflexivity. }
  rewrite Hc, H. reflexivity.
Qed.

Theorem totalWorktrees_empty_map :
  totalWorktrees (summary (fst (reconcileWorktrees (fun _ => false) "now"
     (fun _ => None) (mkDb [] []) [] [] (mkOptions None None)))) = (-1)%Z.
Proof. reflexivity. Qed.

Lemma length_eqb_0 {A} (l : list A) : Nat.eqb (length l) 0 = true <-> l = [].
Proof. destruct l; simpl; split; congruence. Qed.

Lemma retire_steps_success fs git rm_fails archive queue_job s o :
  success (retire_steps fs git rm_fails archive queue_job s o)
  = Nat.eqb (length (rr_errors (retire_steps fs git rm_fails archive queue_job s o))) 0.
Proof.
  unfold retire_steps.
  destruct (opt_default (ro_writeArchive o) true); [destruct archive|];
    simpl; split_branches; reflexivity.
Qed.

Lemma retire_steps_worktreeDeleted fs git rm_fails archive queue_job s o :
  worktreeDeleted (retire_steps fs git rm_fails archive queue_job s o) =
  match delete_step fs git rm_fails (opt_default (ro_deleteWorktree o) true)
          (join (ro_worktreeRoot o) (id s)) (branch s) with
  | Ok d => d
  | Throw _ => false
  end.
Proof.
  unfold retire_steps.
  destruct (opt_default (ro_writeArchive o) true); [destruct archive|];
    simpl; split_branches; reflexivity.
Qed.

Lemma retire_steps_planFilesCleanedUp fs git rm_fails archive queue_job s o :
  planFilesCleanedUp (retire_steps fs git rm_fails archive queue_job s o) =
  (opt_default (ro_cleanupPlanFiles o) true
   && negb (defined (run_git git (plan_ops fs (ro_projectRoot o) (id s))))).
Proof.
  unfold retire_steps.
  destruct (opt_default (ro_writeArchive o) true); [destruct archive|];
    simpl; split_branches; reflexivity.
Qed.

(** What [retireStream] returns, when it returns, is the result of its
    [try] block. *)
Lemma retireStream_ok fs git rm_fails archive queue_job sg s o r :
  retireStream fs git rm_fails archive queue_job sg s o = Ok r ->
  r = retire_steps fs git rm_fails archive queue_job s o.
Proof.
  unfold retireStream. destruct (sg (ro_projectRoot o)); [discriminate|].
  intros H. injection H as <-. reflexivity.
Qed.

(** C7. The result [retireStream] returns reports [success = true] exactly
    when its error list is empty; the worktree step and the plan-file step
    run whatever the archive step did, and [worktreeDeleted] /
    [planFilesCleanedUp] are their own outcomes (the expressions below do
    not mention the archive); a failed archive write is recorded in
    [errors] and makes [success] false. *)
Theorem retireStream_success_iff_no_errors fs git rm_fails archive queue_job sg s o r :
  retireStream fs git rm_fails archive queue_job sg s o = Ok r ->
  (success r = true <-> rr_errors r = [])
  /\ worktreeDeleted r =
       match delete_step fs git rm_fails (opt_default (ro_deleteWorktree o) true)
               (join (ro_worktreeRoot o) (id s)) (branch s) with
       | Ok d => d
       | Throw _ => false
       end
  /\ planFilesCleanedUp r =
       (opt_default (ro_cleanupPlanFiles o) true
        && negb (defined (run_git git (plan_ops fs (ro_projectRoot o) (id s)))))
  /\ (forall m, opt_default (ro_writeArchive o) true = true -> archive = Throw m ->
        success r = false /\ In ("Archive write failed: " ++ m) (rr_errors r)).
Proof.
  intros Hr. apply retireStream_ok in Hr. subst r.
  split; [|split; [|split]].
  - rewrite retire_steps_success. apply length_eqb_0.
  - apply retire_steps_worktreeDeleted.
  - apply retire_steps_planFilesCleanedUp.
  - intros m Hw Ha. subst archive.
    rewrite retire_steps_success. unfold retire_steps. rewrite Hw. cbn.
    split_branches; cbn; split; auto.
Qed.

Lemma retireStream_success_iff_no_errors_witness :
  retireStream (fun _ => true) (fun _ => None) (fun _ => None) (Throw "EACCES")
    (Ok 1) (fun _ => None) retire_sample_stream retire_sample_options
  = Ok (retire_steps (fun _ => true) (fun _ => None) (fun _ => None) (Throw "EACCES")
          (Ok 1) retire_sample_stream retire_sample_options)
  /\ success (retire_steps (fun _ => true) (fun _ => None) (fun _ => None) (Throw "EACCES")
          (Ok 1) retire_sample_stream retire_sample_options) = false.
Proof.
  split; [reflexivity|].
  destruct (retireStream_success_iff_no_errors (fun _ => true) (fun _ => None)
              (fun _ => None) (Throw "EACCES") (Ok 1) (fun _ => None)
              retire_sample_stream retire_sample_options
              (retire_steps (fun _ => true) (fun _ => None) (fun _ => None)
                 (Throw "EACCES") (Ok 1) retire_sample_stream retire_sample_options)
              eq_refl) as (_ & _ & _ & H).
  apply (H "EACCES"); reflexivity.
Defined.

(** C10. When [worktreeRoot/<id>] does not exist, the result [retireStream]
    returns reports [worktreeDeleted = true], also when [deleteWorktree] is
    false. *)
Theorem retireStream_missing_worktree_deleted fs git rm_fails archive queue_job sg s o r :
  fs (join (ro_worktreeRoot o) (id s)) = false ->
  retireStream fs git rm_fails archive queue_job sg s o = Ok r ->
  worktreeDeleted r = true.
Proof.
  intros Hx Hr. apply retireStream_ok in Hr. subst r.
  rewrite retire_steps_worktreeDeleted. unfold delete_step.
  rewrite Hx, andb_false_r. reflexivity.
Qed.

Lemma retireStream_missing_worktree_deleted_witness :
  retireStream (fun _ => false) (fun _ => None) (fun _ => None)
     (Ok "/repo/.project/history/x.md") (Ok 1) (fun _ => None) retire_sample_stream
     retire_sample_options
  = Ok (retire_steps (fun _ => false) (fun _ => None) (fun _ => None)
          (Ok "/repo/.project/history/x.md") (Ok 1) retire_sample_stream retire_sample_options)
  /\ worktreeDeleted (retire_steps (fun _ => false) (fun _ => None) (fun _ => None)
          (Ok "/repo/.project/history/x.md") (Ok 1) retire_sample_stream
          retire_sample_options) = true.
Proof.
  split; [reflexivity|].
  apply (retireStream_missing_worktree_deleted (fun _ => false) (fun _ => None)
           (fun _ => None) (Ok "/repo/.project/history/x.md") (Ok 1) (fun _ => None)
           retire_sample_stream retire_sample_options); reflexivity.
Defined.

(** C9 (code defect). [getWorktreeCommits] takes every line containing '|'
    for a commit header. A numstat line of a file whose path contains '|'
    flushes the current commit a second time without starting a new one:
    one header yields two records, both the same object, and the final
    assignment gives both the count of the files after the '|' line only. *)
Theorem getWorktreeCommits_pipe_in_path to_iso t :
  to_iso "2024-01-01T00:00:00Z" = Some t ->
  parse_log to_iso "s1" log_pipe_in_path =
  Some [mkCommit "s1" "abc123" "Add files" "Ann" 1 t;
        mkCommit "s1" "abc123" "Add files" "Ann" 1 t].
Proof.
  intros Ht. cbv.
  rewrite Ht. reflexivity.
Qed.

Lemma getWorktreeCommits_pipe_in_path_witness :
  parse_log (fun d => Some d) "s1" log_pipe_in_path =
  Some [mkCommit "s1" "abc123" "Add files" "Ann" 1 "2024-01-01T00:00:00Z";
        mkCommit "s1" "abc123" "Add files" "Ann" 1 "2024-01-01T00:00:00Z"].
Proof. apply getWorktreeCommits_pipe_in_path. reflexivity. Defined.

Lemma unique_error_caught :
  includes "UNIQUE constraint failed: commits.stream_id, commits.commit_hash" "UNIQUE"
  = true.
Proof. reflexivity. Qed.

(** Commits whose key is already stored are all absorbed. *)
Lemma insert_all_absorbs tbl added cs :
  (forall c, In c cs -> existsb (fun r => same_key r c) tbl = true) ->
  insert_all tbl added cs = (Ok added, tbl).
Proof.
  revert added. induction cs as [|c cs IH]; intros added Hin; [reflexivity|].
  cbn [insert_all]. unfold insertCommit.
  replace (existsb _ tbl) with true
    by (symmetry; apply (Hin c); left; reflexivity).
  simpl.
  apply IH. intros c' H'. apply Hin. right. exact H'.
Qed.

(** A scan never throws past its [catch], and afterwards every scanned key
    is stored, the keys stored before included. *)
Lemma insert_all_total tbl added cs :
  exists n tbl',
    insert_all tbl added cs = (Ok n, tbl')
    /\ (forall c, In c cs -> existsb (fun r => same_key r c) tbl' = true)
    /\ (forall c, existsb (fun r => same_key r c) tbl = true ->
                  existsb (fun r => same_key r c) tbl' = true).
Proof.
  revert tbl added. induction cs as [|c cs IH]; intros tbl added.
  - exists added, tbl. simpl. split; [reflexivity | split; [tauto | auto]].
  - cbn [insert_all]. unfold insertCommit.
    destruct (existsb (fun r => same_key r c) tbl) eqn:Hc.
    + simpl.
      destruct (IH tbl added) as (n & tbl' & Heq & Hall & Hmono).
      exists n, tbl'. split; [exact Heq|]. split; [|exact Hmono].
      intros c' [<- | H']; [apply Hmono; exact Hc | apply Hall; exact H'].
    + destruct (IH (tbl ++ [c])%list (S added)) as (n & tbl' & Heq & Hall & Hmono).
      assert (Hext : forall c', existsb (fun r => same_key r c') tbl = true ->
                     existsb (fun r => same_key r c') (tbl ++ [c])%list = true).
      { intros c' H'. rewrite existsb_app, H'. reflexivity. }
      exists n, tbl'. split; [exact Heq|]. split.
      * intros c' [<- | H']; [|apply Hall; exact H'].
        apply Hmono. rewrite existsb_app. simpl. unfold same_key.
        rewrite !String.eqb_refl. apply orb_true_r.
      * intros c' H'. apply Hmono, Hext, H'.
Qed.

Lemma find_id_in (l : list Stream) sid :
  In sid (map id l) -> exists s, find (fun s => String.eqb (id s) sid) l = Some s.
Proof.
  induction l as [|s l IH]; simpl; [tauto|]. intros [Heq | H].
  - exists s. rewrite Heq, String.eqb_refl. reflexivity.
  - destruct (String.eqb (id s) sid); [exists s; reflexivity | apply IH, H].
Qed.

(** C8. Scanning the commits of a stream twice with the same git output:
    the first scan returns normally, and the second returns 0 commits added
    without throwing and leaves the [commits] table as the first left it;
    every second insert hits the UNIQUE constraint and is absorbed. *)
Theorem scanStreamCommits_idempotent to_iso fs git_log db tbl sid :
  In sid (map id (getAllStreams db)) ->
  exists n tbl1,
    scanStreamCommits to_iso fs git_log db tbl sid = (Ok n, tbl1)
    /\ scanStreamCommits to_iso fs git_log db tbl1 sid = (Ok 0, tbl1).
Proof.
  intros Hin. destruct (find_id_in _ _ Hin) as [s Hs].
  unfold scanStreamCommits. rewrite Hs.
  destruct (insert_all_total tbl 0 (getWorktreeCommits to_iso fs git_log s))
    as (n & tbl1 & Heq & Hall & _).
  exists n, tbl1. split; [exact Heq|].
  apply insert_all_absorbs. exact Hall.
Qed.

Lemma scanStreamCommits_idempotent_witness :
  exists n tbl1,
    scanStreamCommits (fun d => Some d) (fun _ => true)
      (fun _ => Some log_pipe_in_path) scan_sample_db [] "s1" = (Ok n, tbl1)
    /\ scanStreamCommits (fun d => Some d) (fun _ => true)
      (fun _ => Some log_pipe_in_path) scan_sample_db tbl1 "s1" = (Ok 0, tbl1).
Proof. apply scanStreamCommits_idempotent. simpl. left. reflexivity. Defined.

(* ------------------------------------------------------------------ *)
(** ** Reconciliation: classification does not depend on [dryRun] *)

Lemma step_classification fs now fails dry1 dry2 auto wts merged r1 r2 m d1 d2 s :
  classification r1 = classification r2 ->
  classification (fst (fst (reconcile_stream fs now fails dry1 auto wts merged (r1, m, d1) s)))
  = classification (fst (fst (reconcile_stream fs now fails dry2 auto wts merged (r2, m, d2) s)))
  /\ snd (fst (reconcile_stream fs now fails dry1 auto wts merged (r1, m, d1) s))
     = snd (fst (reconcile_stream fs now fails dry2 auto wts merged (r2, m, d2) s)).
Proof.
  intros H. same_classification. unfold reconcile_stream.
  destruct (set_has merged (branch s)); [|destruct (negb _)];
    split_writes; split; reflexivity.
Qed.

Lemma fold_classification fs now fails dry1 dry2 auto wts merged l r1 r2 m d1 d2 :
  classification r1 = classification r2 ->
  classification (fst (fst (fold_left (reconcile_stream fs now fails dry1 auto wts merged) l (r1, m, d1))))
  = classification (fst (fst (fold_left (reconcile_stream fs now fails dry2 auto wts merged) l (r2, m, d2))))
  /\ snd (fst (fold_left (reconcile_stream fs now fails dry1 auto wts merged) l (r1, m, d1)))
     = snd (fst (fold_left (reconcile_stream fs now fails dry2 auto wts merged) l (r2, m, d2))).
Proof.
  revert r1 r2 m d1 d2. induction l as [|s l IH]; intros r1 r2 m d1 d2 H.
  - split; [exact H | reflexivity].
  - cbn [fold_left]. destruct (step_classification fs now fails dry1 dry2 auto wts merged r1 r2 m d1 d2 s H)
      as [Hc Hm].
    destruct (reconcile_stream fs now fails dry1 auto wts merged (r1, m, d1) s) as [[r1' m1'] d1'].
    destruct (reconcile_stream fs now fails dry2 auto wts merged (r2, m, d2) s) as [[r2' m2'] d2'].
    simpl in Hc, Hm. subst m2'. apply IH. exact Hc.
Qed.

Lemma collect_orphans_classification m wts r1 r2 :
  classification r1 = classification r2 ->
  classification (collect_orphans m wts r1) = classification (collect_orphans m wts r2).
Proof.
  unfold collect_orphans. revert r1 r2.
  induction wts as [|[k w] wts IH]; intros r1 r2 H; [exact H|].
  simpl. apply IH. destruct (_ && _); [|exact H].
  same_classification. reflexivity.
Qed.

(** In a dry run the loop issues no statement. *)
Lemma fold_dry_run_db fs now fails auto wts merged l st :
  snd (fold_left (reconcile_stream fs now fails true auto wts merged) l st) = snd st.
Proof.
  revert st. induction l as [|s l IH]; intros [[r m] d]; [reflexivity|].
  cbn [fold_left]. rewrite IH. unfold reconcile_stream.
  destruct (set_has merged (branch s)); [|destruct (negb _)]; reflexivity.
Qed.

(** When no statement throws, nothing reaches the [catch]. *)
Lemma run_writes_no_failure (fails : DbWrite -> option string) now db ws :
  (forall w, fails w = None) -> snd (run_writes now fails db ws) = None.
Proof.
  intros Hf. revert db. induction ws as [|w ws IH]; intros db; [reflexivity|].
  simpl. rewrite Hf. apply IH.
Qed.

Lemma fold_errors_no_failure fs now fails dry auto wts merged l st :
  (forall w, fails w = None) ->
  err_view (fst (fst (fold_left (reconcile_stream fs now fails dry auto wts merged) l st)))
  = err_view (fst (fst st)).
Proof.
  intros Hf. revert st. induction l as [|s l IH]; intros [[r m] d]; [reflexivity|].
  cbn [fold_left]. rewrite IH. unfold reconcile_stream.
  destruct (set_has merged (branch s)); [|destruct (negb _)];
    repeat match goal with
    | |- context [if ?b then run_writes ?n ?f ?d ?ws else _] =>
        destruct b; [pose proof (run_writes_no_failure f n d ws Hf) as Hn;
                     destruct (run_writes n f d ws) as [? ?]; simpl in Hn; subst|]
    end; reflexivity.
Qed.

Lemma collect_orphans_errors m wts r :
  err_view (collect_orphans m wts r) = err_view r.
Proof.
  unfold collect_orphans. revert r.
  induction wts as [|[k w] wts IH]; intros r; [reflexivity|].
  simpl. rewrite IH. destruct (_ && _); reflexivity.
Qed.

Lemma result_ext r1 r2 :
  classification r1 = classification r2 -> err_view r1 = err_view r2 -> r1 = r2.
Proof.
  intros H He. same_classification. unfold err_view in He. simpl in He.
  injection He as -> ->. reflexivity.
Qed.

(** C1. For the same database, worktree map and merged-branch set, and the
    same [autoArchiveStale] option, the dry run and the real run return the
    same buckets (active, completed, stale, orphaned) and the same
    counters; the dry run leaves the database as it was. The [errors] list
    is the one part of the result that can differ, and only through a write
    statement of the real run that throws: when none throws, the two
    results are equal. *)
Theorem reconcile_dryRun_same_classification fs now fails db wts merged a :
  let dry := reconcileWorktrees fs now fails db wts merged (mkOptions (Some true) a) in
  let wet := reconcileWorktrees fs now fails db wts merged (mkOptions (Some false) a) in
  classification (fst dry) = classification (fst wet)
  /\ snd dry = db
  /\ ((forall w, fails w = None) -> fst dry = fst wet).
Proof.
  cbv zeta. unfold reconcileWorktrees. cbn [opt_dryRun opt_autoArchiveStale].
  set (auto := match a with Some b => b | None => false end).
  set (init := mkResult [] [] [] [] [] _).
  pose proof (fold_classification fs now fails true false auto wts merged
                (getAllStreams db) init init ["main"] db db eq_refl) as [Hc Hm].
  pose proof (fold_dry_run_db fs now fails auto wts merged (getAllStreams db)
                (init, ["main"], db)) as Hdb.
  pose proof (fold_errors_no_failure fs now fails true auto wts merged
                (getAllStreams db) (init, ["main"], db)) as He1.
  pose proof (fold_errors_no_failure fs now fails false auto wts merged
                (getAllStreams db) (init, ["main"], db)) as He2.
  destruct (fold_left (reconcile_stream fs now fails true auto wts merged)
              (getAllStreams db) (init, ["main"], db)) as [[r1 m1] d1].
  destruct (fold_left (reconcile_stream fs now fails false auto wts merged)
              (getAllStreams db) (init, ["main"], db)) as [[r2 m2] d2].
  simpl in Hc, Hm, Hdb, He1, He2 |- *. subst m2.
  split; [apply collect_orphans_classification; exact Hc|].
  split; [exact Hdb|].
  intros Hf. apply result_ext.
  - apply collect_orphans_classification. exact Hc.
  - rewrite !collect_orphans_errors, (He1 Hf), (He2 Hf). reflexivity.
Qed.

Lemma reconcile_dryRun_same_classification_witness :
  fst (reconcileWorktrees (fun _ => false) "t1" (fun _ => None) rec_sample_db
         rec_sample_worktrees ["feature/s1"] (mkOptions (Some true) (Some true)))
  = fst (reconcileWorktrees (fun _ => false) "t1" (fun _ => None) rec_sample_db
         rec_sample_worktrees ["feature/s1"] (mkOptions (Some false) (Some true))).
Proof.
  apply (reconcile_dryRun_same_classification (fun _ => false) "t1" (fun _ => None)
           rec_sample_db rec_sample_worktrees ["feature/s1"] (Some true)).
  intros w. reflexivity.
Defined.

(* ------------------------------------------------------------------ *)
(** ** Reconciliation: orphaned worktrees *)

Lemma step_orphaned fs now fails dry auto wts merged r m d s :
  let st := reconcile_stream fs now fails dry auto wts merged (r, m, d) s in
  orphaned (fst (fst st)) = orphaned r
  /\ sum_orphaned (summary (fst (fst st))) = sum_orphaned (summary r)
  /\ snd (fst st) = if defined (map_get wts (id s)) then id s :: m else m.
Proof.
  cbv zeta. unfold reconcile_stream.
  destruct (set_has merged (branch s)); [|destruct (negb _)];
    split_writes; repeat split; reflexivity.
Qed.

Lemma fold_orphaned fs now fails dry auto wts merged l r m d :
  let st := fold_left (reconcile_stream fs now fails dry auto wts merged) l (r, m, d) in
  orphaned (fst (fst st)) = orphaned r
  /\ sum_orphaned (summary (fst (fst st))) = sum_orphaned (summary r)
  /\ (forall k, set_has (snd (fst st)) k
                = set_has m k
                  || existsb (fun s => String.eqb (id s) k && defined (map_get wts (id s))) l).
Proof.
  cbv zeta. revert r m d. induction l as [|s l IH]; intros r m d.
  - simpl. repeat split. intros k. rewrite orb_false_r. reflexivity.
  - cbn [fold_left].
    destruct (step_orphaned fs now fails dry auto wts merged r m d s) as (Ho & Hs & Hm).
    destruct (reconcile_stream fs now fails dry auto wts merged (r, m, d) s)
      as [[r' m'] d'].
    simpl in Ho, Hs, Hm. subst m'.
    destruct (IH r' (if defined (map_get wts (id s)) then id s :: m else m) d')
      as (Ho' & Hs' & Hm').
    rewrite Ho', Hs', Ho, Hs. repeat split. intros k. rewrite Hm'.
    cbn [existsb]. rewrite (String.eqb_sym (id s) k).
    destruct (defined (map_get wts (id s))); simpl.
    + unfold set_has at 1. simpl. rewrite !andb_true_r, !orb_assoc.
      f_equal. apply orb_comm.
    + rewrite andb_false_r. reflexivity.
Qed.

Lemma collect_orphans_spec m wts r :
  orphaned (collect_orphans m wts r)
  = (orphaned r ++ map snd (filter (fun '(k, w) => negb (set_has m k) && negb (isMain w)) wts))%list
  /\ sum_orphaned (summary (collect_orphans m wts r))
     = (sum_orphaned (summary r)
        + Z.of_nat (length (filter (fun '(k, w) => negb (set_has m k) && negb (isMain w)) wts)))%Z.
Proof.
  unfold collect_orphans. revert r.
  induction wts as [|[k w] wts IH]; intros r.
  - simpl. rewrite app_nil_r. split; [reflexivity | lia].
  - cbn [fold_left filter]. destruct (negb (set_has m k) && negb (isMain w)).
    + destruct (IH (push_orphaned r w)) as [H1 H2]. rewrite H1, H2. simpl.
      rewrite <- app_assoc. split; [reflexivity | lia].
    + apply IH.
Qed.

Lemma map_get_in (wts : WorktreeMap) k w :
  In (k, w) wts -> defined (map_get wts k) = true.
Proof.
  induction wts as [|[k' w'] wts IH]; simpl; [tauto|].
  intros [Heq | H].
  - injection Heq as -> ->. rewrite String.eqb_refl. reflexivity.
  - destruct (String.eqb k k'); [reflexivity | apply IH, H].
Qed.

Lemma existsb_matched (strs : list Stream) (wts : WorktreeMap) k :
  defined (map_get wts k) = true ->
  existsb (fun s => String.eqb (id s) k && defined (map_get wts (id s))) strs
  = existsb (fun s => String.eqb (id s) k) strs.
Proof.
  intros Hk. induction strs as [|s strs IH]; [reflexivity|]. simpl. rewrite IH.
  destruct (String.eqb (id s) k) eqn:E; [|reflexivity].
  apply String.eqb_eq in E. rewrite E, Hk. reflexivity.
Qed.

Lemma count_filter_snd (P : string * WorktreeInfo -> bool) (l : WorktreeMap) k w :
  NoDup (map snd l) -> In (k, w) l ->
  count_occ WorktreeInfo_eq_dec (map snd (filter P l)) w = if P (k, w) then 1 else 0.
Proof.
  induction l as [|[k' w'] l IH]; simpl; [tauto|].
  intros Hnd Hin. inversion Hnd as [|? ? Hnotin Hnd']; subst.
  destruct Hin as [Heq | Hin].
  - injection Heq as -> ->.
    assert (Hz : count_occ WorktreeInfo_eq_dec (map snd (filter P l)) w = 0).
    { apply count_occ_not_In. intros Hw. apply Hnotin.
      apply in_map_iff in Hw as [[k2 w2] [<- Hf]].
      apply filter_In in Hf as [Hf _]. apply in_map_iff. exists (k2, w2). auto. }
    destruct (P (k, w)); simpl; [|exact Hz].
    destruct (WorktreeInfo_eq_dec w w) as [_|]; [rewrite Hz; reflexivity | congruence].
  - assert (Hne : w' <> w).
    { intros <-. apply Hnotin. apply in_map_iff. exists (k, w'). auto. }
    destruct (P (k', w')); simpl; [|apply IH; auto].
    destruct (WorktreeInfo_eq_dec w' w) as [|_]; [congruence | apply IH; auto].
Qed.

(** C4. After reconciliation, the orphaned bucket lists, in map order, the
    worktree of every key that is not 'main', is not the id of a stream
    [getAllStreams] returns, and is not tagged [isMain]; each such worktree
    appears in it exactly once and every other worktree of the map not at all
    (the main one included), and [summary.orphaned] is its length. Worktree
    infos are distinct in a map git produces, since their paths are. *)
Theorem reconcile_orphans_complete fs now fails db wts merged o :
  NoDup (map snd wts) ->
  let r := fst (reconcileWorktrees fs now fails db wts merged o) in
  orphaned r = map snd (filter (orphan_entry (getAllStreams db)) wts)
  /\ sum_orphaned (summary r) = Z.of_nat (length (orphaned r))
  /\ (forall k w, In (k, w) wts ->
        count_occ WorktreeInfo_eq_dec (orphaned r) w
        = if orphan_entry (getAllStreams db) (k, w) then 1 else 0)
  /\ (forall k w, In (k, w) wts -> (k = "main" \/ isMain w = true) ->
        ~ In w (orphaned r)).
Proof.
  intros Hnd. cbv zeta. unfold reconcileWorktrees.
  set (dry := match opt_dryRun o with Some b => b | None => true end).
  set (auto := match opt_autoArchiveStale o with Some b => b | None => false end).
  set (init := mkResult [] [] [] [] [] _).
  destruct (fold_orphaned fs now fails dry auto wts merged (getAllStreams db)
              init ["main"] db) as (Ho & Hs & Hm).
  destruct (fold_left (reconcile_stream fs now fails dry auto wts merged)
              (getAllStreams db) (init, ["main"], db)) as [[r m] d].
  simpl in Ho, Hs, Hm |- *.
  destruct (collect_orphans_spec m wts r) as [Ho' Hs'].
  assert (Hf : map snd (filter (fun '(k, w) => negb (set_has m k) && negb (isMain w)) wts)
               = map snd (filter (orphan_entry (getAllStreams db)) wts)).
  { f_equal. apply filter_ext_in. intros [k w] Hin. rewrite Hm.
    rewrite (existsb_matched _ _ _ (map_get_in _ _ _ Hin)).
    unfold orphan_entry, set_has. simpl. rewrite orb_false_r.
    destruct (String.eqb k "main"); reflexivity. }
  assert (Hres : orphaned (collect_orphans m wts r)
                 = map snd (filter (orphan_entry (getAllStreams db)) wts)).
  { rewrite Ho', Ho, Hf. reflexivity. }
  split; [exact Hres|]. split.
  { rewrite Hs', Hs, Hres, length_map.
    rewrite (filter_ext_in _ (orphan_entry (getAllStreams db))); [reflexivity|].
    intros kw Hin.
    destruct kw as [k w]. rewrite Hm.
    rewrite (existsb_matched _ _ _ (map_get_in _ _ _ Hin)).
    unfold orphan_entry, set_has. simpl. rewrite orb_false_r.
    destruct (String.eqb k "main"); reflexivity. }
  assert (Hc : forall k w, In (k, w) wts ->
            count_occ WorktreeInfo_eq_dec (orphaned (collect_orphans m wts r)) w
            = if orphan_entry (getAllStreams db) (k, w) then 1 else 0).
  { intros k w Hin. rewrite Hres. apply count_filter_snd; assumption. }
  split; [exact Hc|].
  intros k w Hin Hmain Hw.
  apply (count_occ_In WorktreeInfo_eq_dec) in Hw. rewrite (Hc k w Hin) in Hw.
  unfold orphan_entry in Hw.
  destruct Hmain as [Hk | Hw0].
  - subst k. simpl in Hw. lia.
  - rewrite Hw0, andb_false_r in Hw. lia.
Qed.

Lemma reconcile_orphans_complete_witness :
  orphaned (fst (reconcileWorktrees (fun _ => false) "t1" (fun _ => None) rec_sample_db
                   rec_sample_worktrees ["feature/s1"] (mkOptions None None)))
  = [mkWorktree "/wt/spike" "spike" "h4" false].
Proof.
  destruct (reconcile_orphans_complete (fun _ => false) "t1" (fun _ => None) rec_sample_db
              rec_sample_worktrees ["feature/s1"] (mkOptions None None)) as [H _].
  - repeat constructor; simpl; intuition discriminate.
  - rewrite H. reflexivity.
Defined.

(* ------------------------------------------------------------------ *)
(** ** Reconciliation: what happens to one stream *)

Lemma filter_update_rows k sid (f : Stream -> Stream) rows :
  (forall s, id (f s) = id s) ->
  filter (fun s => String.eqb (id s) k) (update_rows sid f rows)
  = if String.eqb sid k then update_rows sid f (filter (fun s => String.eqb (id s) k) rows)
    else filter (fun s => String.eqb (id s) k) rows.
Proof.
  intros Hf. induction rows as [|s rows IH].
  - destruct (String.eqb sid k); reflexivity.
  - cbn [update_rows map filter]. fold (update_rows sid f rows). rewrite IH.
    destruct (String.eqb (id s) sid) eqn:E1; destruct (String.eqb sid k) eqn:E2;
      destruct (String.eqb (id s) k) eqn:E3;
      apply String.eqb_eq in E1 || apply String.eqb_neq in E1;
      apply String.eqb_eq in E2 || apply String.eqb_neq in E2;
      apply String.eqb_eq in E3 || apply String.eqb_neq in E3;
      try (exfalso; congruence);
      rewrite ?Hf; cbn [filter update_rows map];
      rewrite ?Hf;
      repeat match goal with
      | |- context [String.eqb ?a ?b] =>
          let E := fresh in
          destruct (String.eqb a b) eqn:E;
          [apply String.eqb_eq in E | apply String.eqb_neq in E]
      end; try congruence; reflexivity.
Qed.

Lemma apply_write_restrict now k db w :
  restrict k (apply_write now db w)
  = if String.eqb (write_key w) k then apply_write now (restrict k db) w
    else restrict k db.
Proof.
  unfold restrict, rows_of, hist_of.
  destruct w as [sid | sid st | ev]; cbn [apply_write write_key streams history].
  - rewrite filter_update_rows by reflexivity.
    destruct (String.eqb sid k); reflexivity.
  - rewrite filter_update_rows by reflexivity.
    destruct (String.eqb sid k); reflexivity.
  - rewrite filter_app. simpl.
    destruct (String.eqb (h_streamId ev) k); rewrite ?app_nil_r; reflexivity.
Qed.

(** Statements about stream [k] see only the rows and events of [k]. *)
Lemma run_writes_restrict_same now fails k db ws :
  Forall (fun w => write_key w = k) ws ->
  restrict k (fst (run_writes now fails db ws)) = fst (run_writes now fails (restrict k db) ws).
Proof.
  revert db. induction ws as [|w ws IH]; intros db Hk; [reflexivity|].
  inversion Hk as [|? ? Hw Hws]; subst. simpl.
  destruct (fails w); [reflexivity|].
  rewrite IH by exact Hws. rewrite apply_write_restrict, String.eqb_refl. reflexivity.
Qed.

(** Statements about other streams leave those of [k] alone. *)
Lemma run_writes_restrict_other now fails k db ws :
  Forall (fun w => write_key w <> k) ws ->
  restrict k (fst (run_writes now fails db ws)) = restrict k db.
Proof.
  revert db. induction ws as [|w ws IH]; intros db Hk; [reflexivity|].
  inversion Hk as [|? ? Hw Hws]; subst. simpl.
  destruct (fails w); [reflexivity|].
  rewrite IH by exact Hws. rewrite apply_write_restrict.
  apply String.eqb_neq in Hw. rewrite Hw. reflexivity.
Qed.

Lemma stream_writes_key fs now dry auto wts merged s :
  Forall (fun w => write_key w = id s) (stream_writes fs now dry auto wts merged s).
Proof.
  unfold stream_writes.
  destruct (classify fs wts merged s);
    repeat match goal with |- context [if ?b then _ else _] => destruct b end;
    repeat constructor.
Qed.

Lemma step_db fs now fails dry auto wts merged r m d s :
  snd (reconcile_stream fs now fails dry auto wts merged (r, m, d) s)
  = fst (run_writes now fails d (stream_writes fs now dry auto wts merged s)).
Proof.
  unfold reconcile_stream, stream_writes, classify.
  destruct (set_has merged (branch s)); [|destruct (negb _)];
    match goal with |- context [if ?b then run_writes _ _ _ _ else _] => destruct b end;
    split_writes; reflexivity.
Qed.

Lemma fold_restrict_other fs now fails dry auto wts merged k l st :
  Forall (fun s => id s <> k) l ->
  restrict k (snd (fold_left (reconcile_stream fs now fails dry auto wts merged) l st))
  = restrict k (snd st).
Proof.
  revert st. induction l as [|s l IH]; intros [[r m] d] Hl; [reflexivity|].
  inversion Hl as [|? ? Hs Hl']; subst. cbn [fold_left].
  rewrite IH by exact Hl'.
  destruct (reconcile_stream fs now fails dry auto wts merged (r, m, d) s) as [[r' m'] d'] eqn:E.
  pose proof (step_db fs now fails dry auto wts merged r m d s) as Hd.
  rewrite E in Hd. simpl in Hd |- *. subst d'.
  apply run_writes_restrict_other.
  eapply Forall_impl; [|apply stream_writes_key]. simpl. intros w ->. exact Hs.
Qed.

Lemma filter_single {A} (p : A -> bool) l x :
  filter p l = [x] ->
  exists l1 l2, l = (l1 ++ x :: l2)%list
                /\ Forall (fun y => p y = false) l1 /\ Forall (fun y => p y = false) l2.
Proof.
  induction l as [|y l IH]; simpl; [discriminate|].
  destruct (p y) eqn:Hy.
  - intros H. injection H as -> Hl. exists [], l. split; [reflexivity|]. split; [constructor|].
    apply Forall_forall. intros z Hz. destruct (p z) eqn:Hz'; [|reflexivity].
    assert (In z (filter p l)) by (apply filter_In; auto). rewrite Hl in H. destruct H.
  - intros H. destruct (IH H) as (l1 & l2 & -> & H1 & H2).
    exists (y :: l1), l2. split; [reflexivity|]. split; [constructor; assumption | exact H2].
Qed.

Lemma rows_of_getAllStreams k db :
  k <> "main" ->
  filter (fun s => String.eqb (id s) k) (getAllStreams db) = rows_of k db.
Proof.
  intros Hk. unfold getAllStreams, rows_of. induction (streams db) as [|s l IH]; [reflexivity|].
  simpl. destruct (String.eqb (id s) "main") eqn:Em; simpl.
  - apply String.eqb_eq in Em. rewrite IH.
    destruct (String.eqb (id s) k) eqn:Ek; [|reflexivity].
    apply String.eqb_eq in Ek. congruence.
  - destruct (String.eqb (id s) k); rewrite IH; reflexivity.
Qed.

(** The rows and events of a stream [s0] after a run are those its own
    loop iteration writes, starting from its row. *)
Lemma reconcile_row fs now fails db wts merged o s0 :
  id s0 <> "main" -> rows_of (id s0) db = [s0] ->
  restrict (id s0) (snd (reconcileWorktrees fs now fails db wts merged o))
  = fst (run_writes now fails (restrict (id s0) db)
           (stream_writes fs now (opt_default (opt_dryRun o) true)
              (opt_default (opt_autoArchiveStale o) false) wts merged s0)).
Proof.
  intros Hk Hrow. unfold reconcileWorktrees.
  change (match opt_dryRun o with Some b => b | None => true end)
    with (opt_default (opt_dryRun o) true).
  change (match opt_autoArchiveStale o with Some b => b | None => false end)
    with (opt_default (opt_autoArchiveStale o) false).
  set (dry := opt_default (opt_dryRun o) true).
  set (auto := opt_default (opt_autoArchiveStale o) false).
  set (init := mkResult [] [] [] [] [] _).
  assert (Hsplit := rows_of_getAllStreams _ db Hk). rewrite Hrow in Hsplit.
  destruct (filter_single _ _ _ Hsplit) as (l1 & l2 & Hl & H1 & H2).
  assert (Hne : forall l, Forall (fun y => String.eqb (id y) (id s0) = false) l ->
                          Forall (fun y => id y <> id s0) l).
  { intros l Hl0. eapply Forall_impl; [|exact Hl0]. intros y Hy. apply String.eqb_neq, Hy. }
  pose proof (fold_restrict_other fs now fails dry auto wts merged (id s0) l2) as Hf2.
  pose proof (fold_restrict_other fs now fails dry auto wts merged (id s0) l1
                (init, ["main"], db) (Hne _ H1)) as Hf1.
  rewrite Hl, fold_left_app. cbn [fold_left].
  destruct (fold_left (reconcile_stream fs now fails dry auto wts merged) l1
              (init, ["main"], db)) as [[r1 m1] d1].
  simpl in Hf1.
  pose proof (step_db fs now fails dry auto wts merged r1 m1 d1 s0) as Hd.
  destruct (reconcile_stream fs now fails dry auto wts merged (r1, m1, d1) s0)
    as [[r2 m2] d2].
  simpl in Hd. subst d2.
  destruct (fold_left (reconcile_stream fs now fails dry auto wts merged) l2
              (r2, m2, _)) as [[r3 m3] d3] eqn:E3.
  simpl. specialize (Hf2 (r2, m2, fst (run_writes now fails d1
           (stream_writes fs now dry auto wts merged s0))) (Hne _ H2)).
  rewrite E3 in Hf2. simpl in Hf2. rewrite Hf2.
  rewrite run_writes_restrict_same by apply stream_writes_key.
  rewrite Hf1. reflexivity.
Qed.

Lemma step_bucket fs now fails dry auto wts merged r m d s b e :
  let r' := fst (fst (reconcile_stream fs now fails dry auto wts merged (r, m, d) s)) in
  (In e (bucket b r) -> In e (bucket b r'))
  /\ In (entry_for auto (classify fs wts merged s) s) (bucket (classify fs wts merged s) r').
Proof.
  cbv zeta. unfold reconcile_stream, classify.
  destruct (set_has merged (branch s)); [|destruct (negb _)];
    split_writes; destruct b; simpl;
    (split; [intros; rewrite ?in_app_iff; auto | rewrite ?in_app_iff; simpl; auto]).
Qed.

Lemma fold_bucket_grow fs now fails dry auto wts merged l r m d b e :
  In e (bucket b r) ->
  In e (bucket b (fst (fst (fold_left (reconcile_stream fs now fails dry auto wts merged)
                                       l (r, m, d))))).
Proof.
  revert r m d. induction l as [|s l IH]; intros r m d He; [exact He|].
  cbn [fold_left].
  destruct (step_bucket fs now fails dry auto wts merged r m d s b e) as [Hg _].
  destruct (reconcile_stream fs now fails dry auto wts merged (r, m, d) s) as [[r' m'] d'].
  apply IH. apply Hg. exact He.
Qed.

Lemma collect_orphans_bucket m wts r b :
  bucket b (collect_orphans m wts r) = bucket b r.
Proof.
  unfold collect_orphans. revert r.
  induction wts as [|[k w] wts IH]; intros r; [reflexivity|].
  cbn [fold_left]. rewrite IH. destruct (_ && _); [destruct b|]; reflexivity.
Qed.

(** Every stream [getAllStreams] returns has its entry in its bucket. *)
Lemma reconcile_entry fs now fails db wts merged o s0 :
  In s0 (getAllStreams db) ->
  In (entry_for (opt_default (opt_autoArchiveStale o) false) (classify fs wts merged s0) s0)
     (bucket (classify fs wts merged s0) (fst (reconcileWorktrees fs now fails db wts merged o))).
Proof.
  intros Hin. unfold reconcileWorktrees.
  change (match opt_dryRun o with Some b => b | None => true end)
    with (opt_default (opt_dryRun o) true).
  change (match opt_autoArchiveStale o with Some b => b | None => false end)
    with (opt_default (opt_autoArchiveStale o) false).
  set (dry := opt_default (opt_dryRun o) true).
  set (auto := opt_default (opt_autoArchiveStale o) false).
  set (init := mkResult [] [] [] [] [] _).
  apply in_split in Hin as (l1 & l2 & Hl). rewrite Hl, fold_left_app. cbn [fold_left].
  destruct (fold_left (reconcile_stream fs now fails dry auto wts merged) l1
              (init, ["main"], db)) as [[r1 m1] d1].
  destruct (step_bucket fs now fails dry auto wts merged r1 m1 d1 s0
              (classify fs wts merged s0) (entry_for auto (classify fs wts merged s0) s0))
    as [_ Hnew].
  destruct (reconcile_stream fs now fails dry auto wts merged (r1, m1, d1) s0)
    as [[r2 m2] d2].
  simpl in Hnew.
  pose proof (fold_bucket_grow fs now fails dry auto wts merged l2 r2 m2 d2 _ _ Hnew) as Hg.
  destruct (fold_left (reconcile_stream fs now fails dry auto wts merged) l2 (r2, m2, d2))
    as [[r3 m3] d3].
  simpl in Hg |- *. rewrite collect_orphans_bucket. exact Hg.
Qed.

Lemma rows_in_getAllStreams db s0 :
  id s0 <> "main" -> rows_of (id s0) db = [s0] -> In s0 (getAllStreams db).
Proof.
  intros Hk Hrow. rewrite <- (rows_of_getAllStreams _ db Hk) in Hrow.
  assert (H : In s0 (filter (fun s => String.eqb (id s) (id s0)) (getAllStreams db)))
    by (rewrite Hrow; left; reflexivity).
  apply filter_In in H as [H _]. exact H.
Qed.

Lemma restrict_single k s0 db :
  rows_of k db = [s0] -> restrict k db = mkDb [s0] (hist_of k db).
Proof. intros H. unfold restrict. rewrite H. reflexivity. Qed.

(* ------------------------------------------------------------------ *)
(** ** Reconciliation: stale, merged and archived streams *)

(** C6. A stream whose branch is not merged and whose worktree is neither
    in the map nor on disk goes to the stale bucket with [newStatus]
    undefined when [autoArchiveStale] is off, and its row and history are
    left as they were, in a dry run and in a real run. *)
Theorem reconcile_stale_without_autoArchive fs now fails db wts merged o s0 :
  id s0 <> "main" -> rows_of (id s0) db = [s0] ->
  set_has merged (branch s0) = false -> map_get wts (id s0) = None ->
  fs (worktreePath s0) = false ->
  opt_default (opt_autoArchiveStale o) false = false ->
  In (mk_entry s0 None "Worktree does not exist")
     (res_stale (fst (reconcileWorktrees fs now fails db wts merged o)))
  /\ rows_of (id s0) (snd (reconcileWorktrees fs now fails db wts merged o)) = [s0]
  /\ hist_of (id s0) (snd (reconcileWorktrees fs now fails db wts merged o))
     = hist_of (id s0) db.
Proof.
  intros Hk Hrow Hm Hw Hfs Ha.
  assert (Hc : classify fs wts merged s0 = BStale)
    by (unfold classify; rewrite Hm, Hw, Hfs; reflexivity).
  pose proof (reconcile_entry fs now fails db wts merged o s0
                (rows_in_getAllStreams db s0 Hk Hrow)) as He.
  rewrite Hc, Ha in He. split; [exact He|].
  pose proof (reconcile_row fs now fails db wts merged o s0 Hk Hrow) as Hr.
  unfold stream_writes in Hr. rewrite Hc, Ha, andb_false_r in Hr.
  unfold restrict in Hr. simpl in Hr. injection Hr as Hr1 Hr2.
  rewrite Hr1, Hrow. split; [reflexivity | exact Hr2].
Qed.

Lemma reconcile_stale_without_autoArchive_witness :
  In (mk_entry (mkStream "s2" "Lost work" "feature/s2" "/wt/s2" paused "t0" None) None
        "Worktree does not exist")
     (res_stale (fst (reconcileWorktrees (fun _ => false) "t1" (fun _ => None)
        stale_sample_db [] [] (mkOptions (Some false) (Some false)))))
  /\ rows_of "s2" (snd (reconcileWorktrees (fun _ => false) "t1" (fun _ => None)
        stale_sample_db [] [] (mkOptions (Some false) (Some false))))
     = [mkStream "s2" "Lost work" "feature/s2" "/wt/s2" paused "t0" None]
  /\ hist_of "s2" (snd (reconcileWorktrees (fun _ => false) "t1" (fun _ => None)
        stale_sample_db [] [] (mkOptions (Some false) (Some false))))
     = hist_of "s2" stale_sample_db.
Proof.
  apply (reconcile_stale_without_autoArchive (fun _ => false) "t1" (fun _ => None)
           stale_sample_db [] [] (mkOptions (Some false) (Some false))
           (mkStream "s2" "Lost work" "feature/s2" "/wt/s2" paused "t0" None));
    simpl; try reflexivity; discriminate.
Defined.

(** C3, as the code has it. A stream whose branch is merged is in the
    completed bucket with [newStatus] 'completed' and reason
    "Branch merged to main", whatever the worktree map and the file system
    say. In a real run, when its status is not 'completed' and the two
    statements succeed, its row gets status 'completed', [completedAt] and
    [updatedAt] stamped, and a [status_changed] event from the old status to
    'completed' is appended to its history. *)
Theorem reconcile_merged_completed fs now fails db wts merged o s0 :
  id s0 <> "main" -> rows_of (id s0) db = [s0] ->
  set_has merged (branch s0) = true ->
  In (mk_entry s0 (Some completed) "Branch merged to main")
     (res_completed (fst (reconcileWorktrees fs now fails db wts merged o)))
  /\ (opt_dryRun o = Some false -> status s0 <> completed ->
      fails (WComplete (id s0)) = None ->
      fails (WHistory (status_changed now s0 completed)) = None ->
      rows_of (id s0) (snd (reconcileWorktrees fs now fails db wts merged o))
      = [mkStream (id s0) (title s0) (branch s0) (worktreePath s0) completed now (Some now)]
      /\ hist_of (id s0) (snd (reconcileWorktrees fs now fails db wts merged o))
         = (hist_of (id s0) db ++
            [mkEvent (id s0) "status_changed" (Some (status_text (status s0)))
               (Some "completed") now])%list).
Proof.
  intros Hk Hrow Hm.
  assert (Hc : classify fs wts merged s0 = BCompleted)
    by (unfold classify; rewrite Hm; reflexivity).
  pose proof (reconcile_entry fs now fails db wts merged o s0
                (rows_in_getAllStreams db s0 Hk Hrow)) as He.
  rewrite Hc in He. split; [exact He|].
  intros Hd Hst Hf1 Hf2.
  pose proof (reconcile_row fs now fails db wts merged o s0 Hk Hrow) as Hr.
  unfold stream_writes in Hr. rewrite Hc, Hd in Hr. simpl in Hr.
  replace (StreamStatus_eqb (status s0) completed) with false in Hr
    by (destruct (status s0); simpl; congruence).
  simpl in Hr. rewrite Hf1, Hf2 in Hr.
  unfold restrict in Hr. simpl in Hr. injection Hr as Hr1 Hr2.
  rewrite Hr1, Hr2, Hrow. simpl. rewrite String.eqb_refl. split; reflexivity.
Qed.

Lemma reconcile_merged_completed_witness :
  rows_of "s1" (snd (reconcileWorktrees (fun _ => true) "t1" (fun _ => None)
      merged_sample_db merged_sample_worktrees ["feature/s1"]
      (mkOptions (Some false) None)))
  = [mkStream "s1" "Merged work" "feature/s1" "/wt/s1" completed "t1" (Some "t1")].
Proof.
  destruct (reconcile_merged_completed (fun _ => true) "t1" (fun _ => None)
              merged_sample_db merged_sample_worktrees ["feature/s1"]
              (mkOptions (Some false) None) merged_sample_stream) as [_ H];
    [discriminate | reflexivity | reflexivity |].
  destruct H as [H _]; [reflexivity | discriminate | reflexivity | reflexivity |].
  exact H.
Defined.

(** C3 as stated fails on its reason text: the entry's reason is
    "Branch merged to main", capitalised. *)
Lemma reconcile_merged_reason_counterexample :
  map reason (res_completed (fst (reconcileWorktrees (fun _ => true) "t1" (fun _ => None)
      merged_sample_db merged_sample_worktrees ["feature/s1"]
      (mkOptions (Some false) None))))
  = ["Branch merged to main"]
  /\ "Branch merged to main" <> "branch merged to main".
Proof. split; [reflexivity | discriminate]. Qed.

(** C2 as stated fails: in a real run an archived stream whose branch is
    merged is set to 'completed'. *)
Lemma reconcile_archived_counterexample :
  map status (streams (snd (reconcileWorktrees (fun _ => false) "t1" (fun _ => None)
      archived_sample_db [] ["feature/s4"] (mkOptions (Some false) None))))
  = [completed].
Proof. reflexivity. Qed.

(** C2, as the code has it. The persisted status of an archived stream
    stays 'archived' in a dry run and when the stream is stale. In a real
    run it becomes 'completed' when its branch is merged and 'active' when
    its worktree exists and its branch is not merged, unless that update
    statement throws, in which case it stays 'archived'. *)
Theorem reconcile_archived_status fs now fails db wts merged o s0 :
  id s0 <> "main" -> rows_of (id s0) db = [s0] -> status s0 = archived ->
  ((opt_default (opt_dryRun o) true = true \/ classify fs wts merged s0 = BStale) ->
   map status (rows_of (id s0) (snd (reconcileWorktrees fs now fails db wts merged o)))
   = [archived])
  /\ (opt_default (opt_dryRun o) true = false -> classify fs wts merged s0 = BCompleted ->
      map status (rows_of (id s0) (snd (reconcileWorktrees fs now fails db wts merged o)))
      = [match fails (WComplete (id s0)) with Some _ => archived | None => completed end])
  /\ (opt_default (opt_dryRun o) true = false -> classify fs wts merged s0 = BActive ->
      map status (rows_of (id s0) (snd (reconcileWorktrees fs now fails db wts merged o)))
      = [match fails (WUpdateStatus (id s0) active) with Some _ => archived | None => active end]).
Proof.
  intros Hk Hrow Hst.
  pose proof (reconcile_row fs now fails db wts merged o s0 Hk Hrow) as Hr.
  unfold restrict in Hr. rewrite Hrow in Hr.
  apply (f_equal streams) in Hr. cbn [streams] in Hr. rewrite Hr.
  unfold stream_writes.
  destruct (opt_default (opt_dryRun o) true) eqn:Hd;
    destruct (classify fs wts merged s0) eqn:Hc; simpl; rewrite ?Hst; simpl;
    rewrite ?andb_false_r; simpl;
    repeat match goal with |- context [fails ?w] => destruct (fails w) end;
    simpl; rewrite ?String.eqb_refl; simpl; rewrite ?Hst;
    repeat split; intros;
    repeat match goal with H : _ \/ _ |- _ => destruct H end;
    first [reflexivity | discriminate | congruence].
Qed.

Lemma reconcile_archived_status_witness :
  map status (rows_of "s4" (snd (reconcileWorktrees (fun _ => false) "t1" (fun _ => None)
      archived_sample_db [] ["feature/s4"] (mkOptions (Some false) None))))
  = [completed].
Proof.
  destruct (reconcile_archived_status (fun _ => false) "t1" (fun _ => None)
              archived_sample_db [] ["feature/s4"] (mkOptions (Some false) None)
              (mkStream "s4" "Old work" "feature/s4" "/wt/s4" archived "t0" None))
    as (_ & H & _); [discriminate | reflexivity | reflexivity |].
  apply H; reflexivity.
Defined.

(* ------------------------------------------------------------------ *)
(** ** Reconciliation: buckets, rows and history (reconcileWorktrees) *)



Lemma step_counters fs now fails dry auto wts merged r m d s :
  counters_ok r ->
  let r' := fst (fst (reconcile_stream fs now fails dry auto wts merged (r, m, d) s)) in
  counters_ok r' /\ Permutation (bucket_ids r') (bucket_ids r ++ [id s]) /\
  totalInDb (summary r') = totalInDb (summary r).
Proof.
  intros Hc. unfold reconcile_stream.
  destruct r as [a c st o e [t w sa sc ss so se]]; unfold counters_ok, bucket_ids in *;
  simpl in *. destruct Hc as (H1 & H2 & H3 & H4 & H5).
  destruct (set_has merged (branch s)); [|destruct (negb _)]; split_writes; simpl;
  rewrite ?length_app, ?map_app; simpl;
  (split; [repeat split; lia|split; [|reflexivity]]);
  rewrite <- ?app_assoc; simpl;
  repeat apply Permutation_app_head; rewrite ?app_assoc;
  first [reflexivity | apply Permutation_cons_append
        | apply Permutation_app_head; apply Permutation_cons_append].
Qed.

Lemma fold_counters fs now fails dry auto wts merged l r m d :
  counters_ok r ->
  let r' := fst (fst (fold_left (reconcile_stream fs now fails dry auto wts merged) l (r, m, d))) in
  counters_ok r' /\ Permutation (bucket_ids r') (bucket_ids r ++ map id l) /\
  totalInDb (summary r') = totalInDb (summary r).
Proof.
  revert r m d. induction l as [|s l IH]; intros r m d Hc.
  - simpl. rewrite app_nil_r. auto.
  - cbn [fold_left].
    destruct (step_counters fs now fails dry auto wts merged r m d s Hc) as (Hc' & Hp & Ht).
    destruct (reconcile_stream fs now fails dry auto wts merged (r, m, d) s)
      as [[r1 m1] d1] eqn:E. simpl in Hc', Hp, Ht.
    destruct (IH r1 m1 d1 Hc') as (Hc'' & Hp' & Ht'). split; [exact Hc''|split].
    + rewrite Hp'. simpl. rewrite Hp, <- app_assoc. reflexivity.
    + rewrite Ht', Ht. reflexivity.
Qed.

Lemma collect_orphans_counters m wts r :
  counters_ok r ->
  counters_ok (collect_orphans m wts r) /\
  bucket_ids (collect_orphans m wts r) = bucket_ids r /\
  totalInDb (summary (collect_orphans m wts r)) = totalInDb (summary r).
Proof.
  unfold collect_orphans. revert r. induction wts as [|[k w] l IH]; intros r Hc.
  - simpl. auto.
  - simpl. destruct (negb (set_has m k) && negb (isMain w)).
    + destruct (IH (push_orphaned r w)) as (H1 & H2 & H3).
      { destruct r as [a c st o e [t x sa sc ss so se]]; unfold counters_ok in *;
        simpl in *. rewrite length_app. simpl. lia. }
      rewrite H2, H3. auto.
    + apply IH, Hc.
Qed.

(** Every stream [getAllStreams] returns lands in exactly one of the
    completed, stale and active buckets; each summary counter is the length
    of its list; and [totalInDb] is the sum of the three bucket counters. *)
Theorem reconcile_partition fs now fails db wts merged o :
  let r := fst (reconcileWorktrees fs now fails db wts merged o) in
  Permutation (bucket_ids r) (map id (getAllStreams db)) /\
  counters_ok r /\
  totalInDb (summary r) = (sum_completed (summary r) + sum_stale (summary r)
                           + sum_active (summary r))%Z.
Proof.
  unfold reconcileWorktrees.
  match goal with |- context [fold_left ?f ?l (?r0, ?m0, ?d0)] =>
    destruct (fold_counters fs now fails
                (match opt_dryRun o with Some b => b | None => true end)
                (match opt_autoArchiveStale o with Some b => b | None => false end)
                wts merged l r0 m0 d0) as (Hc & Hp & Ht);
    [unfold counters_ok; simpl; lia|];
    destruct (fold_left f l (r0, m0, d0)) as [[r1 m1] d1] eqn:E end.
  simpl in Hc, Hp, Ht |- *.
  destruct (collect_orphans_counters m1 wts r1 Hc) as (Hc' & Hb & Ht').
  split; [rewrite Hb, Hp; reflexivity|split; [exact Hc'|]].
  rewrite Ht', Ht. destruct Hc' as (H1 & H2 & H3 & _).
  rewrite H1, H2, H3.
  apply Permutation_length in Hp. rewrite <- Hb in Hp. unfold bucket_ids in Hp.
  rewrite length_map, !length_app, length_map in Hp. lia.
Qed.

Lemma run_writes_row_keys now fails db ws :
  row_keys (fst (run_writes now fails db ws)) = row_keys db.
Proof.
  revert db. induction ws as [|w ws IH]; intros db; [reflexivity|].
  simpl. destruct (fails w); [reflexivity|]. rewrite IH.
  destruct w; unfold row_keys, apply_write, update_rows; simpl; [| |reflexivity];
    rewrite map_map; apply map_ext; intros s; destruct (String.eqb _ _); reflexivity.
Qed.

Lemma fold_row_keys fs now fails dry auto wts merged l st :
  row_keys (snd (fold_left (reconcile_stream fs now fails dry auto wts merged) l st))
  = row_keys (snd st).
Proof.
  revert st. induction l as [|s l IH]; intros [[r m] d]; [reflexivity|].
  cbn [fold_left]. rewrite IH.
  destruct (reconcile_stream fs now fails dry auto wts merged (r, m, d) s) as [[r' m'] d'] eqn:E.
  pose proof (step_db fs now fails dry auto wts merged r m d s) as Hd.
  rewrite E in Hd. simpl in Hd |- *. subst d'. apply run_writes_row_keys.
Qed.

(** Whatever the options, [reconcileWorktrees] neither adds, removes nor
    reorders rows of [streams], never changes a row's id, title, branch or
    worktree path, and leaves the 'main' row and its history untouched. *)
Theorem reconcile_rows_preserved fs now fails db wts merged o :
  let db' := snd (reconcileWorktrees fs now fails db wts merged o) in
  row_keys db' = row_keys db /\ restrict "main" db' = restrict "main" db.
Proof.
  unfold reconcileWorktrees.
  match goal with |- context [fold_left ?f ?l ?st] =>
    pose proof (fold_row_keys fs now fails
                (match opt_dryRun o with Some b => b | None => true end)
                (match opt_autoArchiveStale o with Some b => b | None => false end)
                wts merged l st) as Hk;
    pose proof (fold_restrict_other fs now fails
                (match opt_dryRun o with Some b => b | None => true end)
                (match opt_autoArchiveStale o with Some b => b | None => false end)
                wts merged "main" l st) as Hm;
    destruct (fold_left f l st) as [[r1 m1] d1] eqn:E end.
  simpl in Hk, Hm |- *. split; [exact Hk|]. apply Hm.
  unfold getAllStreams. apply Forall_forall. intros s Hs.
  apply filter_In in Hs as [_ Hs]. intros He. rewrite He in Hs. discriminate.
Qed.

Lemma status_text_inj a b : status_text a = status_text b -> a = b.
Proof. destruct a, b; simpl; congruence. Qed.

Lemma StreamStatus_eqb_false a b : StreamStatus_eqb a b = false -> a <> b.
Proof. intros H ->. destruct b; discriminate. Qed.

Lemma run_writes_history now fails (P : StreamHistoryEvent -> Prop) db ws :
  Forall (fun w => match w with WHistory ev => P ev | _ => True end) ws ->
  exists nw, history (fst (run_writes now fails db ws)) = (history db ++ nw)%list /\ Forall P nw.
Proof.
  revert db. induction ws as [|w ws IH]; intros db Hw.
  - exists []. rewrite app_nil_r. auto.
  - inversion Hw as [|? ? Hw1 Hws]; subst. simpl. destruct (fails w).
    + exists []. rewrite app_nil_r. auto.
    + destruct (IH (apply_write now db w) Hws) as (nw & Hh & Hp). rewrite Hh.
      destruct w; simpl.
      * exists nw. auto.
      * exists nw. auto.
      * exists (ev :: nw). rewrite <- app_assoc. auto.
Qed.

Lemma stream_writes_events fs now dry auto wts merged s :
  Forall (fun w => match w with
                   | WHistory ev => reconcile_event now [s] ev | _ => True end)
    (stream_writes fs now dry auto wts merged s).
Proof.
  assert (Hev : forall st, status s <> st -> In (Some (status_text st))
                  [Some "completed"; Some "active"; Some "archived"] ->
                  reconcile_event now [s] (status_changed now s st)).
  { intros st Hne Hin. unfold reconcile_event, status_changed. simpl.
    repeat split; auto. intros Heq. injection Heq as Heq.
    apply Hne, status_text_inj, Heq. }
  unfold stream_writes.
  destruct (classify fs wts merged s);
    repeat match goal with |- context [if ?b then _ else _] => destruct b eqn:? end;
    repeat apply Forall_cons; try apply Forall_nil; try exact I;
    (apply Hev; [|cbn; tauto]);
    repeat match goal with H : (_ && _)%bool = true |- _ => apply andb_prop in H as [? ?] end;
    repeat match goal with H : negb _ = true |- _ => apply negb_true_iff in H end;
    eauto using StreamStatus_eqb_false.
Qed.

Lemma reconcile_event_mono now l l' ev :
  incl l l' -> reconcile_event now l ev -> reconcile_event now l' ev.
Proof.
  intros Hi (H1 & H2 & H3 & H4 & H5). repeat split; auto.
  apply in_map_iff in H4 as (s & <- & Hs). apply in_map, Hi, Hs.
Qed.

Lemma fold_history fs now fails dry auto wts merged l st :
  exists nw,
    history (snd (fold_left (reconcile_stream fs now fails dry auto wts merged) l st))
    = (history (snd st) ++ nw)%list /\ Forall (reconcile_event now l) nw.
Proof.
  revert st. induction l as [|s l IH]; intros [[r m] d].
  - exists []. rewrite app_nil_r. auto.
  - cbn [fold_left].
    destruct (reconcile_stream fs now fails dry auto wts merged (r, m, d) s) as [[r' m'] d'] eqn:E.
    pose proof (step_db fs now fails dry auto wts merged r m d s) as Hd.
    rewrite E in Hd. simpl in Hd.
    destruct (run_writes_history now fails _ d _ (stream_writes_events fs now dry auto wts merged s))
      as (nw1 & H1 & P1).
    destruct (IH (r', m', d')) as (nw2 & H2 & P2). simpl in H2.
    exists (nw1 ++ nw2)%list. rewrite H2, Hd, H1, app_assoc. split; [reflexivity|].
    apply Forall_app. split.
    + eapply Forall_impl; [|exact P1]. intros ev. apply reconcile_event_mono.
      intros x [<-|[]]. left. reflexivity.
    + eapply Forall_impl; [|exact P2]. intros ev. apply reconcile_event_mono.
      intros x Hx. right. exact Hx.
Qed.

(** [reconcileWorktrees] only appends to [stream_history], and each event
    it appends is a 'status_changed' event stamped [now], for a stream
    [getAllStreams] returned, whose new value ('completed', 'active' or
    'archived') differs from its old value. *)
Theorem reconcile_history_appended fs now fails db wts merged o :
  exists nw,
    history (snd (reconcileWorktrees fs now fails db wts merged o)) = (history db ++ nw)%list /\
    Forall (reconcile_event now (getAllStreams db)) nw.
Proof.
  unfold reconcileWorktrees.
  match goal with |- context [fold_left ?f ?l ?st] =>
    destruct (fold_history fs now fails
                (match opt_dryRun o with Some b => b | None => true end)
                (match opt_autoArchiveStale o with Some b => b | None => false end)
                wts merged l st) as (nw & Hh & Hp);
    destruct (fold_left f l st) as [[r1 m1] d1] eqn:E end.
  exists nw. simpl in Hh |- *. auto.
Qed.

(* ------------------------------------------------------------------ *)
(** ** Merged branches (getMergedBranches) *)



Lemma list_ascii_of_string_app x y :
  list_ascii_of_string (x ++ y) = (list_ascii_of_string x ++ list_ascii_of_string y)%list.
Proof. induction x as [|c x IH]; simpl; [reflexivity|]. now rewrite IH. Qed.

Lemma string_of_list_ascii_app (a b : list ascii) :
  string_of_list_ascii (a ++ b) = string_of_list_ascii a ++ string_of_list_ascii b.
Proof. induction a as [|c a IH]; simpl; [reflexivity|]. now rewrite IH. Qed.

Lemma str_app_nil_r s : s ++ "" = s.
Proof. induction s as [|c s IH]; simpl; [reflexivity|]. now rewrite IH. Qed.

Lemma str_app_assoc x y z : x ++ y ++ z = (x ++ y) ++ z.
Proof. induction x as [|c x IH]; simpl; [reflexivity|]. now rewrite IH. Qed.

Lemma string_rev_app x y : string_rev (x ++ y) = string_rev y ++ string_rev x.
Proof.
  unfold string_rev. rewrite list_ascii_of_string_app, rev_app_distr.
  apply string_of_list_ascii_app.
Qed.

Lemma string_rev_involutive s : string_rev (string_rev s) = s.
Proof.
  unfold string_rev. rewrite list_ascii_of_string_of_list_ascii, rev_involutive.
  apply string_of_list_ascii_of_string.
Qed.

Lemma string_rev_single c : string_rev (String c "") = String c "".
Proof. reflexivity. Qed.

Lemma trim_start_app x y :
  has_nonws x = true -> trim_start (x ++ y) = trim_start x ++ y.
Proof.
  induction x as [|c x IH]; simpl; [discriminate|].
  destruct (is_ws c); simpl; [apply IH|reflexivity].
Qed.

Lemma ends_nonws_app x y : y <> "" -> ends_nonws (x ++ y) = ends_nonws y.
Proof.
  intros Hy. unfold ends_nonws. rewrite string_rev_app.
  destruct (string_rev y) eqn:E; [|reflexivity].
  exfalso. apply Hy. rewrite <- (string_rev_involutive y), E. reflexivity.
Qed.

Lemma trim_end_id s :
  ends_nonws s = true -> string_rev (trim_start (string_rev s)) = s.
Proof.
  unfold ends_nonws. destruct (string_rev s) as [|c s'] eqn:E; [discriminate|].
  intros Hc. simpl. apply negb_true_iff in Hc. rewrite Hc, <- E.
  apply string_rev_involutive.
Qed.

Lemma trim_start_suffix x : exists w, x = w ++ trim_start x.
Proof.
  induction x as [|c x IH]; simpl; [exists ""; reflexivity|].
  destruct (is_ws c).
  - destruct IH as [w Hw]. exists (String c w). simpl. congruence.
  - exists "". reflexivity.
Qed.

Lemma trim_start_nonempty x : has_nonws x = true -> trim_start x <> "".
Proof.
  induction x as [|c x IH]; simpl; [discriminate|].
  destruct (is_ws c); simpl; [apply IH|discriminate].
Qed.

(** [trim] drops the leading blanks of the first part when that part holds
    a kept character and the whole text ends with one. *)
Lemma trim_app x y :
  has_nonws x = true -> ends_nonws (x ++ y) = true -> trim (x ++ y) = trim_start x ++ y.
Proof.
  intros Hx He. unfold trim. rewrite trim_start_app by exact Hx.
  apply trim_end_id.
  destruct (string_dec y "") as [->|Hy].
  - rewrite str_app_nil_r in *. destruct (trim_start_suffix x) as [w Hw].
    rewrite Hw, ends_nonws_app in He by (apply trim_start_nonempty, Hx). exact He.
  - rewrite ends_nonws_app in * by exact Hy. exact He.
Qed.

Lemma split_on_noc c x : has_char c x = false -> split_on c x = [x].
Proof.
  induction x as [|a x IH]; simpl; [reflexivity|].
  intros H. apply orb_false_iff in H as [H1 H2]. rewrite H1, IH by exact H2.
  reflexivity.
Qed.

Lemma split_on_app c x y :
  has_char c x = false -> split_on c (x ++ String c y) = x :: split_on c y.
Proof.
  induction x as [|a x IH]; simpl; intros H.
  - rewrite Ascii.eqb_refl. reflexivity.
  - apply orb_false_iff in H as [H1 H2]. rewrite H1, IH by exact H2. reflexivity.
Qed.

(** [ls.join('\n')] split again on the newline. *)
Lemma split_on_concat c ls :
  ls <> [] -> Forall (fun l => has_char c l = false) ls ->
  split_on c (String.concat (String c "") ls) = ls.
Proof.
  induction ls as [|l ls IH]; intros Hne Hf; [congruence|].
  inversion Hf as [|? ? Hl Hls]; subst. destruct ls as [|l' ls].
  - simpl. apply split_on_noc, Hl.
  - change (String.concat (String c "") (l :: l' :: ls))
      with (l ++ String c "" ++ String.concat (String c "") (l' :: ls)).
    simpl. rewrite split_on_app by exact Hl. f_equal. apply IH; [discriminate|exact Hls].
Qed.

Lemma set_has_In s x : set_has s x = true <-> In x s.
Proof.
  unfold set_has. rewrite existsb_exists. split.
  - intros (y & Hy & He). apply String.eqb_eq in He. subst. exact Hy.
  - intros Hx. exists x. split; [exact Hx|apply String.eqb_refl].
Qed.

Lemma fold_merged_line lines acc :
  NoDup acc ->
  NoDup (fold_left merged_line lines acc) /\
  (forall y, In y (fold_left merged_line lines acc) <->
             In y acc \/ In y (filter (fun b => negb (String.eqb b "") && negb (String.eqb b "main")
                                               && negb (String.eqb b "master"))
                                  (map (fun l => strip_star (trim l)) lines))).
Proof.
  revert acc. induction lines as [|l lines IH]; intros acc Hnd.
  - simpl. split; [exact Hnd|tauto].
  - cbn [fold_left map filter].
    set (b := strip_star (trim l)).
    assert (Hm : merged_line acc l =
                 if negb (b =? "") && negb (b =? "main") && negb (b =? "master")
                 then set_add acc b else acc) by reflexivity.
    rewrite Hm.
    destruct (negb (b =? "") && negb (b =? "main") && negb (b =? "master")) eqn:Hk.
    + unfold set_add. destruct (set_has acc b) eqn:Hs.
      * destruct (IH acc Hnd) as [H1 H2]. split; [exact H1|].
        intros y. rewrite H2. simpl. apply set_has_In in Hs.
        split; [tauto|]. intros [Hy|[<-|Hy]]; tauto.
      * assert (Hnd' : NoDup (acc ++ [b])%list).
        { apply NoDup_app; [exact Hnd|constructor; [intros []|constructor]|].
          intros x Hx [Hb|[]]. rewrite <- Hb in Hx. apply set_has_In in Hx. congruence. }
        destruct (IH _ Hnd') as [H1 H2]. split; [exact H1|].
        intros y. rewrite H2, in_app_iff. simpl. tauto.
    + destruct (IH acc Hnd) as [H1 H2]. split; [exact H1|]. exact H2.
Qed.

(** Whatever git prints, [getMergedBranches] returns branch names without
    repetition, none of them empty, 'main' or 'master'; when the git command
    throws it returns the empty set. *)
Theorem getMergedBranches_names out :
  NoDup (getMergedBranches out) /\ Forall merged_name_ok (getMergedBranches out) /\
  (out = None -> getMergedBranches out = []).
Proof.
  destruct out as [output|]; [|repeat split; constructor].
  simpl. destruct (fold_merged_line (split_on "010" (trim output)) [] (NoDup_nil _)) as [H1 H2].
  split; [exact H1|split; [|discriminate]].
  apply Forall_forall. intros y Hy. apply H2 in Hy as [[]|Hy].
  apply filter_In in Hy as [_ Hy].
  repeat (apply andb_prop in Hy as [Hy ?]).
  repeat match goal with H : negb _ = true |- _ => apply negb_true_iff, String.eqb_neq in H end.
  repeat split; assumption.
Qed.

Lemma trim_start_idem x : trim_start (trim_start x) = trim_start x.
Proof.
  induction x as [|c x IH]; simpl; [reflexivity|].
  destruct (is_ws c) eqn:E; [exact IH|simpl; rewrite E; reflexivity].
Qed.

Lemma trim_trim_start x : trim (trim_start x) = trim x.
Proof. unfold trim. rewrite trim_start_idem. reflexivity. Qed.

Lemma ends_nonws_nonempty y : ends_nonws y = true -> y <> "".
Proof. intros H ->. discriminate. Qed.

Lemma ends_nonws_app_r x y : ends_nonws y = true -> ends_nonws (x ++ y) = true.
Proof.
  intros H. rewrite ends_nonws_app by (apply ends_nonws_nonempty, H). exact H.
Qed.

Lemma ends_nonws_no_ws b : b <> "" -> no_ws b = true -> ends_nonws b = true.
Proof.
  induction b as [|c b IH]; [congruence|]. intros _ H. simpl in H.
  apply andb_prop in H as [Hc Hb]. destruct (string_dec b "") as [->|Hne].
  - unfold ends_nonws. simpl. exact Hc.
  - change (String c b) with (String c "" ++ b). apply ends_nonws_app_r, IH; assumption.
Qed.

Lemma trim_start_no_ws_head c s : is_ws c = false -> trim_start (String c s) = String c s.
Proof. simpl. intros ->. reflexivity. Qed.

Lemma trim_id s : has_nonws s = true -> trim_start s = s -> ends_nonws s = true -> trim s = s.
Proof.
  intros Hn Hs He. rewrite <- (str_app_nil_r s) at 1.
  rewrite trim_app by (rewrite ?str_app_nil_r; assumption).
  rewrite Hs. apply str_app_nil_r.
Qed.

Lemma no_ws_has_nonws b : b <> "" -> no_ws b = true -> has_nonws b = true.
Proof.
  destruct b as [|c b]; [congruence|]. simpl. intros _ H.
  apply andb_prop in H as [H _]. rewrite H. reflexivity.
Qed.

Lemma no_ws_trim_start b : no_ws b = true -> trim_start b = b.
Proof.
  destruct b as [|c b]; [reflexivity|]. simpl. intros H.
  apply andb_prop in H as [H _]. apply negb_true_iff in H. rewrite H. reflexivity.
Qed.

Lemma strip_star_other c s : c <> "*"%char -> strip_star (String c s) = String c s.
Proof.
  intros H. unfold strip_star.
  destruct c as [[] [] [] [] [] [] [] []]; try reflexivity. exfalso. apply H. reflexivity.
Qed.

Lemma line_value mb :
  branch_name_ok (snd mb) -> strip_star (trim (branch_line mb)) = listed_name mb.
Proof.
  destruct mb as [m b]. intros (Hne & Hws & Hstar). unfold branch_line, listed_name; simpl in *.
  assert (Hend : forall p, ends_nonws (p ++ b) = true)
    by (intros p; apply ends_nonws_app_r, ends_nonws_no_ws; assumption).
  destruct m; simpl.
  - rewrite <- (str_app_nil_r (String " " (String " " b))).
    rewrite trim_app;
      [|simpl; apply no_ws_has_nonws; assumption
       |rewrite str_app_nil_r; apply (Hend "  ")].
    simpl. rewrite no_ws_trim_start, str_app_nil_r by exact Hws.
    destruct b as [|c b]; [congruence|]. simpl in Hstar |- *.
    apply orb_false_iff in Hstar as [Hc _]. apply strip_star_other.
    intros ->. discriminate.
  - rewrite trim_id by (simpl; auto; apply (Hend "* ")). simpl.
    destruct b as [|c b]; [congruence|]. simpl in Hws |- *.
    apply andb_prop in Hws as [Hc _]. apply negb_true_iff in Hc. rewrite Hc. reflexivity.
  - rewrite trim_id by (simpl; auto; apply (Hend "+ ")). reflexivity.
Qed.

Lemma concat_cons sep x r :
  String.concat sep (x :: r) =
  x ++ match r with [] => "" | _ => sep ++ String.concat sep r end.
Proof. destruct r; simpl; [rewrite str_app_nil_r|]; reflexivity. Qed.

Lemma ends_nonws_concat sep ls :
  ls <> [] -> Forall (fun l => ends_nonws l = true) ls ->
  ends_nonws (String.concat sep ls) = true.
Proof.
  induction ls as [|l ls IH]; intros Hne Hf; [congruence|].
  inversion Hf as [|? ? Hl Hls]; subst. rewrite concat_cons.
  destruct ls as [|l' ls]; [rewrite str_app_nil_r; exact Hl|].
  rewrite str_app_assoc. apply ends_nonws_app_r, IH; [discriminate|exact Hls].
Qed.

Lemma has_char_app c x y : has_char c (x ++ y) = has_char c x || has_char c y.
Proof. induction x as [|a x IH]; simpl; [reflexivity|]. rewrite IH. apply orb_assoc. Qed.

Lemma has_char_trim_start c x : has_char c x = false -> has_char c (trim_start x) = false.
Proof.
  destruct (trim_start_suffix x) as [w Hw]. rewrite Hw at 1. rewrite has_char_app.
  intros H. apply orb_false_iff in H. apply H.
Qed.

Lemma has_nonws_app_r x y : has_nonws y = true -> has_nonws (x ++ y) = true.
Proof. induction x as [|a x IH]; simpl; [auto|]. intros H. rewrite IH by exact H. apply orb_true_r. Qed.

Lemma no_ws_no_nl b : no_ws b = true -> has_char "010" b = false.
Proof.
  induction b as [|c b IH]; simpl; [reflexivity|]. intros H.
  apply andb_prop in H as [Hc Hb]. rewrite IH by exact Hb.
  destruct (Ascii.eqb c "010") eqn:E; [|reflexivity].
  apply Ascii.eqb_eq in E. subst. discriminate.
Qed.

Lemma branch_lines_split bs :
  bs <> [] -> Forall (fun mb => branch_name_ok (snd mb)) bs ->
  map (fun l => strip_star (trim l))
      (split_on "010" (trim (String.concat nl (map branch_line bs))))
  = map listed_name bs.
Proof.
  intros Hne Hok. destruct bs as [|mb0 rest]; [congruence|].
  inversion Hok as [|? ? H0 Hrest]; subst.
  assert (Hline : forall mb, branch_name_ok (snd mb) ->
            has_nonws (branch_line mb) = true /\ ends_nonws (branch_line mb) = true /\
            has_char "010" (branch_line mb) = false).
  { intros [m b] (Hb & Hws & _). simpl in *. unfold branch_line. simpl.
    split; [apply has_nonws_app_r, no_ws_has_nonws; assumption|split].
    - apply ends_nonws_app_r, ends_nonws_no_ws; assumption.
    - rewrite has_char_app, (no_ws_no_nl b Hws). destruct m; reflexivity. }
  destruct (Hline mb0 H0) as (Hn0 & _ & Hc0).
  assert (Hall : Forall (fun l => ends_nonws l = true /\ has_char "010" l = false)
                   (map branch_line (mb0 :: rest))).
  { apply Forall_map. eapply Forall_impl; [|exact Hok]. intros mb Hmb.
    destruct (Hline mb Hmb) as (_ & ? & ?). auto. }
  rewrite map_cons, concat_cons. rewrite trim_app; cycle 1.
  - exact Hn0.
  - rewrite <- concat_cons. apply ends_nonws_concat; [discriminate|].
    eapply Forall_impl; [|exact Hall]. intros ? []; assumption.
  - rewrite <- concat_cons, split_on_concat; [|discriminate|].
    + simpl. rewrite trim_trim_start, line_value by exact H0. f_equal.
      rewrite map_map. apply map_ext_in. intros mb Hmb. apply line_value.
      rewrite Forall_forall in Hrest. apply Hrest, Hmb.
    + inversion Hall as [|? ? _ Hall']; subst. constructor.
      * apply has_char_trim_start, Hc0.
      * eapply Forall_impl; [|exact Hall']. intros ? []; assumption.
Qed.

(** On the listing [git branch --merged main] prints (one branch per line,
    marked by two blanks, '* ' for the current branch or '+ ' for a branch
    checked out in another worktree), [getMergedBranches] returns each
    listed branch once, except 'main' and 'master': a plain or current
    branch under its name, and a branch marked '+ ' under its name with the
    marker kept, since only a leading '*' is removed. *)
Theorem getMergedBranches_listing bs :
  Forall (fun mb => branch_name_ok (snd mb)) bs ->
  let r := getMergedBranches (Some (String.concat nl (map branch_line bs))) in
  NoDup r /\
  forall x, In x r <-> exists mb, In mb bs /\ x = listed_name mb /\ x <> "main" /\ x <> "master".
Proof.
  intros Hok. destruct bs as [|mb0 rest].
  { simpl. split; [constructor|]. intros x. split; [intros []|intros (mb & [] & _)]. }
  simpl getMergedBranches.
  destruct (fold_merged_line (split_on "010" (trim (String.concat nl (map branch_line (mb0 :: rest))))) []
              (NoDup_nil _)) as [Hnd Hin].
  split; [exact Hnd|]. intros x. rewrite Hin, branch_lines_split by (discriminate || exact Hok).
  rewrite filter_In, in_map_iff. split.
  - intros [[]|((mb & <- & Hmb) & Hk)]. exists mb. split; [exact Hmb|split; [reflexivity|]].
    apply andb_prop in Hk as [Hk Hm]. apply andb_prop in Hk as [_ Hk].
    apply negb_true_iff, String.eqb_neq in Hk, Hm. auto.
  - intros (mb & Hmb & -> & Hm & Hms). right. split; [exists mb; auto|].
    assert (Hne : listed_name mb <> "").
    { rewrite Forall_forall in Hok. destruct (Hok mb Hmb) as (Hb & _).
      destruct mb as [[] b]; simpl in *; try exact Hb; discriminate. }
    apply String.eqb_neq in Hne, Hm, Hms. rewrite Hne, Hm, Hms. reflexivity.
Qed.

(* ------------------------------------------------------------------ *)
(** ** Worktree list (getWorktreeList) *)



Lemma map_set_keys m k v :
  map fst (map_set m k v) = if existsb (fun kv => String.eqb k (fst kv)) m
                            then map fst m else (map fst m ++ [k])%list.
Proof.
  induction m as [|[k' v'] m IH]; simpl; [reflexivity|].
  destruct (String.eqb k k'); simpl; [reflexivity|].
  rewrite IH. destruct (existsb _ m); reflexivity.
Qed.

Lemma map_set_in m k v k0 w0 :
  In (k0, w0) (map_set m k v) -> In (k0, w0) m \/ (k0, w0) = (k, v).
Proof.
  induction m as [|[k' v'] m IH]; simpl; [intuition|].
  destruct (String.eqb k k') eqn:E; simpl.
  - apply String.eqb_eq in E. subst. intros [H|H]; [right; congruence|auto].
  - intros [H|H]; [auto|]. destruct (IH H); auto.
Qed.

Lemma map_set_nodup m k v : NoDup (map fst m) -> NoDup (map fst (map_set m k v)).
Proof.
  intros Hnd. rewrite map_set_keys. destruct (existsb _ m) eqn:E; [exact Hnd|].
  apply NoDup_app; [exact Hnd|repeat constructor; intros []|].
  intros x Hx [Hkx|[]]. subst x.
  apply in_map_iff in Hx as ([k' v'] & Hk & Hin). simpl in Hk. subst k'.
  assert (existsb (fun kv => String.eqb k (fst kv)) m = true).
  { apply existsb_exists. exists (k, v'). split; [exact Hin|apply String.eqb_refl]. }
  congruence.
Qed.

Lemma entry_info_ok e k w : entry_info e = Some (k, w) -> worktree_entry_ok (k, w).
Proof.
  unfold entry_info. destruct (fold_left _ _ _) as [[p h] b].
  destruct (negb (p =? "") && negb (b =? "")) eqn:E; [|discriminate].
  intros H. injection H as <- <-. apply andb_prop in E as [Hp Hb].
  apply negb_true_iff, String.eqb_neq in Hp, Hb. simpl. auto.
Qed.

(** Whatever git prints, the map [getWorktreeList] returns has each key
    once, and every entry has a non-empty path and branch, is tagged
    [isMain] exactly when its branch is 'main' or 'master', and is keyed
    'main' if so and by the base name of its path otherwise. When the git
    command throws the map is empty. *)
Theorem getWorktreeList_entries out :
  NoDup (map fst (getWorktreeList out)) /\
  Forall worktree_entry_ok (getWorktreeList out) /\
  (out = None -> getWorktreeList out = []).
Proof.
  destruct out as [output|]; [|repeat split; constructor].
  simpl. split; [|split; [|discriminate]].
  - assert (G : forall l m, NoDup (map fst m) -> NoDup (map fst (fold_left wt_set l m))).
    { induction l as [|e l IH]; intros m Hm; simpl; [exact Hm|].
      apply IH. unfold wt_set. destruct (entry_info e) as [[k v]|]; [apply map_set_nodup|]; exact Hm. }
    apply G. constructor.
  - apply Forall_forall.
    assert (G : forall l m kw, (forall kw, In kw m -> worktree_entry_ok kw) ->
               In kw (fold_left wt_set l m) -> worktree_entry_ok kw).
    { induction l as [|e l IH]; intros m kw Hm Hin; simpl in Hin; [auto|].
      apply (IH (wt_set m e) kw); [|exact Hin]. intros [k0 w0] H0. unfold wt_set in H0.
      destruct (entry_info e) as [[k v]|] eqn:Ee; [|auto].
      destruct (map_set_in _ _ _ _ _ H0) as [H1|H1]; [auto|].
      injection H1 as -> ->. eapply entry_info_ok, Ee. }
    intros kw Hin. apply (G _ _ _ (fun _ (H : In _ []) => match H with end) Hin).
Qed.

Lemma map_get_set m k v k0 :
  map_get (map_set m k v) k0 = if String.eqb k0 k then Some v else map_get m k0.
Proof.
  induction m as [|[k' v'] m IH]; simpl; [reflexivity|].
  destruct (String.eqb k k') eqn:E; simpl.
  - apply String.eqb_eq in E. subst. destruct (String.eqb k0 k'); reflexivity.
  - rewrite IH. destruct (String.eqb k0 k) eqn:E0; [|reflexivity].
    apply String.eqb_eq in E0. subst.
    rewrite E. reflexivity.
Qed.

Lemma find_app {A} (p : A -> bool) a b :
  find p (a ++ b) = match find p a with Some x => Some x | None => find p b end.
Proof. induction a as [|x a IH]; simpl; [reflexivity|]. destruct (p x); auto. Qed.

(** A lookup in the map [getWorktreeList] returns yields the worktree of
    the last entry of the output that was given that key: when several
    worktrees share a key (two worktree directories with the same name, or
    a linked worktree in a directory named 'main'), the later one replaces
    the earlier. *)
Theorem getWorktreeList_lookup output k :
  map_get (getWorktreeList (Some output)) k =
  option_map snd (find (fun kv => String.eqb (fst kv) k)
                       (rev (flat_map entry_sets (split_nn (trim output))))).
Proof.
  simpl. generalize (split_nn (trim output)) as l.
  assert (G : forall l m,
    map_get (fold_left wt_set l m) k =
    match find (fun kv => String.eqb (fst kv) k) (rev (flat_map entry_sets l)) with
    | Some kv => Some (snd kv) | None => map_get m k end).
  { induction l as [|e l IH]; intros m; simpl; [reflexivity|].
    rewrite IH, rev_app_distr, find_app.
    destruct (find _ (rev (flat_map entry_sets l))); [reflexivity|].
    unfold wt_set, entry_sets. destruct (entry_info e) as [[k' v]|]; simpl; [|reflexivity].
    rewrite map_get_set, String.eqb_sym. destruct (String.eqb k' k); reflexivity. }
  intros l. rewrite G. destruct (find _ _); reflexivity.
Qed.

(* ------------------------------------------------------------------ *)
(** ** Commit logs as git prints them (getWorktreeCommits) *)



Section LogRoundTrip.

Variable to_iso : string -> option string.
Variable sid : string.

Lemma parse_lines_app st l1 l2 :
  parse_lines to_iso sid st (l1 ++ l2) =
  match parse_lines to_iso sid st l1 with Some st' => parse_lines to_iso sid st' l2 | None => None end.
Proof.
  revert st. induction l1 as [|l l1 IH]; intros st; simpl; [reflexivity|].
  destruct (parse_line to_iso sid st l); [apply IH|reflexivity].
Qed.

Lemma parse_plain_lines st ls :
  Forall field_ok ls ->
  parse_lines to_iso sid st ls =
  Some (mkParse (p_commits st) (p_heap st) (p_current st) (p_filesChanged st + numstat_count ls)).
Proof.
  revert st. induction ls as [|l ls IH]; intros st Hf; simpl.
  - destruct st; simpl. rewrite Nat.add_0_r. reflexivity.
  - inversion Hf as [|? ? [Hl _] Hls]; subst. unfold parse_line. rewrite Hl.
    unfold numstat_count. simpl.
    destruct (numstat_line l || binary_line l); simpl; rewrite IH by exact Hls; simpl;
      f_equal; f_equal; unfold numstat_count; lia.
Qed.

Lemma split_header e :
  Forall field_ok [le_hash e; le_author e; le_date e; le_subject e] ->
  split_on "|" (log_header e) = [le_hash e; le_author e; le_date e; le_subject e; ""].
Proof.
  intros Hf. inversion Hf as [|? ? [H1 _] Hf1]; subst.
  inversion Hf1 as [|? ? [H2 _] Hf2]; subst.
  inversion Hf2 as [|? ? [H3 _] Hf3]; subst.
  inversion Hf3 as [|? ? [H4 _] _]; subst.
  unfold log_header. cbn [append]. rewrite !split_on_app by assumption. reflexivity.
Qed.

Lemma has_char_header e : has_char "|" (log_header e) = true.
Proof.
  unfold log_header. rewrite has_char_app. simpl. apply orb_true_r.
Qed.

Lemma parse_header st e :
  log_entry_ok to_iso e ->
  parse_line to_iso sid st (log_header e) =
  Some (mkParse (p_commits (flush st)) (p_heap (flush st) ++ [exp0 to_iso sid e])
          (Some (length (p_heap (flush st)))) 0).
Proof.
  intros (Hf & _ & Hd). unfold parse_line. rewrite has_char_header, split_header by exact Hf.
  simpl. destruct (to_iso (trim (le_date e))) as [ts|] eqn:E; [|congruence].
  unfold exp0, expected_commit, set_filesChanged. simpl. rewrite E. reflexivity.
Qed.

Lemma update_at {A} (f : A -> A) n l x :
  n = length l -> update_nth f n (l ++ [x])%list = (l ++ [f x])%list.
Proof.
  intros ->. induction l as [|y l IH]; simpl; [reflexivity|]. rewrite IH. reflexivity.
Qed.

Lemma flush_inv done cur :
  flush (inv_state to_iso sid done cur) =
  mkParse (seq 0 (S (length done))) (map (expected_commit to_iso sid) (done ++ [cur]))
    (Some (length done)) (numstat_count (le_lines cur)).
Proof.
  unfold flush, inv_state. cbn [p_current p_commits p_heap p_filesChanged].
  rewrite seq_S, map_app.
  rewrite update_at by (rewrite length_map; reflexivity). reflexivity.
Qed.

Lemma parse_block_step done cur e :
  log_entry_ok to_iso e ->
  parse_lines to_iso sid (inv_state to_iso sid done cur) (log_block e) = Some (inv_state to_iso sid (done ++ [cur]) e).
Proof.
  intros He. unfold log_block. simpl. rewrite parse_header by exact He.
  rewrite flush_inv. simpl. rewrite parse_plain_lines by apply He. simpl.
  unfold inv_state. rewrite length_app, length_map, length_app. simpl.
  rewrite Nat.add_1_r. reflexivity.
Qed.

Lemma parse_blocks done cur es e :
  Forall (log_entry_ok to_iso) (es ++ [e]) ->
  parse_lines to_iso sid (inv_state to_iso sid done cur) (flat_map log_block (es ++ [e])) =
  Some (inv_state to_iso sid (done ++ cur :: es) e).
Proof.
  revert done cur. induction es as [|e0 es IH]; intros done cur Hf.
  - simpl. rewrite app_nil_r. apply parse_block_step. inversion Hf; assumption.
  - inversion Hf as [|? ? H0 Hf']; subst. cbn [app flat_map]. rewrite parse_lines_app.
    rewrite parse_block_step by exact H0. rewrite IH by exact Hf'.
    rewrite <- app_assoc. reflexivity.
Qed.

Lemma parse_first e :
  log_entry_ok to_iso e ->
  parse_lines to_iso sid (mkParse [] [] None 0) (log_block e) = Some (inv_state to_iso sid [] e).
Proof.
  intros He. unfold log_block. simpl. rewrite parse_header by exact He. simpl.
  rewrite parse_plain_lines by apply He. reflexivity.
Qed.

Lemma map_nth_seq {A} (l : list A) d : map (fun i => nth i l d) (seq 0 (length l)) = l.
Proof.
  induction l as [|x l IH]; simpl; [reflexivity|]. f_equal.
  rewrite <- seq_shift, map_map. exact IH.
Qed.

Lemma resolve_flush_inv done cur :
  resolve (flush (inv_state to_iso sid done cur)) = map (expected_commit to_iso sid) (done ++ [cur]).
Proof.
  rewrite flush_inv. unfold resolve. cbn [p_commits p_heap].
  replace (S (length done)) with (length (map (expected_commit to_iso sid) (done ++ [cur])))
    by (rewrite length_map, length_app; simpl; lia).
  apply map_nth_seq.
Qed.

End LogRoundTrip.

Lemma trim_start_all_ws w x : all_ws w = true -> trim_start (w ++ x) = trim_start x.
Proof.
  induction w as [|c w IH]; simpl; [reflexivity|]. intros H.
  apply andb_prop in H as [Hc Hw]. rewrite Hc. apply IH, Hw.
Qed.

Lemma all_ws_app x y : all_ws (x ++ y) = all_ws x && all_ws y.
Proof. induction x as [|c x IH]; simpl; [reflexivity|]. rewrite IH. apply andb_assoc. Qed.

Lemma all_ws_rev w : all_ws w = true -> all_ws (string_rev w) = true.
Proof.
  induction w as [|c w IH]; simpl; [reflexivity|]. intros H.
  apply andb_prop in H as [Hc Hw].
  change (String c w) with (String c "" ++ w). rewrite string_rev_app, all_ws_app, IH by exact Hw.
  simpl. rewrite Hc. reflexivity.
Qed.

Lemma ends_nonws_has_nonws x : ends_nonws x = true -> has_nonws x = true.
Proof.
  unfold ends_nonws. destruct (string_rev x) as [|c r] eqn:E; [discriminate|]. intros Hc.
  rewrite <- (string_rev_involutive x), E.
  change (String c r) with (String c "" ++ r). rewrite string_rev_app.
  apply has_nonws_app_r. simpl. rewrite Hc. reflexivity.
Qed.

Lemma trim_trailing_ws x w :
  ends_nonws x = true -> all_ws w = true -> trim (x ++ w) = trim_start x.
Proof.
  intros Hx Hw. unfold trim.
  rewrite trim_start_app by (apply ends_nonws_has_nonws, Hx).
  rewrite string_rev_app, trim_start_all_ws by (apply all_ws_rev, Hw).
  apply trim_end_id. destruct (trim_start_suffix x) as [w0 Hw0].
  assert (Hne : trim_start x <> "") by (apply trim_start_nonempty, ends_nonws_has_nonws, Hx).
  rewrite Hw0, ends_nonws_app in Hx by exact Hne. exact Hx.
Qed.

Lemma trim_start_before x c y :
  is_ws c = false -> trim_start (x ++ String c y) = trim_start x ++ String c y.
Proof.
  intros Hc. induction x as [|a x IH]; simpl; [rewrite Hc; reflexivity|].
  destruct (is_ws a); [exact IH|reflexivity].
Qed.

Lemma trim_start_header e : trim_start (log_header e) = log_header (set_hash e (trim_start (le_hash e))).
Proof. unfold log_header. simpl. apply trim_start_before. reflexivity. Qed.

Lemma render_log_cons e es :
  render_log (e :: es) =
  log_header e ++ match (le_lines e ++ flat_map log_block es)%list with
                  | [] => "" | _ => nl ++ String.concat nl (le_lines e ++ flat_map log_block es) end.
Proof. unfold render_log. cbn [flat_map]. unfold log_block at 1. rewrite <- app_comm_cons, concat_cons. reflexivity. Qed.

Lemma has_nonws_header e : has_nonws (log_header e) = true.
Proof.
  unfold log_header. apply has_nonws_app_r. simpl. reflexivity.
Qed.

Lemma set_hash_ok to_iso e :
  log_entry_ok to_iso e -> log_entry_ok to_iso (set_hash e (trim_start (le_hash e))).
Proof.
  intros (Hf & Hl & Hd). split; [|split; assumption].
  inversion Hf as [|? ? [H1 H1'] Hf1]; subst. constructor; [|exact Hf1].
  split; apply has_char_trim_start; assumption.
Qed.

Lemma set_hash_expected to_iso sid e :
  expected_commit to_iso sid (set_hash e (trim_start (le_hash e))) = expected_commit to_iso sid e.
Proof. unfold expected_commit, set_hash. simpl. rewrite trim_trim_start. reflexivity. Qed.

Lemma no_nl_header e :
  Forall field_ok [le_hash e; le_author e; le_date e; le_subject e] ->
  has_char "010" (log_header e) = false.
Proof.
  intros Hf. inversion Hf as [|? ? [_ H1] Hf1]; subst.
  inversion Hf1 as [|? ? [_ H2] Hf2]; subst.
  inversion Hf2 as [|? ? [_ H3] Hf3]; subst.
  inversion Hf3 as [|? ? [_ H4] _]; subst.
  unfold log_header. rewrite !has_char_app. simpl.
  rewrite ?has_char_app, H1, H2, H3, H4. reflexivity.
Qed.

Lemma no_nl_blocks to_iso es :
  Forall (log_entry_ok to_iso) es ->
  Forall (fun l => has_char "010" l = false) (flat_map log_block es).
Proof.
  intros Hf. apply Forall_forall. intros l Hl. apply in_flat_map in Hl as [e [He Hl]].
  rewrite Forall_forall in Hf. destruct (Hf e He) as (Hh & Hls & _).
  destruct Hl as [<-|Hl]; [apply no_nl_header, Hh|].
  rewrite Forall_forall in Hls. apply (Hls l Hl).
Qed.

(** On the output of [git log --pretty=format:"%H|%an|%aI|%s|" --numstat]
    for commits whose fields hold no '|' and no newline and whose dates
    parse, [getWorktreeCommits] returns one commit per entry, in order,
    with the trimmed fields, the ISO date and the number of numstat and
    binary lines of the entry; trailing blanks of the output change
    nothing. *)
Theorem getWorktreeCommits_log to_iso fs git_log s es tail :
  Forall (log_entry_ok to_iso) es -> ends_nonws (render_log es) = true -> all_ws tail = true ->
  fs (worktreePath s) = true -> git_log (worktreePath s) = Some (render_log es ++ tail) ->
  getWorktreeCommits to_iso fs git_log s = map (expected_commit to_iso (id s)) es.
Proof.
  intros Hf Hend Hw Hex Hlog. unfold getWorktreeCommits. rewrite Hex, Hlog. simpl negb.
  cbv iota. unfold parse_log.
  rewrite trim_trailing_ws by assumption.
  destruct es as [|e1 rest]; [vm_compute in Hend; discriminate Hend|].
  inversion Hf as [|? ? He1 Hrest]; subst.
  set (e1' := set_hash e1 (trim_start (le_hash e1))).
  assert (Hr : trim_start (render_log (e1 :: rest)) = render_log (e1' :: rest)).
  { rewrite !render_log_cons, trim_start_app by apply has_nonws_header.
    rewrite trim_start_header. reflexivity. }
  rewrite Hr.
  assert (He1' := set_hash_ok _ _ He1).
  unfold render_log at 1. rewrite split_on_concat.
  2: { cbn [flat_map]. unfold log_block at 1. simpl. congruence. }
  2: { apply no_nl_blocks with (to_iso := to_iso). constructor; assumption. }
  destruct rest as [|el rest0 _] using rev_ind.
  - cbn [flat_map]. rewrite app_nil_r. rewrite parse_first by exact He1'.
    rewrite resolve_flush_inv. cbn [app map]. unfold e1'. rewrite set_hash_expected. reflexivity.
  - change (flat_map log_block (e1' :: rest0 ++ [el]))
      with (log_block e1' ++ flat_map log_block (rest0 ++ [el]))%list.
    rewrite parse_lines_app, parse_first by exact He1'.
    rewrite parse_blocks by assumption. rewrite resolve_flush_inv. cbn [app map].
    unfold e1'. rewrite set_hash_expected. reflexivity.
Qed.

Lemma getWorktreeCommits_log_witness :
  getWorktreeCommits (fun d => Some d) (fun _ => true)
    (fun _ => Some (render_log sample_log ++ nl)) sample_stream =
  map (expected_commit (fun d => Some d) "s1") sample_log.
Proof.
  apply (getWorktreeCommits_log (fun d => Some d) (fun _ => true)
    (fun _ => Some (render_log sample_log ++ nl)) sample_stream sample_log nl); try reflexivity.
  repeat constructor; discriminate.
Defined.

(* ------------------------------------------------------------------ *)
(** ** Commit scan (getMainBranchCommits, insertCommit, scanAllWorktreeCommits) *)



Lemma update_nth_length {A} (f : A -> A) i l : length (update_nth f i l) = length l.
Proof.
  revert i. induction l as [|x l IH]; intros [|i]; simpl; auto.
Qed.

Lemma update_nth_Forall {A} (P : A -> Prop) (f : A -> A) i l :
  (forall x, P x -> P (f x)) -> Forall P l -> Forall P (update_nth f i l).
Proof.
  intros Hf. revert i. induction l as [|x l IH]; intros [|i] Hl; simpl; auto;
    inversion Hl; subst; constructor; auto.
Qed.

Lemma flush_parse_inv sid st : parse_inv sid st -> parse_inv sid (flush st).
Proof.
  intros Hi. pose proof Hi as (Hh & Hc & Hr). unfold flush.
  destruct (p_current st) as [r|] eqn:E; [|exact Hi].
  split; [|split]; cbn [p_heap p_commits p_current]; rewrite ?update_nth_length.
  - apply update_nth_Forall; [|exact Hh]. intros x Hx. exact Hx.
  - apply Forall_app. split; [exact Hc|]. constructor; [apply Hr; reflexivity|constructor].
  - intros r' [= <-]. apply Hr. reflexivity.
Qed.

Lemma parse_line_inv to_iso sid st l st' :
  parse_inv sid st -> parse_line to_iso sid st l = Some st' -> parse_inv sid st'.
Proof.
  intros Hi. unfold parse_line.
  destruct (has_char "|" l).
  - pose proof (flush_parse_inv sid st Hi) as (Hh & Hc & Hr).
    destruct (Nat.leb 4 _).
    + destruct (to_iso _); [|discriminate]. intros [= <-].
      split; [|split]; cbn [p_heap p_commits p_current]; rewrite ?length_app.
      * apply Forall_app. split; [exact Hh|]. constructor; [reflexivity|constructor].
      * eapply Forall_impl; [|exact Hc]. intros a Ha. cbv beta in Ha. cbn [length]. lia.
      * intros r [= <-]. cbn [length]. lia.
    + intros [= <-]. split; [|split]; assumption.
  - destruct (_ || _); intros [= <-]; [|exact Hi].
    destruct Hi as (Hh & Hc & Hr). split; [|split]; assumption.
Qed.

Lemma parse_lines_inv to_iso sid st ls st' :
  parse_inv sid st -> parse_lines to_iso sid st ls = Some st' -> parse_inv sid st'.
Proof.
  revert st. induction ls as [|l ls IH]; intros st Hi; simpl.
  - intros [= <-]. exact Hi.
  - destruct (parse_line to_iso sid st l) as [st1|] eqn:E; [|discriminate].
    apply IH. exact (parse_line_inv to_iso sid st l st1 Hi E).
Qed.

Lemma resolve_streamId sid st :
  parse_inv sid st -> Forall (fun c => c_streamId c = sid) (resolve st).
Proof.
  intros (Hh & Hc & _). unfold resolve. apply Forall_map.
  eapply Forall_impl; [|exact Hc]. intros r Hr. simpl.
  rewrite Forall_forall in Hh. apply Hh, nth_In, Hr.
Qed.

Lemma parse_log_streamId to_iso sid out cs :
  parse_log to_iso sid out = Some cs -> Forall (fun c => c_streamId c = sid) cs.
Proof.
  unfold parse_log.
  destruct (parse_lines to_iso sid _ _) as [st|] eqn:E; [|discriminate].
  intros [= <-]. apply resolve_streamId, flush_parse_inv.
  eapply parse_lines_inv; [|exact E].
  split; [constructor|split; [constructor|discriminate]].
Qed.

Lemma worktree_commits_sid to_iso fs git_log s :
  Forall (fun c => c_streamId c = id s) (getWorktreeCommits to_iso fs git_log s).
Proof.
  unfold getWorktreeCommits. destruct (negb _); [constructor|].
  destruct (git_log _) as [out|]; [|constructor].
  destruct (parse_log to_iso (id s) out) eqn:E; [|constructor].
  exact (parse_log_streamId _ _ _ _ E).
Qed.

Lemma main_commits_sid to_iso git_main projectRoot :
  Forall (fun c => c_streamId c = "main") (getMainBranchCommits to_iso git_main projectRoot).
Proof.
  unfold getMainBranchCommits. destruct (git_main _) as [out|]; [|constructor].
  destruct (parse_log to_iso "main" out) eqn:E; [|constructor].
  exact (parse_log_streamId _ _ _ _ E).
Qed.

(** [getWorktreeCommits(stream)] only returns commits of [stream], and
    [getMainBranchCommits] only commits of the stream 'main'. *)
Theorem commits_streamId to_iso fs git_log git_main s projectRoot :
  Forall (fun c => c_streamId c = id s) (getWorktreeCommits to_iso fs git_log s) /\
  Forall (fun c => c_streamId c = "main") (getMainBranchCommits to_iso git_main projectRoot).
Proof. split; [apply worktree_commits_sid|apply main_commits_sid]. Qed.

Lemma same_key_true r c : same_key r c = true <-> commit_key r = commit_key c.
Proof.
  unfold same_key, commit_key. rewrite andb_true_iff, !String.eqb_eq.
  split; [intros [-> ->]; reflexivity|intros [= -> ->]; split; reflexivity].
Qed.

Lemma insert_fk_ok rows tbl c tbl' :
  insertCommit_fk rows tbl c = Ok tbl' ->
  tbl' = (tbl ++ [c])%list /\ ~ In (commit_key c) (map commit_key tbl).
Proof.
  unfold insertCommit_fk, insertCommit.
  destruct (existsb (fun r => same_key r c) tbl) eqn:E; [discriminate|].
  destruct (existsb _ rows); [|discriminate]. intros [= <-]. split; [reflexivity|].
  intros Hin. apply in_map_iff in Hin as [r [Hr Hin]].
  assert (existsb (fun r => same_key r c) tbl = true) as E'
    by (apply existsb_exists; exists r; split; [exact Hin|apply same_key_true, Hr]).
  congruence.
Qed.

Lemma scan_inserts_grows rows tbl a e cs :
  let '(a', _, tbl') := scan_inserts rows tbl a e cs in
  exists nw, tbl' = (tbl ++ nw)%list /\ a' = a + length nw /\
             (keys_unique tbl -> keys_unique tbl').
Proof.
  revert tbl a e. induction cs as [|c cs IH]; intros tbl a e; simpl.
  - exists []. rewrite app_nil_r. split; [reflexivity|split; [simpl; lia|auto]].
  - destruct (insertCommit_fk rows tbl c) as [tbl1|msg] eqn:E.
    + apply insert_fk_ok in E as [-> Hc].
      specialize (IH (tbl ++ [c])%list (S a) e).
      destruct (scan_inserts _ _ _ _ _) as [[a' e'] tbl'].
      destruct IH as [nw (-> & -> & Hu)]. exists (c :: nw).
      rewrite <- app_assoc. split; [reflexivity|split; [simpl; lia|]].
      intros Hk. rewrite app_assoc. apply Hu. unfold keys_unique. rewrite map_app. simpl.
      apply NoDup_app; [exact Hk|constructor; [intros []|constructor]|].
      intros x Hx [<-|[]]. exact (Hc Hx).
    + apply IH.
Qed.

Lemma scan_inserts_no_errors rows tbl a e cs :
  Forall (fun c => fk_ok rows c = true) cs ->
  snd (fst (scan_inserts rows tbl a e cs)) = e.
Proof.
  revert tbl a. induction cs as [|c cs IH]; intros tbl a Hf; simpl; [reflexivity|].
  inversion Hf as [|? ? Hc Hcs]; subst.
  unfold insertCommit_fk, insertCommit. unfold fk_ok in Hc.
  destruct (existsb (fun r => same_key r c) tbl); simpl.
  - apply IH, Hcs.
  - rewrite Hc. apply IH, Hcs.
Qed.

Lemma covered_app rows tbl nw c : covered rows tbl c -> covered rows (tbl ++ nw)%list c.
Proof.
  intros [H|H]; [left|right; exact H]. rewrite existsb_app, H. reflexivity.
Qed.

Lemma scan_inserts_covers rows tbl a e cs :
  forall c, In c cs -> covered rows (snd (scan_inserts rows tbl a e cs)) c.
Proof.
  revert tbl a e. induction cs as [|c cs IH]; intros tbl a e c' Hin; [destruct Hin|].
  simpl. destruct Hin as [<-|Hin]; [|destruct (insertCommit_fk rows tbl c); apply IH, Hin].
  pose proof (scan_inserts_grows rows) as G.
  unfold insertCommit_fk, insertCommit.
  destruct (existsb (fun r => same_key r c) tbl) eqn:E.
  - specialize (G tbl a (if negb (includes "UNIQUE constraint failed: commits.stream_id, commits.commit_hash" "UNIQUE") then S e else e) cs).
    destruct (scan_inserts _ _ _ _ _) as [[a' e'] tbl']. destruct G as [nw [-> _]].
    apply covered_app. left. exact E.
  - destruct (existsb _ rows) eqn:F.
    + specialize (G (tbl ++ [c])%list (S a) e cs).
      destruct (scan_inserts _ _ _ _ _) as [[a' e'] tbl']. destruct G as [nw [-> _]].
      cbn [snd]. left. rewrite !existsb_app. simpl. rewrite (proj2 (same_key_true c c) eq_refl).
      rewrite !orb_true_r. reflexivity.
    + specialize (G tbl a (if negb (includes "FOREIGN KEY constraint failed" "UNIQUE") then S e else e) cs).
      destruct (scan_inserts _ _ _ _ _) as [[a' e'] tbl']. destruct G as [nw [-> _]].
      right. exact F.
Qed.

Lemma scan_inserts_covered rows tbl a e cs :
  (forall c, In c cs -> covered rows tbl c) ->
  fst (fst (scan_inserts rows tbl a e cs)) = a /\ snd (scan_inserts rows tbl a e cs) = tbl.
Proof.
  revert e. induction cs as [|c cs IH]; intros e Hc; simpl; [split; reflexivity|].
  unfold insertCommit_fk, insertCommit.
  destruct (Hc c (or_introl eq_refl)) as [H|H].
  - rewrite H. apply IH. intros c' Hin. apply Hc. right. exact Hin.
  - destruct (existsb (fun r => same_key r c) tbl); [|unfold fk_ok in H; rewrite H];
      apply IH; intros c' Hin; apply Hc; right; exact Hin.
Qed.

Section ScanAllProofs.

Variable to_iso : string -> option string.
Variable fs_exists : string -> bool.
Variable git_log git_main last_mod : string -> option string.
Variable now : string.
Variable main_fails : bool.

Let gwc := getWorktreeCommits to_iso fs_exists git_log.
Let step := scan_stream to_iso fs_exists git_log last_mod.

Lemma fold_scan_grows rows strs r tbl lc :
  let '(r', tbl', _) := fold_left (step rows) strs (r, tbl, lc) in
  scanned r' = scanned r + length strs /\
  exists nw, tbl' = (tbl ++ nw)%list /\ commitsAdded r' = commitsAdded r + length nw /\
    (keys_unique tbl -> keys_unique tbl') /\
    (Forall (fun s => Forall (fun c => fk_ok rows c = true) (gwc s)) strs ->
     scan_errors r' = scan_errors r).
Proof.
  revert r tbl lc. induction strs as [|s strs IH]; intros r tbl lc; cbn [fold_left length].
  - split; [lia|]. exists []. rewrite app_nil_r. split; [reflexivity|].
    split; [simpl; lia|]. split; auto.
  - unfold step at 2, scan_stream.
    pose proof (scan_inserts_grows rows tbl (commitsAdded r) (scan_errors r) (gwc s)) as G.
    pose proof (scan_inserts_no_errors rows tbl (commitsAdded r) (scan_errors r) (gwc s)) as NE.
    unfold gwc in G, NE.
    destruct (scan_inserts _ _ _ _ _) as [[a e] tbl1].
    destruct G as [nw1 (-> & -> & U1)]. simpl in NE.
    match goal with |- context [fold_left _ _ (?r0, ?t0, ?l0)] =>
      specialize (IH r0 t0 l0) end.
    destruct (fold_left _ _ _) as [[r' tbl'] lc'].
    destruct IH as (Hs & nw2 & -> & Ha & U2 & He).
    simpl in Hs, Ha. split; [lia|]. exists (nw1 ++ nw2)%list.
    rewrite app_assoc. split; [reflexivity|]. rewrite length_app.
    split; [lia|]. split; [auto|].
    intros Hf. inversion Hf as [|? ? H1 H2]; subst. rewrite He by exact H2. simpl. apply NE, H1.
Qed.

Lemma fold_scan_covers rows strs r tbl lc :
  let '(_, tbl', _) := fold_left (step rows) strs (r, tbl, lc) in
  forall s c, In s strs -> In c (gwc s) -> covered rows tbl' c.
Proof.
  revert r tbl lc. induction strs as [|s strs IH]; intros r tbl lc; cbn [fold_left].
  - intros s c [].
  - unfold step at 2, scan_stream.
    pose proof (scan_inserts_covers rows tbl (commitsAdded r) (scan_errors r) (gwc s)) as C.
    unfold gwc in C.
    destruct (scan_inserts _ _ _ _ _) as [[a e] tbl1]. simpl in C.
    match goal with |- context [fold_left _ _ (?r0, ?t0, ?l0)] =>
      specialize (IH r0 t0 l0); pose proof (fold_scan_grows rows strs r0 t0 l0) as G end.
    destruct (fold_left _ _ _) as [[r' tbl'] lc'].
    destruct G as (_ & nw & -> & _).
    intros s' c [<-|Hs] Hc; [apply covered_app, C, Hc|].
    exact (IH s' c Hs Hc).
Qed.

Lemma fold_scan_covered rows strs r tbl lc :
  (forall s c, In s strs -> In c (gwc s) -> covered rows tbl c) ->
  let '(r', tbl', _) := fold_left (step rows) strs (r, tbl, lc) in
  commitsAdded r' = commitsAdded r /\ tbl' = tbl.
Proof.
  revert r lc. induction strs as [|s strs IH]; intros r lc Hc; cbn [fold_left]; [split; reflexivity|].
  unfold step at 2, scan_stream.
  pose proof (scan_inserts_covered rows tbl (commitsAdded r) (scan_errors r) (gwc s)) as C.
  unfold gwc in C.
  destruct (scan_inserts _ _ _ _ _) as [[a e] tbl1]. simpl in C.
  destruct C as [-> ->]; [intros c Hin; apply (Hc s c (or_introl eq_refl) Hin)|].
  match goal with |- context [fold_left _ _ (?r0, ?t0, ?l0)] =>
    specialize (IH r0 l0) end.
  destruct (fold_left _ _ _) as [[r' tbl'] lc'].
  destruct IH as [-> ->]; [|split; reflexivity].
  intros s' c Hs Hin. apply (Hc s' c (or_intror Hs) Hin).
Qed.



Lemma ensure_main_idem db root :
  ensure_main now main_fails (ensure_main now main_fails db root) root =
  ensure_main now main_fails db root.
Proof.
  unfold ensure_main at 2. destruct (existsb _ (streams db)) eqn:E.
  - unfold ensure_main. rewrite E. reflexivity.
  - destruct main_fails eqn:F.
    + cbv iota. unfold ensure_main. rewrite E. reflexivity.
    + unfold ensure_main. rewrite E. cbn [streams history]. rewrite existsb_app. simpl. rewrite orb_true_r. reflexivity.
Qed.

Lemma ensure_main_getAllStreams db root :
  getAllStreams (ensure_main now main_fails db root) = getAllStreams db.
Proof.
  unfold ensure_main. destruct (existsb _ _); [reflexivity|]. destruct main_fails; [reflexivity|].
  unfold getAllStreams. simpl. rewrite filter_app. simpl. apply app_nil_r.
Qed.



Let scanAll := scanAllWorktreeCommits to_iso fs_exists git_log git_main last_mod now main_fails.


(** Running [scanAllWorktreeCommits] a second time, with git answering as
    before, adds no commit: [commitsAdded] is 0 and the commits table is as
    the first run left it. The 'main' row is not inserted again, so the
    scan's own statements add no stream row and no history event; what the
    repeated [updateLastFileChange] calls write is not covered, as that
    query is not part of the sources. *)
Theorem scanAll_again st root :
  let '(_, st1) := scanAll st root in
  let '(r2, st2) := scanAll st1 root in
  commitsAdded r2 = 0 /\ ss_db st2 = ss_db st1 /\ ss_commits st2 = ss_commits st1.
Proof.
  unfold scanAll, scanAllWorktreeCommits.
  set (db1 := ensure_main now main_fails (ss_db st) root).
  set (mains := getMainBranchCommits to_iso git_main root).
  pose proof (scan_inserts_grows (streams db1) (ss_commits st) 0 0 mains) as G.
  pose proof (scan_inserts_covers (streams db1) (ss_commits st) 0 0 mains) as C.
  destruct (scan_inserts _ _ _ _ _) as [[a e] tbl1]. simpl in C.
  destruct G as [nw1 (-> & -> & _)].
  pose proof (fold_scan_grows (streams db1) (getAllStreams (ss_db st))
                (mkScan 0 (0 + length nw1) e) (ss_commits st ++ nw1)%list (ss_lastChange st)) as F.
  pose proof (fold_scan_covers (streams db1) (getAllStreams (ss_db st))
                (mkScan 0 (0 + length nw1) e) (ss_commits st ++ nw1)%list (ss_lastChange st)) as FC.
  unfold step in F, FC.
  destruct (fold_left _ _ _) as [[r tbl2] lc].
  destruct F as (_ & nw2 & -> & _). cbn [ss_db ss_commits ss_lastChange].
  assert (Hidem : ensure_main now main_fails db1 root = db1) by apply ensure_main_idem.
  rewrite Hidem.
  replace (getAllStreams db1) with (getAllStreams (ss_db st)) by (symmetry; apply ensure_main_getAllStreams).
  pose proof (scan_inserts_covered (streams db1) ((ss_commits st ++ nw1) ++ nw2)%list 0 0 mains) as C2.
  destruct (scan_inserts _ _ _ _ _) as [[a2 e2] tbl3]. simpl in C2.
  destruct C2 as [-> ->]; [intros c Hc; apply covered_app, C, Hc|].
  pose proof (fold_scan_covered (streams db1) (getAllStreams (ss_db st))
                (mkScan 0 0 e2) ((ss_commits st ++ nw1) ++ nw2)%list lc FC) as F2.
  unfold step in F2.
  destruct (fold_left _ _ _) as [[r3 tbl4] lc3].
  destruct F2 as [Ha ->]. simpl in Ha. split; [exact Ha|split; reflexivity].
Qed.

End ScanAllProofs.

(* ------------------------------------------------------------------ *)
(** ** Reconciliation routes (GET /status, POST /run) *)



Lemma reconcile_dry_db fs now fails db wts merged o :
  opt_dryRun o <> Some false ->
  snd (reconcileWorktrees fs now fails db wts merged o) = db.
Proof.
  intros Ho. unfold reconcileWorktrees. cbv zeta.
  replace (match opt_dryRun o with Some b => b | None => true end) with true
    by (destruct (opt_dryRun o) as [[|]|]; congruence).
  match goal with |- context [fold_left ?f ?l ?st] =>
    pose proof (fold_dry_run_db fs now fails
      (match opt_autoArchiveStale o with Some b => b | None => false end) wts merged l st) as H
  end.
  destruct (fold_left _ _ _) as [[r m] d]. exact H.
Qed.

(** [GET /status] never changes the database, and [POST /run] changes it
    only when the body's [dryRun] is present and falsy (JSON [false], [null],
    [0] or the empty string); it then runs the reconciliation with writes. *)
Theorem reconciliation_routes_writes fs now fails gw gm ts body db :
  snd (route_status fs now fails gw gm ts db) = db /\
  snd (route_run fs now fails gw gm ts body db) =
  if run_writes_enabled body then
    snd (reconcileWorktrees_at fs now fails gw gm db
           (mkOptions (Some false)
              (Some (truthy (js_default (match body with Some b => rb_autoArchiveStale b
                                                 | None => None end) (JBool false))))))
  else db.
Proof.
  split.
  - unfold route_status.
    pose proof (reconcile_dry_db fs now fails db (getWorktreeList gw) (getMergedBranches gm)
                  (mkOptions (Some true) None)) as H.
    unfold reconcileWorktrees_at in *.
    destruct (reconcileWorktrees _ _ _ _ _ _ _) as [r d]. simpl in H |- *.
    apply H. discriminate.
  - destruct body as [b|]; [|reflexivity]. unfold route_run, run_writes_enabled.
    destruct (rb_dryRun b) as [v|] eqn:E.
    + cbn [js_default]. destruct (truthy v) eqn:T; cbn [negb].
      * pose proof (reconcile_dry_db fs now fails db (getWorktreeList gw) (getMergedBranches gm)
                  (mkOptions (Some true) (Some (truthy (js_default (rb_autoArchiveStale b) (JBool false)))))) as H.
        unfold reconcileWorktrees_at in *.
        destruct (reconcileWorktrees _ _ _ _ _ _ _) as [r d]. simpl in H |- *.
        apply H. discriminate.
      * destruct (reconcileWorktrees_at _ _ _ _ _ _ _) as [r d]. reflexivity.
    + cbn [js_default truthy].
      pose proof (reconcile_dry_db fs now fails db (getWorktreeList gw) (getMergedBranches gm)
                  (mkOptions (Some true) (Some (truthy (js_default (rb_autoArchiveStale b) (JBool false)))))) as H.
      unfold reconcileWorktrees_at in *.
      destruct (reconcileWorktrees _ _ _ _ _ _ _) as [r d]. simpl in H |- *.
      apply H. discriminate.
Qed.

(* ------------------------------------------------------------------ *)
(** ** Archive routes (POST /:id/archive, POST /archive-bulk) *)



Section ArchiveProofs.

Variable aw_fails : ArchiveWrite -> option string.
Variable fs_exists : string -> bool.
Variable git : GitOp -> option string.
Variable rm_fails : string -> option string.
Variable archive : Outcome string.
Variable queue_job : Outcome nat.
Variable simpleGit_fails : string -> option string.
Variable projectRoot worktreeRoot ts : string.

Let retire s b := retire_steps fs_exists git rm_fails archive queue_job s
                    (retire_options projectRoot worktreeRoot b).
Let route := archive_route aw_fails fs_exists git rm_fails archive queue_job
               simpleGit_fails projectRoot worktreeRoot ts.
Let step := bulk_step aw_fails fs_exists git rm_fails archive queue_job
              simpleGit_fails projectRoot worktreeRoot ts.

Lemma retire_writes_ok st sid :
  (forall w, aw_fails w = None) ->
  run_archive_writes aw_fails st (retire_writes sid ts) = (without sid st, None).
Proof.
  intros Hf. unfold retire_writes. simpl. rewrite !Hf. simpl.
  unfold without. rewrite filter_app. simpl. rewrite String.eqb_refl. simpl.
  rewrite app_nil_r. reflexivity.
Qed.

Lemma getStream_without sid st : getStream (st_db (without sid st)) sid = None.
Proof.
  unfold getStream, without. simpl.
  induction (streams (st_db st)) as [|s l IH]; simpl; [reflexivity|].
  destruct (String.eqb (id s) sid) eqn:E; simpl; [exact IH|rewrite E; exact IH].
Qed.

(** [POST /:id/archive] on a missing stream answers 404, on a stream that
    is not 'completed' answers 400 with its status; the store is then
    left as it was. *)
Theorem archive_route_guard st sid body :
  (forall s, getStream (st_db st) sid = Some s -> status s <> completed) ->
  route st sid body =
  (match getStream (st_db st) sid with None => A404 | Some s => A400 (status s) end, st).
Proof.
  intros Hs. unfold route, archive_route.
  destruct (getStream (st_db st) sid) as [s|]; [|reflexivity].
  specialize (Hs s eq_refl). destruct (status s); try reflexivity. congruence.
Qed.

(** On a 'completed' stream, with every statement succeeding: when
    [simpleGit(projectRoot)] can be constructed, the route answers 200 with
    the retirement's result, whatever its [success], and removes the
    stream's row, its history (the 'completed' event it has just added
    included) and its commits; when it throws, [retireStream] rejects
    before any step and the route answers 500 with its message, writing
    nothing. *)
Theorem archive_route_completed st sid body s :
  getStream (st_db st) sid = Some s -> status s = completed ->
  (forall w, aw_fails w = None) ->
  (simpleGit_fails projectRoot = None ->
   route st sid body = (A200 (retire s body), without sid st)) /\
  (forall m, simpleGit_fails projectRoot = Some m -> route st sid body = (A500 m, st)).
Proof.
  intros Hg Hs Hf. unfold route, archive_route, retireStream. rewrite Hg, Hs.
  cbn [negb StreamStatus_eqb retire_options ro_projectRoot].
  split; [intros Hn | intros m Hm]; rewrite ?Hn, ?Hm; [|reflexivity].
  rewrite retire_writes_ok by exact Hf. reflexivity.
Qed.

Lemma filter_other {A} (f : A -> string) k sid l :
  k <> sid ->
  filter (fun x => String.eqb (f x) k) (filter (fun x => negb (String.eqb (f x) sid)) l) =
  filter (fun x => String.eqb (f x) k) l.
Proof.
  intros Hk. induction l as [|x l IH]; simpl; [reflexivity|].
  destruct (String.eqb (f x) sid) eqn:E; simpl.
  - apply String.eqb_eq in E. rewrite E. apply String.eqb_neq in Hk.
    rewrite String.eqb_sym, Hk. exact IH.
  - destruct (String.eqb (f x) k); [f_equal|]; exact IH.
Qed.

Lemma apply_archive_write_other st w k :
  write_about w <> k ->
  hist_k k (apply_archive_write st w) = hist_k k st /\
  commits_k k (apply_archive_write st w) = commits_k k st.
Proof.
  unfold hist_k, commits_k.
  destruct w as [ev|sid|sid|sid]; simpl; intros Hk.
  - split; [|reflexivity]. rewrite filter_app. simpl.
    apply String.eqb_neq in Hk. rewrite Hk. apply app_nil_r.
  - split; [reflexivity|]. apply filter_other. auto.
  - split; [|reflexivity]. apply filter_other. auto.
  - split; reflexivity.
Qed.

Lemma run_archive_writes_other st ws k :
  Forall (fun w => write_about w <> k) ws ->
  hist_k k (fst (run_archive_writes aw_fails st ws)) = hist_k k st /\
  commits_k k (fst (run_archive_writes aw_fails st ws)) = commits_k k st.
Proof.
  revert st. induction ws as [|w ws IH]; intros st Hf; simpl; [split; reflexivity|].
  inversion Hf as [|? ? Hw Hws]; subst.
  destruct (aw_fails w); [split; reflexivity|].
  destruct (IH (apply_archive_write st w) Hws) as [-> ->].
  apply apply_archive_write_other, Hw.
Qed.

(** Whatever the route answers and whichever statement throws, the history
    and the commits of every other stream stay as they were. *)
Theorem archive_route_others st sid body k :
  k <> sid ->
  hist_k k (snd (route st sid body)) = hist_k k st /\
  commits_k k (snd (route st sid body)) = commits_k k st.
Proof.
  intros Hk. unfold route, archive_route.
  destruct (getStream (st_db st) sid) as [s|]; [|split; reflexivity].
  destruct (negb _); [split; reflexivity|].
  destruct (retireStream _ _ _ _ _ _ _ _) as [rr|m]; [|split; reflexivity].
  pose proof (run_archive_writes_other st (retire_writes sid ts) k) as H.
  destruct (run_archive_writes aw_fails st (retire_writes sid ts)) as [st' [m|]];
    simpl in H |- *; apply H; repeat constructor; simpl; auto.
Qed.

Lemma bulk_step_results b rs st sid :
  exists r, fst (step b (rs, st) sid) = (rs ++ [r])%list /\ br_streamId r = sid.
Proof.
  unfold step, bulk_step. destruct (getStream (st_db st) sid) as [s|]; [|eexists; split; reflexivity].
  destruct (StreamStatus_eqb (status s) archived); [eexists; split; reflexivity|].
  destruct (negb _); [eexists; split; reflexivity|].
  destruct (retireStream _ _ _ _ _ _ _ _) as [rr|m]; [|eexists; split; reflexivity].
  destruct (run_archive_writes _ _ _) as [st' [m|]]; eexists; split; reflexivity.
Qed.

Lemma fold_bulk_results b ids rs st :
  exists rs', fst (fold_left (step b) ids (rs, st)) = (rs ++ rs')%list /\
              map br_streamId rs' = ids.
Proof.
  revert rs st. induction ids as [|sid ids IH]; intros rs st; cbn [fold_left].
  - exists []. rewrite app_nil_r. split; reflexivity.
  - destruct (bulk_step_results b rs st sid) as [r [Hr Hid]].
    destruct (step b (rs, st) sid) as [rs1 st1] eqn:E. simpl in Hr. subst rs1.
    destruct (IH (rs ++ [r])%list st1) as [rs' [H1 H2]].
    exists (r :: rs'). rewrite H1, <- app_assoc. split; [reflexivity|]. simpl. congruence.
Qed.

Lemma count_split (p : BulkResult -> bool) l :
  length (filter p l) + length (filter (fun r => negb (p r)) l) = length l.
Proof. induction l as [|x l IH]; simpl; [reflexivity|]. destruct (p x); simpl; lia. Qed.

Lemma forallb_filter_negb (p : BulkResult -> bool) l :
  Nat.eqb (length (filter (fun r => negb (p r)) l)) 0 = forallb p l.
Proof. induction l as [|x l IH]; simpl; [reflexivity|]. destruct (p x); simpl; auto. Qed.

Let bulk := archive_bulk aw_fails fs_exists git rm_fails archive queue_job
              simpleGit_fails projectRoot worktreeRoot ts.

(** [POST /archive-bulk] answers 500 without a body and 400 when
    [streamIds] is not a non-empty array, changing nothing; otherwise it
    reports one result per id, in order, the two counts add up to the
    number of ids, and [success] holds exactly when every result succeeded. *)
Theorem archive_bulk_results st body :
  let '(resp, st') := bulk st body in
  match resp with
  | B200 ok sc fc rs =>
      (exists b, body = Some b /\ bb_streamIds b = Some (map br_streamId rs)) /\
      sc + fc = length rs /\ ok = forallb br_success rs
  | B400 => st' = st /\
      exists b, body = Some b /\ (bb_streamIds b = None \/ bb_streamIds b = Some [])
  | B500 _ => st' = st /\ body = None
  end.
Proof.
  unfold bulk, archive_bulk. destruct body as [b|]; [|split; reflexivity].
  destruct (bb_streamIds b) as [[|sid ids]|] eqn:E;
    try (split; [reflexivity|exists b; split; [reflexivity|auto]]).
  destruct (fold_bulk_results (bb_options b) (sid :: ids) [] st) as [rs' [H1 H2]].
  unfold step in H1.
  destruct (fold_left _ _ _) as [rs st']. simpl in H1. subst rs.
  split; [|split].
  - exists b. rewrite E, H2. split; reflexivity.
  - apply count_split.
  - apply forallb_filter_negb.
Qed.

Lemma apply_archive_write_incl st w :
  incl (streams (st_db (apply_archive_write st w))) (streams (st_db st)).
Proof.
  destruct w; simpl; try apply incl_refl. intros x Hx. apply filter_In in Hx. apply Hx.
Qed.

Lemma run_archive_writes_incl st ws :
  incl (streams (st_db (fst (run_archive_writes aw_fails st ws)))) (streams (st_db st)).
Proof.
  revert st. induction ws as [|w ws IH]; intros st; simpl; [apply incl_refl|].
  destruct (aw_fails w); [apply incl_refl|].
  eapply incl_tran; [apply IH|apply apply_archive_write_incl].
Qed.

Lemma find_none_intro {A} (f : A -> bool) l :
  (forall x, In x l -> f x = false) -> find f l = None.
Proof.
  induction l as [|x l IH]; simpl; intros H; [reflexivity|].
  rewrite H by (left; reflexivity). apply IH. intros y Hy. apply H. right. exact Hy.
Qed.

Lemma getStream_incl db db' sid :
  incl (streams db') (streams db) -> getStream db sid = None -> getStream db' sid = None.
Proof.
  unfold getStream. intros Hi Hn. apply find_none_intro. intros x Hx.
  apply (find_none _ _ Hn), Hi, Hx.
Qed.

(** What one iteration appends and leaves behind. *)
Lemma bulk_step_spec b rs st sid :
  exists r st1, step b (rs, st) sid = ((rs ++ [r])%list, st1) /\
    incl (streams (st_db st1)) (streams (st_db st)) /\
    (br_deleted r = true -> getStream (st_db st1) sid = None) /\
    (getStream (st_db st) sid = None -> r = not_found sid /\ st1 = st).
Proof.
  unfold step, bulk_step. destruct (getStream (st_db st) sid) as [s|] eqn:G.
  2: { do 2 eexists. split; [reflexivity|]. split; [apply incl_refl|].
       split; [discriminate|]. split; reflexivity. }
  destruct (StreamStatus_eqb (status s) archived).
  { do 2 eexists. split; [reflexivity|]. split; [apply incl_refl|]. split; discriminate. }
  destruct (negb _).
  { do 2 eexists. split; [reflexivity|]. split; [apply incl_refl|]. split; discriminate. }
  destruct (retireStream _ _ _ _ _ _ _ _) as [rr|m].
  2: { do 2 eexists. split; [reflexivity|]. split; [apply incl_refl|]. split; discriminate. }
  pose proof (run_archive_writes_incl st (retire_writes sid ts)) as Hi.
  destruct (run_archive_writes aw_fails st (retire_writes sid ts)) as [st' [m|]] eqn:R;
    simpl in Hi.
  - do 2 eexists. split; [reflexivity|]. split; [exact Hi|]. split; discriminate.
  - do 2 eexists. split; [reflexivity|]. split; [exact Hi|]. split; [|discriminate].
    intros _. revert R. unfold retire_writes. simpl.
    destruct (aw_fails _); [discriminate|].
    destruct (aw_fails _); [discriminate|].
    destruct (aw_fails _); [discriminate|].
    destruct (aw_fails _); [discriminate|].
    intros [= <-]. simpl. unfold getStream. simpl. apply find_none_intro.
    intros x Hx. apply filter_In in Hx as [_ Hx]. apply negb_true_iff in Hx. exact Hx.
Qed.

Lemma fold_bulk_prefix b ids rs st :
  exists rs', fst (fold_left (step b) ids (rs, st)) = (rs ++ rs')%list.
Proof.
  destruct (fold_bulk_results b ids rs st) as [rs' [H _]]. exists rs'. exact H.
Qed.

Lemma fold_bulk_absent b sid ids rs st :
  getStream (st_db st) sid = None ->
  forall j, j < length ids -> nth j ids "" = sid ->
  nth (length rs + j) (fst (fold_left (step b) ids (rs, st))) no_result = not_found sid.
Proof.
  revert rs st. induction ids as [|x ids IH]; intros rs st Hn j Hj Hx; [simpl in Hj; lia|].
  cbn [fold_left].
  destruct (bulk_step_spec b rs st x) as (r & st1 & E & Hi & _ & Ha). rewrite E.
  destruct j as [|j].
  - simpl in Hx. subst x. destruct (Ha Hn) as [-> ->].
    destruct (fold_bulk_prefix b ids (rs ++ [not_found sid])%list st) as [rs' ->].
    rewrite <- app_assoc. rewrite app_nth2 by lia. rewrite Nat.add_0_r, Nat.sub_diag. reflexivity.
  - replace (length rs + S j) with (length (rs ++ [r])%list + j) by (rewrite length_app; simpl; lia).
    apply IH; [|simpl in Hj; lia|exact Hx].
    exact (getStream_incl _ _ sid Hi Hn).
Qed.

Lemma fold_bulk_once b ids rs st i j :
  i < j -> j < length ids -> nth i ids "" = nth j ids "" ->
  br_deleted (nth (length rs + i) (fst (fold_left (step b) ids (rs, st))) no_result) = true ->
  nth (length rs + j) (fst (fold_left (step b) ids (rs, st))) no_result =
  not_found (nth j ids "").
Proof.
  revert rs st i j. induction ids as [|x ids IH]; intros rs st i j Hij Hj Hx;
    [simpl in Hj; lia|].
  cbn [fold_left].
  destruct (bulk_step_spec b rs st x) as (r & st1 & E & Hi & Hd & _). rewrite E.
  destruct j as [|j]; [lia|].
  destruct i as [|i].
  - destruct (fold_bulk_prefix b ids (rs ++ [r])%list st1) as [rs' Hp].
    intros Hr. rewrite Hp, <- app_assoc, app_nth2 in Hr by lia.
    rewrite Nat.add_0_r, Nat.sub_diag in Hr. simpl in Hr.
    replace (length rs + S j) with (length (rs ++ [r])%list + j) by (rewrite length_app; simpl; lia).
    simpl in Hx. apply fold_bulk_absent; [|simpl in Hj; lia|reflexivity].
    simpl. rewrite <- Hx. apply Hd, Hr.
  - replace (length rs + S j) with (length (rs ++ [r])%list + j) by (rewrite length_app; simpl; lia).
    replace (length rs + S i) with (length (rs ++ [r])%list + i) by (rewrite length_app; simpl; lia).
    apply IH; simpl in *; lia || exact Hx.
Qed.

(** In [POST /archive-bulk], once an id has been retired and deleted, a
    later occurrence of the same id in [streamIds] reports 'Not found'. *)
Theorem archive_bulk_retired_once st b ids ok sc fc rs st' i j :
  bulk st (Some (mkBulkBody (Some ids) b)) = (B200 ok sc fc rs, st') ->
  i < j -> j < length ids -> nth i ids "" = nth j ids "" ->
  br_deleted (nth i rs no_result) = true ->
  nth j rs no_result = not_found (nth j ids "").
Proof.
  intros Hb Hij Hj Hx Hd. unfold bulk, archive_bulk in Hb. cbn [bb_streamIds bb_options] in Hb.
  destruct ids as [|x ids']; [simpl in Hj; lia|].
  pose proof (fold_bulk_once b (x :: ids') [] st i j Hij Hj Hx) as H.
  unfold step in H. destruct (fold_left _ _ _) as [rs0 st0].
  injection Hb as _ _ _ <- _. exact (H Hd).
Qed.
End ArchiveProofs.

(* ------------------------------------------------------------------ *)
(** ** Last file modification time (getLastFileModificationTime) *)



Lemma walkDir_fold n : forall latest,
  walkDir latest n = fold_left newer (counted_mtimes n) latest.
Proof.
  induction n as [name kind mt [es|] Hch] using FsNode_ind'; [|reflexivity].
  cbn [walkDir counted_mtimes].
  induction Hch as [|e es He Hes IHes]; intros latest; [reflexivity|].
  destruct e as [name' kind' mt' ch']. cbn [fold_left]. rewrite fold_left_app.
  rewrite IHes. f_equal.
  destruct (skipped name' kind'); [reflexivity|].
  destruct mt' as [m|]; [|reflexivity].
  destruct kind'; [reflexivity| |reflexivity].
  apply He.
Qed.

Lemma newer_spec o x :
  (x <= newer_val o x)%Z /\ (forall a, o = Some a -> (a <= newer_val o x)%Z) /\
  (newer o x = Some (newer_val o x)) /\ (o = Some (newer_val o x) \/ newer_val o x = x).
Proof.
  unfold newer_val, newer. destruct o as [a|].
  - destruct (Z.gtb x a) eqn:E; rewrite Z.gtb_ltb in E;
      [apply Z.ltb_lt in E|apply Z.ltb_ge in E];
      repeat split; try (intros b Hb; injection Hb; intros <-); try lia; auto.
  - repeat split; try lia; try discriminate; auto.
Qed.

Lemma fold_newer l : forall o,
  match fold_left newer l o with
  | None => o = None /\ l = []
  | Some m => (o = Some m \/ In m l) /\ (forall a, o = Some a -> a <= m)%Z /\
              Forall (fun x => x <= m)%Z l
  end.
Proof.
  induction l as [|x l IH]; intros o; simpl.
  - destruct o as [a|]; [|split; reflexivity].
    split; [left; reflexivity|]. split; [intros b Hb; injection Hb; intros ->; lia|constructor].
  - destruct (newer_spec o x) as (Hx & Ho & Hn & Hw).
    specialize (IH (newer o x)). rewrite Hn in IH |- *.
    destruct (fold_left newer l (Some (newer_val o x))) as [m|].
    + destruct IH as (H1 & H2 & H3).
      specialize (H2 _ eq_refl).
      split; [|split; [intros a Ha; specialize (Ho a Ha); lia|constructor; [lia|exact H3]]].
      destruct H1 as [H1|H1]; [|right; right; exact H1].
      injection H1; intros <-. destruct Hw as [Hw|Hw]; [left; exact Hw|right; left; symmetry; exact Hw].
    + destruct IH as [H1 _]. discriminate.
Qed.

(** [getLastFileModificationTime] returns the latest modification time of
    the files it walks over (those outside the skipped directories, without
    a skipped extension, and whose [statSync] succeeds), whatever their
    order; [null] when the path does not exist or there is no such file. *)
Theorem getLastFileModificationTime_max ex root :
  match getLastFileModificationTime ex root with
  | None => ex = false \/ counted_mtimes root = []
  | Some m => ex = true /\ In m (counted_mtimes root) /\
              Forall (fun x => x <= m)%Z (counted_mtimes root)
  end.
Proof.
  unfold getLastFileModificationTime. destruct ex; [|left; reflexivity].
  cbn [negb]. rewrite walkDir_fold.
  pose proof (fold_newer (counted_mtimes root) None) as H.
  destruct (fold_left newer _ _) as [m|].
  - destruct H as ([H|H] & _ & H3); [discriminate|]. split; [reflexivity|]. split; assumption.
  - right. apply H.
Qed.

(* ------------------------------------------------------------------ *)
(** ** Stream update route (PATCH /:id, updateStream, completeStream) *)



Lemma getRow_update_row sid f rows :
  (forall r, r_id (f r) = r_id r) ->
  getRow (update_row sid f rows) sid = option_map f (getRow rows sid).
Proof.
  intros Hf. induction rows as [|r rows IH]; [reflexivity|].
  cbn [getRow update_row map find] in *. destruct (String.eqb (r_id r) sid) eqn:E.
  - rewrite Hf, E. reflexivity.
  - rewrite E. exact IH.
Qed.

Lemma update_row_others sid f rows :
  (forall r, r_id (f r) = r_id r) ->
  filter (fun r => negb (String.eqb (r_id r) sid)) (update_row sid f rows) =
  filter (fun r => negb (String.eqb (r_id r) sid)) rows.
Proof.
  intros Hf. induction rows as [|r rows IH]; [reflexivity|].
  cbn [update_row map filter] in *. destruct (String.eqb (r_id r) sid) eqn:E.
  - rewrite Hf, E. cbn [negb]. exact IH.
  - rewrite E. cbn [negb]. f_equal. exact IH.
Qed.

Lemma updateStream_ok_rows be now rows sid u rows' :
  updateStream be now rows sid u = Ok rows' ->
  rows' = rows \/ exists f, (forall r, r_id (f r) = r_id r) /\ rows' = update_row sid f rows.
Proof.
  intros H. unfold updateStream in H.
  match type of H with
  | (if ?c then _ else _) = _ => destruct c
  end.
  - injection H as <-. left. reflexivity.
  - destruct (match u_status u with Some v => _ | None => _ end) as [st|m]; [|discriminate].
    destruct (match u_blockedBy u with Some v => _ | None => _ end) as [bl|m]; [|discriminate].
    destruct (getRow rows sid) as [r0|]; [|injection H as <-; left; reflexivity].
    right.
    destruct st as [[s|]|], bl as [[b|]|]; try discriminate;
      try (destruct (defined _); [|discriminate]);
      injection H as <-; eexists; refine (conj _ eq_refl); intros r; reflexivity.
Qed.

(** A status that passes the check and is truthy is one of the six names. *)
Lemma status_valid_str v :
  status_invalid (Some v) = false -> truthy v = true ->
  exists s, v = JStr s /\ In s valid_statuses.
Proof.
  unfold status_invalid. intros H Ht. rewrite Ht in H. cbn [andb] in H.
  destruct v; try discriminate. exists s. split; [reflexivity|].
  apply negb_false_iff, existsb_exists in H. destruct H as (x & Hx & E).
  apply String.eqb_eq in E. subst. exact Hx.
Qed.

Lemma getRow_update_row_defined sid f rows t :
  (forall r, r_id (f r) = r_id r) ->
  defined (getRow (update_row sid f rows) t) = defined (getRow rows t).
Proof.
  intros Hf. induction rows as [|r rows IH]; [reflexivity|].
  cbn [getRow update_row map find] in *.
  destruct (String.eqb (r_id r) sid); [rewrite Hf|];
    destruct (String.eqb (r_id r) t); [reflexivity|exact IH|reflexivity|exact IH].
Qed.

Lemma empty_status_patch_eq be now ts st sid b row :
  getRow (ps_rows st) sid = Some row ->
  pb_status b = Some (JStr "") ->
  progress_invalid (pb_progress b) = false ->
  patch_route be now ts st sid (Some b) =
  match updateStream be now (ps_rows st) sid
          (mkUpdates (Some (JStr "")) (progress_value (pb_progress b)) None (pb_blockedBy b)) with
  | Throw m => (P500 m, st)
  | Ok rows' =>
      (P200 (getRow rows' sid)
         (if String.eqb "" (r_status row) then None else Some (r_status row, Some (JStr "")))
         (progress_value (pb_progress b)),
       mkPatchStore rows' (ps_history st))
  end.
Proof.
  intros Hg Hs Hp. unfold patch_route. rewrite Hg, Hs, Hp.
  change (status_invalid (Some (JStr ""))) with false.
  change (strict_eq_str (Some (JStr "")) "completed") with false.
  change (strict_eq_str (Some (JStr "")) (r_status row)) with (String.eqb "" (r_status row)).
  change (truthy (JStr "")) with false.
  cbn [negb andb].
  destruct (updateStream _ _ _ _ _) as [rows'|m]; reflexivity.
Qed.

Section PatchProofs.

Variable bind_error : JsonValue -> string.
Variable now ts : string.

Let patch := patch_route bind_error now ts.


(** An empty-string [status] passes the check (it is falsy) and never adds
    a history event. When [blockedBy] is absent, the empty string or the id
    of a stream, the UPDATE writes the empty string as the stream's status
    and stamps [updated_at], and the route answers 200; a [blockedBy] string
    naming no stream makes the UPDATE fail its FOREIGN KEY check, and the
    route answers 500 and writes nothing. *)
Theorem patch_empty_status st sid b row :
  getRow (ps_rows st) sid = Some row ->
  pb_status b = Some (JStr "") ->
  progress_invalid (pb_progress b) = false ->
  ps_history (snd (patch st sid (Some b))) = ps_history st /\
  ((pb_blockedBy b = None \/
    exists t, pb_blockedBy b = Some (JStr t) /\ (t = "" \/ getRow (ps_rows st) t <> None)) ->
   exists row',
     fst (patch st sid (Some b)) =
       P200 (Some row')
         (if String.eqb "" (r_status row) then None else Some (r_status row, Some (JStr "")))
         (progress_value (pb_progress b)) /\
     r_status row' = "" /\ r_updatedAt row' = now) /\
  (forall t, pb_blockedBy b = Some (JStr t) -> t <> "" -> getRow (ps_rows st) t = None ->
   patch st sid (Some b) = (P500 "FOREIGN KEY constraint failed", st)).
Proof.
  intros Hg Hs Hp. unfold patch. rewrite (empty_status_patch_eq _ _ _ _ _ _ _ Hg Hs Hp).
  unfold updateStream.
  cbn [u_status u_progress u_currentPhase u_blockedBy defined negb andb text_param].
  rewrite Hg.
  destruct (pb_blockedBy b) as [v|] eqn:Hb.
  - destruct (truthy v) eqn:Ht.
    + destruct (text_param bind_error v) as [[t|]|m] eqn:Htp.
      * match goal with |- context [if defined ?e then _ else _] => destruct (defined e) eqn:Hd end;
          rewrite getRow_update_row_defined in Hd by (intros; reflexivity);
          cbn [snd fst ps_history]; (split; [reflexivity|]); split.
        -- intros _. rewrite getRow_update_row by (intros; reflexivity). rewrite Hg.
           eexists. split; [reflexivity|]. split; reflexivity.
        -- intros t' Ht' _ Hn. injection Ht' as Hv; subst v. cbn in Htp. injection Htp as Hv; subst.
           rewrite Hn in Hd. discriminate.
        -- intros [H|(t' & Ht' & [->|Hn])]; [discriminate| |].
           ++ injection Ht' as Hv; subst v. cbn in Ht. discriminate.
           ++ injection Ht' as Hv; subst v. cbn in Htp. injection Htp as Hv; subst.
              match goal with Hn : getRow (ps_rows st) ?x <> None |- _ =>
                destruct (getRow (ps_rows st) x) end; [discriminate|congruence].
        -- intros; reflexivity.
      * destruct v; cbn in Ht, Htp; discriminate.
      * cbn [snd fst ps_history]. split; [reflexivity|]. split.
        -- intros [H|(t' & Ht' & _)]; [discriminate|]. injection Ht' as Hv; subst v. cbn in Htp. discriminate.
        -- intros t' Ht'. injection Ht' as Hv; subst v. cbn in Htp. discriminate.
    + cbn [text_param snd fst ps_history]. split; [reflexivity|]. split.
      * intros _. rewrite getRow_update_row by (intros; reflexivity). rewrite Hg.
        eexists. split; [reflexivity|]. split; reflexivity.
      * intros t' Ht' Hne _. injection Ht' as Hv; subst v. cbn in Ht. apply String.eqb_neq in Hne.
        rewrite Hne in Ht. discriminate.
  - cbn [snd fst ps_history]. split; [reflexivity|]. split.
    + intros _. rewrite getRow_update_row by (intros; reflexivity). rewrite Hg.
      eexists. split; [reflexivity|]. split; reflexivity.
    + intros t' Ht'. discriminate.
Qed.

(** Setting [status] to ["completed"] from another status goes through
    [completeStream]: the row gets the status and [completedAt], the
    [progress] and [blockedBy] of the body are not written (though the
    response reports the progress), and one [status_changed] event is
    logged. *)
Theorem patch_complete st sid b row :
  getRow (ps_rows st) sid = Some row ->
  pb_status b = Some (JStr "completed") -> r_status row <> "completed" ->
  progress_invalid (pb_progress b) = false ->
  patch st sid (Some b) =
  (P200 (Some (mkRow (r_id row) "completed" (r_progress row) (r_currentPhase row)
                 (r_blockedBy row) now (Some now)))
        (Some (r_status row, Some (JStr "completed")))
        (progress_value (pb_progress b)),
   mkPatchStore (completeStream now (ps_rows st) sid)
     (app (ps_history st)
        [mkEvent sid "status_changed" (Some (r_status row)) (Some "completed") ts])).
Proof.
  intros Hg Hs Hn Hp. unfold patch, patch_route. rewrite Hg, Hs, Hp.
  apply String.eqb_neq in Hn.
  change (status_invalid (Some (JStr "completed"))) with false.
  change (strict_eq_str (Some (JStr "completed")) "completed") with true.
  change (strict_eq_str (Some (JStr "completed")) (r_status row))
    with (String.eqb "completed" (r_status row)).
  change (truthy (JStr "completed")) with true.
  rewrite (String.eqb_sym "completed" (r_status row)), Hn.
  cbn [negb andb text_param].
  unfold completeStream at 1. rewrite getRow_update_row by reflexivity. rewrite Hg.
  reflexivity.
Qed.

(** The history grows by at most one event: a [status_changed] event
    from the stored status to the body's status, which is one of the six
    names and differs from the stored one. *)
Theorem patch_history st sid body :
  exists evs,
    ps_history (snd (patch st sid body)) = app (ps_history st) evs /\
    (evs = [] \/
     exists row b s, getRow (ps_rows st) sid = Some row /\ body = Some b /\
       pb_status b = Some (JStr s) /\ In s valid_statuses /\ s <> r_status row /\
       evs = [mkEvent sid "status_changed" (Some (r_status row)) (Some s) ts]).
Proof.
  unfold patch, patch_route.
  destruct (getRow (ps_rows st) sid) as [row|] eqn:Hg;
    [|exists []; split; [symmetry; apply app_nil_r|left; reflexivity]].
  destruct body as [b|]; [|exists []; split; [symmetry; apply app_nil_r|left; reflexivity]].
  destruct (status_invalid (pb_status b)) eqn:Hsi;
    [exists []; split; [symmetry; apply app_nil_r|left; reflexivity]|].
  destruct (progress_invalid (pb_progress b));
    [exists []; split; [symmetry; apply app_nil_r|left; reflexivity]|].
  match goal with |- context [match (if ?c then ?x else ?y) with Ok _ => _ | Throw _ => _ end] => destruct (if c then x else y) as [rows'|m] end;
    [|exists []; split; [symmetry; apply app_nil_r|left; reflexivity]].
  destruct (pb_status b) as [v|] eqn:Hs;
    [|exists []; split; [symmetry; apply app_nil_r|left; reflexivity]].
  destruct (truthy v && _) eqn:Ht;
    [|exists []; split; [symmetry; apply app_nil_r|left; reflexivity]].
  apply andb_true_iff in Ht. destruct Ht as [Ht Hne].
  destruct (status_valid_str v Hsi Ht) as (s & -> & Hin).
  cbn [text_param]. eexists. split; [reflexivity|]. right.
  exists row, b, s. repeat split; try assumption; try reflexivity.
  cbn [strict_eq_str] in Hne. apply negb_true_iff, String.eqb_neq in Hne. exact Hne.
Qed.

(** [PATCH /:id] changes no other stream's row. *)
Theorem patch_other_rows st sid body :
  filter (fun r => negb (String.eqb (r_id r) sid)) (ps_rows (snd (patch st sid body))) =
  filter (fun r => negb (String.eqb (r_id r) sid)) (ps_rows st).
Proof.
  unfold patch, patch_route.
  destruct (getRow (ps_rows st) sid) as [row|]; [|reflexivity].
  destruct body as [b|]; [|reflexivity].
  destruct (status_invalid (pb_status b)); [reflexivity|].
  destruct (progress_invalid (pb_progress b)); [reflexivity|].
  assert (Hw : forall rows',
    (if strict_eq_str (pb_status b) "completed" && negb (String.eqb (r_status row) "completed")
     then Ok (completeStream now (ps_rows st) sid)
     else updateStream bind_error now (ps_rows st) sid
            (mkUpdates (pb_status b) (progress_value (pb_progress b)) None (pb_blockedBy b)))
      = Ok rows' ->
    filter (fun r => negb (String.eqb (r_id r) sid)) rows' =
    filter (fun r => negb (String.eqb (r_id r) sid)) (ps_rows st)).
  { intros rows' H. destruct (_ && _).
    - injection H as <-. apply update_row_others. reflexivity.
    - destruct (updateStream_ok_rows _ _ _ _ _ _ H) as [->|(f & Hf & ->)];
        [reflexivity|apply update_row_others; exact Hf]. }
  match goal with |- context [match (if ?c then ?x else ?y) with Ok _ => _ | Throw _ => _ end] => destruct (if c then x else y) as [rows'|m] end; [|reflexivity].
  specialize (Hw rows' eq_refl).
  destruct (match pb_status b with Some v => _ | None => _ end) as [h|m]; exact Hw.
Qed.

(** A body with none of the three fields writes nothing ([updateStream]
    returns before its UPDATE, so [updated_at] is not touched), and the
    response still reports a status change from the stored status to
    [undefined]. *)
Theorem patch_empty_body st sid row :
  getRow (ps_rows st) sid = Some row ->
  patch st sid (Some (mkPatchBody None None None)) =
  (P200 (Some row) (Some (r_status row, None)) None, st).
Proof.
  intros Hg. unfold patch, patch_route. rewrite Hg. cbn. rewrite Hg.
  destruct st; reflexivity.
Qed.

End PatchProofs.

(* ------------------------------------------------------------------ *)
(** ** Retirement errors and relative times (retireStream, formatRelativeTime) *)



(** In the result [retireStream] returns, each step has added at most one
    error, in the order of the steps and with the step's prefix, and the
    summary job is reported as queued only when the archive report was
    written. *)
Theorem retire_errors_by_step fs_exists git rm_fails archive queue_job sg s options r :
  retireStream fs_exists git rm_fails archive queue_job sg s options = Ok r ->
  implb (summaryJobQueued r) (archiveWritten r) = true /\
  exists e1 e2 e3 e4,
    rr_errors r = app e1 (app e2 (app e3 e4)) /\
    step_error "Archive write failed: " e1 /\
    step_error "Failed to queue summary job: " e2 /\
    step_error "Worktree deletion failed: " e3 /\
    step_error "Plan files cleanup failed: " e4.
Proof.
  intros Hr. apply retireStream_ok in Hr. subst r. unfold retire_steps.
  destruct (opt_default (ro_writeArchive options) true);
    [destruct archive as [p|m1]|];
  (destruct (opt_default (ro_queueIntelligentSummary options) true && ro_db options && _) eqn:Hq;
    [destruct queue_job as [j|m2]|]);
  destruct (delete_step _ _ _ _ _ _) as [d|m3];
  destruct (opt_default (ro_cleanupPlanFiles options) true);
    try destruct (run_git _ _) as [m4|];
  cbn [summaryJobQueued archiveWritten rr_errors implb];
  (split; [reflexivity || (cbn [defined] in Hq; rewrite andb_false_r in Hq; discriminate)|]);
  let e1 := match goal with |- context [String.append "Archive write failed: " ?m1] => constr:(["Archive write failed: " ++ m1])
                          | _ => constr:(@nil string) end in
  let e2 := match goal with |- context [String.append "Failed to queue summary job: " ?m2] => constr:(["Failed to queue summary job: " ++ m2])
                          | _ => constr:(@nil string) end in
  let e3 := match goal with |- context [String.append "Worktree deletion failed: " ?m3] => constr:(["Worktree deletion failed: " ++ m3])
                          | _ => constr:(@nil string) end in
  let e4 := match goal with |- context [String.append "Plan files cleanup failed: " ?m4] => constr:(["Plan files cleanup failed: " ++ m4])
                          | _ => constr:(@nil string) end in
  exists e1, e2, e3, e4;
  split; [reflexivity|];
  repeat split; (left; reflexivity) || (right; eexists; reflexivity).
Qed.

Lemma pos_digits_length_ge fuel : forall n acc,
  String.length (pos_digits fuel n acc) >= String.length acc.
Proof.
  induction fuel as [|f IH]; intros n acc; [cbn; lia|].
  change (pos_digits (S f) n acc) with
    (if Z.eqb (Z.div n 10) 0 then String (ascii_of_nat (48 + Z.to_nat (Z.modulo n 10))) acc
     else pos_digits f (Z.div n 10) (String (ascii_of_nat (48 + Z.to_nat (Z.modulo n 10))) acc)).
  destruct (Z.eqb _ 0); [cbn; lia|].
  specialize (IH (n / 10)%Z (String (ascii_of_nat (48 + Z.to_nat (n mod 10))) acc)).
  cbn [String.length] in IH. lia.
Qed.

Lemma pos_digits_length fuel n acc :
  String.length (pos_digits (S fuel) n acc) >= S (String.length acc).
Proof.
  change (pos_digits (S fuel) n acc) with
    (if Z.eqb (Z.div n 10) 0 then String (ascii_of_nat (48 + Z.to_nat (Z.modulo n 10))) acc
     else pos_digits fuel (Z.div n 10) (String (ascii_of_nat (48 + Z.to_nat (Z.modulo n 10))) acc)).
  destruct (Z.eqb _ 0); [cbn; lia|].
  pose proof (pos_digits_length_ge fuel (n / 10)%Z (String (ascii_of_nat (48 + Z.to_nat (n mod 10))) acc)) as H.
  cbn [String.length] in H. lia.
Qed.

Lemma z_text_length n : String.length (z_text n) >= 1.
Proof.
  unfold z_text. destruct (Z.ltb n 0).
  - cbn [String.append String.length]. pose proof (pos_digits_length (Z.to_nat (- n)) (- n) ""). lia.
  - pose proof (pos_digits_length (Z.to_nat n) n ""). lia.
Qed.

Lemma length_append s1 s2 : String.length (s1 ++ s2) = String.length s1 + String.length s2.
Proof. induction s1 as [|c s1 IH]; cbn; [reflexivity|]. rewrite IH. reflexivity. Qed.

Lemma ago_not_just_now n unit plural :
  String.length unit >= 4 ->
  z_text n ++ unit ++ plural ++ " ago" <> "just now".
Proof.
  intros Hu He. apply (f_equal String.length) in He.
  rewrite !length_append in He. pose proof (z_text_length n). cbn in He. lia.
Qed.

Lemma floor_chain d :
  (d / 1000 / 60 = d / 60000 /\ d / 1000 / 60 / 60 = d / 3600000 /\
   d / 1000 / 60 / 60 / 24 = d / 86400000)%Z.
Proof.
  rewrite !Z.div_div by lia. repeat split; reflexivity.
Qed.

(** For a non-empty timestamp, [formatRelativeTime] answers ["just now"]
    exactly when the date is invalid or less than a minute has passed,
    which includes every timestamp in the future. *)
Theorem formatRelativeTime_just_now now parse iso :
  iso <> "" ->
  formatRelativeTime now parse iso = "just now" <->
  parse iso = None \/ exists t, parse iso = Some t /\ (now - t < 60000)%Z.
Proof.
  intros Hne. unfold formatRelativeTime.
  apply String.eqb_neq in Hne. rewrite Hne.
  destruct (parse iso) as [t|]; [|split; [left; reflexivity|reflexivity]].
  cbv zeta. destruct (floor_chain (now - t)) as (E1 & E2 & E3).
  rewrite E3, E2, E1. split.
  - intros H. right. exists t. split; [reflexivity|].
    destruct (Z.ltb_spec 0 ((now - t) / 86400000)) as [Hd|Hd];
      [exfalso; revert H; apply ago_not_just_now; cbn; lia|].
    destruct (Z.ltb_spec 0 ((now - t) / 3600000)) as [Hh|Hh];
      [exfalso; revert H; apply ago_not_just_now; cbn; lia|].
    destruct (Z.ltb_spec 0 ((now - t) / 60000)) as [Hm|Hm];
      [exfalso; revert H; apply ago_not_just_now; cbn; lia|].
    destruct (Z.ltb_spec (now - t) 60000) as [Hl|Hl]; [exact Hl|].
    assert (Hq : (1 <= (now - t) / 60000)%Z) by (apply Z.div_le_lower_bound; lia). lia.
  - intros [H|(t' & Ht & Hlt)]; [discriminate|]. injection Ht as <-.
    assert (Hm : ((now - t) / 60000 <= 0)%Z)
      by (assert (((now - t) / 60000 < 1)%Z) by (apply Z.div_lt_upper_bound; lia); lia).
    assert (Hh : ((now - t) / 3600000 <= 0)%Z)
      by (assert (((now - t) / 3600000 < 1)%Z) by (apply Z.div_lt_upper_bound; lia); lia).
    assert (Hd : ((now - t) / 86400000 <= 0)%Z)
      by (assert (((now - t) / 86400000 < 1)%Z) by (apply Z.div_lt_upper_bound; lia); lia).
    rewrite (proj2 (Z.ltb_ge _ _) Hd), (proj2 (Z.ltb_ge _ _) Hh), (proj2 (Z.ltb_ge _ _) Hm).
    reflexivity.
Qed.

(** From one day on, [formatRelativeTime] counts whole days: the elapsed
    milliseconds divided by 86 400 000, rounded down, with "day" in the
    plural from two days on. *)
Theorem formatRelativeTime_days now parse iso t :
  iso <> "" -> parse iso = Some t -> (86400000 <= now - t)%Z ->
  formatRelativeTime now parse iso =
  z_text ((now - t) / 86400000) ++ " day" ++
  (if Z.ltb 1 ((now - t) / 86400000) then "s" else "") ++ " ago".
Proof.
  intros Hne Hp Hd. unfold formatRelativeTime.
  apply String.eqb_neq in Hne. rewrite Hne, Hp. cbv zeta.
  destruct (floor_chain (now - t)) as (_ & _ & E3). rewrite E3.
  assert (Hpos : (1 <= (now - t) / 86400000)%Z)
    by (apply Z.div_le_lower_bound; lia).
  rewrite (proj2 (Z.ltb_lt 0 _)) by lia. reflexivity.
Qed.

Lemma retire_errors_by_step_witness :
  retireStream (fun _ => true) (fun _ => None) (fun _ => None) (Throw "EACCES") (Ok 1)
    (fun _ => None) retire_sample_stream retire_sample_options
  = Ok (retire_steps (fun _ => true) (fun _ => None) (fun _ => None) (Throw "EACCES") (Ok 1)
          retire_sample_stream retire_sample_options)
  /\ rr_errors (retire_steps (fun _ => true) (fun _ => None) (fun _ => None) (Throw "EACCES") (Ok 1)
          retire_sample_stream retire_sample_options) = ["Archive write failed: EACCES"]
  /\ implb (summaryJobQueued (retire_steps (fun _ => true) (fun _ => None) (fun _ => None) (Throw "EACCES") (Ok 1)
          retire_sample_stream retire_sample_options))
        (archiveWritten (retire_steps (fun _ => true) (fun _ => None) (fun _ => None) (Throw "EACCES") (Ok 1)
          retire_sample_stream retire_sample_options)) = true.
Proof.
  split; [reflexivity|]. split; [reflexivity|].
  destruct (retire_errors_by_step (fun _ => true) (fun _ => None) (fun _ => None)
              (Throw "EACCES") (Ok 1) (fun _ => None) retire_sample_stream retire_sample_options
              (retire_steps (fun _ => true) (fun _ => None) (fun _ => None) (Throw "EACCES") (Ok 1)
          retire_sample_stream retire_sample_options)) as [H _];
    [reflexivity|exact H].
Defined.

Lemma formatRelativeTime_just_now_witness :
  formatRelativeTime 1704067230000 sample_parse "2024-01-01T00:00:00.000Z" = "just now" <->
  sample_parse "2024-01-01T00:00:00.000Z" = None \/
  exists t, sample_parse "2024-01-01T00:00:00.000Z" = Some t /\ (1704067230000 - t < 60000)%Z.
Proof.
  apply formatRelativeTime_just_now. discriminate.
Defined.

Lemma formatRelativeTime_days_witness :
  formatRelativeTime 1704326400000 sample_parse "2024-01-01T00:00:00.000Z" =
  z_text ((1704326400000 - 1704067200000) / 86400000) ++ " day" ++
  (if Z.ltb 1 ((1704326400000 - 1704067200000) / 86400000) then "s" else "") ++ " ago".
Proof.
  apply formatRelativeTime_days; [discriminate|reflexivity|lia].
Defined.

(* ------------------------------------------------------------------ *)
(** ** The archive route properties on a sample store *)



Lemma getMergedBranches_listing_witness :
  let r := getMergedBranches
             (Some (String.concat nl (map branch_line
                [(MPlain, "main"); (MCurrent, "feature/x"); (MWorktree, "fix-y")]))) in
  NoDup r /\ forall x, In x r <-> exists mb,
    In mb [(MPlain, "main"); (MCurrent, "feature/x"); (MWorktree, "fix-y")] /\
    x = listed_name mb /\ x <> "main" /\ x <> "master".
Proof.
  apply getMergedBranches_listing.
  repeat constructor; cbv; try discriminate; try reflexivity.
Defined.

Lemma archive_route_guard_witness :
  archive_route (fun _ => None) (fun _ => true) (fun _ => None) (fun _ => None) (Ok "x") (Ok 1) (fun _ => None)
    "/p" "/w" "t" sample_store "b" sample_body = (A400 active, sample_store).
Proof.
  apply (archive_route_guard (fun _ => None) (fun _ => true) (fun _ => None) (fun _ => None)
           (Ok "x") (Ok 1) (fun _ => None) "/p" "/w" "t" sample_store "b" sample_body).
  intros s Hs. vm_compute in Hs. injection Hs as <-. discriminate.
Defined.

Lemma archive_route_completed_witness :
  archive_route (fun _ => None) (fun _ => true) (fun _ => None) (fun _ => None) (Ok "x") (Ok 1)
    (fun _ => None) "/p" "/w" "t" sample_store "a" sample_body =
  (A200 (retire_steps (fun _ => true) (fun _ => None) (fun _ => None) (Ok "x") (Ok 1)
           done_stream (retire_options "/p" "/w" sample_body)),
   without "a" sample_store) /\
  archive_route (fun _ => None) (fun _ => true) (fun _ => None) (fun _ => None) (Ok "x") (Ok 1)
    (fun _ => Some "Cannot use simple-git on a directory that does not exist")
    "/p" "/w" "t" sample_store "a" sample_body =
  (A500 "Cannot use simple-git on a directory that does not exist", sample_store).
Proof.
  split.
  - apply (archive_route_completed (fun _ => None) (fun _ => true) (fun _ => None)
             (fun _ => None) (Ok "x") (Ok 1) (fun _ => None) "/p" "/w" "t" sample_store "a"
             sample_body done_stream);
      [reflexivity|reflexivity|intros _; reflexivity|reflexivity].
  - apply (archive_route_completed (fun _ => None) (fun _ => true) (fun _ => None)
             (fun _ => None) (Ok "x") (Ok 1)
             (fun _ => Some "Cannot use simple-git on a directory that does not exist")
             "/p" "/w" "t" sample_store "a" sample_body done_stream);
      [reflexivity|reflexivity|intros _; reflexivity|reflexivity].
Defined.

Lemma archive_route_others_witness :
  let st' := snd (archive_route (fun _ => None) (fun _ => true) (fun _ => None) (fun _ => None)
                    (Ok "x") (Ok 1) (fun _ => None) "/p" "/w" "t" sample_store "a" sample_body) in
  hist_k "b" st' = hist_k "b" sample_store /\ commits_k "b" st' = commits_k "b" sample_store.
Proof.
  apply (archive_route_others (fun _ => None) (fun _ => true) (fun _ => None) (fun _ => None)
           (Ok "x") (Ok 1) (fun _ => None) "/p" "/w" "t" sample_store "a" sample_body "b").
  discriminate.
Defined.

Lemma archive_bulk_retired_once_witness :
  exists ok sc fc rs st',
    archive_bulk (fun _ => None) (fun _ => true) (fun _ => None) (fun _ => None) (Ok "x") (Ok 1) (fun _ => None)
      "/p" "/w" "t" sample_store (Some (mkBulkBody (Some ["a"; "b"; "a"]) sample_body)) =
      (B200 ok sc fc rs, st') /\
    nth 2 rs no_result = not_found "a".
Proof.
  do 5 eexists. split; [vm_compute; reflexivity|].
  eapply (archive_bulk_retired_once (fun _ => None) (fun _ => true) (fun _ => None) (fun _ => None)
           (Ok "x") (Ok 1) (fun _ => None) "/p" "/w" "t" sample_store sample_body ["a"; "b"; "a"]
           _ _ _ _ _ 0 2); [reflexivity|lia|simpl; lia|reflexivity|vm_compute; reflexivity].
Defined.

(* ------------------------------------------------------------------ *)
(** ** The stream update route properties on a sample store *)



Lemma patch_empty_status_witness :
  (exists row',
     fst (patch_route sample_bind_error "T1" "T2" patch_sample_store "s2"
            (Some (mkPatchBody (Some (JStr "")) (Some (JNum 50)) (Some (JStr "s1"))))) =
       P200 (Some row') (Some ("blocked", Some (JStr ""))) (Some 50%Z) /\
     r_status row' = "" /\ r_updatedAt row' = "T1") /\
  patch_route sample_bind_error "T1" "T2" patch_sample_store "s2"
    (Some (mkPatchBody (Some (JStr "")) None (Some (JStr "nope")))) =
  (P500 "FOREIGN KEY constraint failed", patch_sample_store).
Proof.
  split.
  - destruct (patch_empty_status sample_bind_error "T1" "T2" patch_sample_store "s2"
                (mkPatchBody (Some (JStr "")) (Some (JNum 50)) (Some (JStr "s1")))
                (mkRow "s2" "blocked" 10%Z None (Some "s1") "2024-01-01T00:00:00Z" None))
      as (_ & H & _); [reflexivity|reflexivity|reflexivity|].
    apply H. right. exists "s1". split; [reflexivity|]. right. discriminate.
  - destruct (patch_empty_status sample_bind_error "T1" "T2" patch_sample_store "s2"
                (mkPatchBody (Some (JStr "")) None (Some (JStr "nope")))
                (mkRow "s2" "blocked" 10%Z None (Some "s1") "2024-01-01T00:00:00Z" None))
      as (_ & _ & H); [reflexivity|reflexivity|reflexivity|].
    apply (H "nope"); [reflexivity|discriminate|reflexivity].
Defined.

Lemma patch_complete_witness :
  patch_route sample_bind_error "T1" "T2" patch_sample_store "s1"
    (Some (mkPatchBody (Some (JStr "completed")) (Some (JNum 100)) (Some (JStr "s2")))) =
  (P200 (Some (mkRow "s1" "completed" 40%Z (Some 2%Z) None "T1" (Some "T1")))
        (Some ("active", Some (JStr "completed"))) (Some 100%Z),
   mkPatchStore (completeStream "T1" (ps_rows patch_sample_store) "s1")
     (app (ps_history patch_sample_store)
        [mkEvent "s1" "status_changed" (Some "active") (Some "completed") "T2"])).
Proof.
  apply (patch_complete sample_bind_error "T1" "T2" patch_sample_store "s1"
           (mkPatchBody (Some (JStr "completed")) (Some (JNum 100)) (Some (JStr "s2")))
           (mkRow "s1" "active" 40%Z (Some 2%Z) None "2024-01-01T00:00:00Z" None));
    [reflexivity|reflexivity|discriminate|reflexivity].
Defined.

Lemma patch_empty_body_witness :
  patch_route sample_bind_error "T1" "T2" patch_sample_store "s1"
    (Some (mkPatchBody None None None)) =
  (P200 (Some (mkRow "s1" "active" 40%Z (Some 2%Z) None "2024-01-01T00:00:00Z" None))
        (Some ("active", None)) None, patch_sample_store).
Proof.
  apply (patch_empty_body sample_bind_error "T1" "T2" patch_sample_store "s1"
           (mkRow "s1" "active" 40%Z (Some 2%Z) None "2024-01-01T00:00:00Z" None)).
  reflexivity.
Defined.
